(** * PIC16B lecture notebooks: a shallow embedding of the functions they define

    The repository is a set of Jupyter notebooks.  Each function or method a
    notebook defines is embedded below, next to the notebook it comes from:

    - the "performance" notebook ([all_pairs], [count_list] ... [count_list4],
      [reverse1], [reverse2], [task1], [task2] and the threading driver cell);
    - [lectures/tf/tf-5.ipynb] ([split], [sample], [generate_string], and the
      cells that encode the lines and print the generated strings);
    - [lectures/sql/sql-1.ipynb] ([prepare_df]);
    - [lectures/abm/abm-1.ipynb] (the Toy and Schelling agents and models,
      [viz_state]).

    Operations of the Python runtime on built-in values (lists, dicts, strings,
    integers) are Rocq functions.  A call into an imported library (mesa, numpy,
    pandas, tensorflow, threading, os, the standard output stream) is a node
    [Call] of a program tree: the library's answer is whatever the environment
    gives, and theorems quantify over every environment. *)

From Stdlib Require Import ZArith List String Ascii Uint63 Floats Lia.
From stdpp Require Import base gmap strings list sorting pretty.

Local Open Scope string_scope.
Local Open Scope list_scope.
Local Open Scope Z_scope.

(* ================================================================= *)
(** ** Python exceptions and outcomes *)

(** An exception object: its class and its message. *)
Record exn := Exn { exn_class : string; exn_msg : string }.

Definition TypeError (msg : string) : exn := Exn "TypeError" msg.
Definition ValueError (msg : string) : exn := Exn "ValueError" msg.
Definition IndexError (msg : string) : exn := Exn "IndexError" msg.
Definition AttributeError (msg : string) : exn := Exn "AttributeError" msg.
Definition NameError (msg : string) : exn := Exn "NameError" msg.

(** What a call gives back to its caller: a value, or a raised exception. *)
Inductive outcome (A : Type) : Type :=
| Returned (a : A)
| Raised (e : exn).
Arguments Returned {A} a.
Arguments Raised {A} e.

Definition outcome_bind {A B} (o : outcome A) (f : A -> outcome B) : outcome B :=
  match o with
  | Returned a => f a
  | Raised e => Raised e
  end.

(* ================================================================= *)
(** ** Programs over library calls *)

Section Prog.
Context {call : Type} {answer : call -> Type}.

(** A function body as a tree.  [Throw] is a [raise] by an operation of the
    runtime inside the body (an index out of range, a bad keyword argument);
    [Call c k] calls the library operation [c] and goes on with [k] on its
    answer; [TryExcept body handler k] is a [try: body / except Exception as e:
    handler e] statement followed by [k]. *)
Inductive prog : Type -> Type :=
| Ret {A} (a : A) : prog A
| Throw {A} (e : exn) : prog A
| Call {A} (c : call) (k : answer c -> prog A) : prog A
| TryExcept {A B} (body : prog B) (handler : exn -> prog B) (k : B -> prog A) : prog A.

Fixpoint bind {A B} (p : prog A) : (A -> prog B) -> prog B :=
  match p in prog T return (T -> prog B) -> prog B with
  | Ret a => fun f => f a
  | Throw e => fun _ => Throw e
  | Call c k => fun f => Call c (fun x => bind (k x) f)
  | TryExcept body handler k => fun f => TryExcept body handler (fun b => bind (k b) f)
  end.

(** A runtime operation that may raise, inside a body. *)
Definition lift {A} (o : outcome A) : prog A :=
  match o with
  | Returned a => Ret a
  | Raised e => Throw e
  end.

(** [for x in xs: s = body x s]. *)
Fixpoint for_each {X S} (xs : list X) (body : X -> S -> prog S) (s : S) : prog S :=
  match xs with
  | [] => Ret s
  | x :: xs' => bind (body x s) (for_each xs' body)
  end.

(** One thing that happened while a body ran. *)
Inductive event : Type :=
| EvCall (c : call) (r : outcome (answer c))
| EvThrow (e : exn)
| EvCaught (e : exn).

(** The exception an event raised, if it raised one. *)
Definition raised_by (ev : event) : option exn :=
  match ev with
  | EvCall _ (Raised e) => Some e
  | EvCall _ (Returned _) => None
  | EvThrow e => Some e
  | EvCaught _ => None
  end.

(** The library: every call answers (or raises) and moves the world on. *)
Definition library (W : Type) : Type := forall c : call, W -> outcome (answer c) * W.

Section Run.
Context {W : Type} (lib : library W).

(** Runs a body in world [w]: its outcome, the world after, and the events in
    the order they happened. *)
Fixpoint run {A} (p : prog A) (w : W) : outcome A * W * list event :=
  match p in prog T return outcome T * W * list event with
  | Ret a => (Returned a, w, [])
  | Throw e => (Raised e, w, [EvThrow e])
  | Call c k =>
      match lib c w with
      | (Returned x, w') =>
          let '(o, w'', tr) := run (k x) w' in (o, w'', EvCall c (Returned x) :: tr)
      | (Raised e, w') => (Raised e, w', [EvCall c (Raised e)])
      end
  | TryExcept body handler k =>
      let '(ob, w1, tr1) := run body w in
      match ob with
      | Returned b =>
          let '(o, w2, tr2) := run (k b) w1 in (o, w2, tr1 ++ tr2)
      | Raised e =>
          let '(oh, w2, tr2) := run (handler e) w1 in
          match oh with
          | Returned b =>
              let '(o, w3, tr3) := run (k b) w2 in
              (o, w3, tr1 ++ EvCaught e :: tr2 ++ tr3)
          | Raised e' => (Raised e', w2, tr1 ++ EvCaught e :: tr2)
          end
      end
  end.

Definition result_of {A} (p : prog A) (w : W) : outcome A := (run p w).1.1.
Definition world_after {A} (p : prog A) (w : W) : W := (run p w).1.2.
Definition trace_of {A} (p : prog A) (w : W) : list event := (run p w).2.

End Run.

(** Every exception an event of the run raised is the outcome of the run. *)
Definition propagated {A} (o : outcome A) (tr : list event) : Prop :=
  forall ev e, ev ∈ tr -> raised_by ev = Some e -> o = Raised e.

(** The next thing a body does: return, raise, or call the library.  A [try]
    statement is entered, left when its body or handler returns, and its
    handler is run when the body raises. *)
Inductive head (A : Type) : Type :=
| HRet (a : A)
| HThrow (e : exn)
| HCall (c : call) (k : answer c -> prog A).
#[local] Arguments HRet {A} a.
#[local] Arguments HThrow {A} e.
#[local] Arguments HCall {A} c k.

Fixpoint expose {A} (p : prog A) : head A :=
  match p in prog T return head T with
  | Ret a => HRet a
  | Throw e => HThrow e
  | Call c k => HCall c k
  | TryExcept body handler k =>
      match expose body with
      | HRet b => expose (k b)
      | HCall c kb => HCall c (fun x => TryExcept (kb x) handler k)
      | HThrow e =>
          match expose (handler e) with
          | HRet b => expose (k b)
          | HCall c kh => HCall c (fun x => bind (kh x) k)
          | HThrow e' => HThrow e'
          end
      end
  end.

(** The body that goes on after a call gave [r]. *)
Definition resume {A X} (k : X -> prog A) (r : outcome X) : prog A :=
  match r with
  | Returned x => k x
  | Raised e => Throw e
  end.

(** A body with no [try] statement in it, whatever the library answers. *)
Inductive handler_free : forall {A}, prog A -> Prop :=
| hf_Ret {A} (a : A) : handler_free (Ret a)
| hf_Throw {A} (e : exn) : handler_free (@Throw A e)
| hf_Call {A} (c : call) (k : answer c -> prog A) :
    (forall x, handler_free (k x)) -> handler_free (Call c k).

(** A body that calls no library at all. *)
Inductive call_free : forall {A}, prog A -> Prop :=
| cf_Ret {A} (a : A) : call_free (Ret a)
| cf_Throw {A} (e : exn) : call_free (@Throw A e).

End Prog.

Arguments prog : clear implicits.
Arguments event : clear implicits.
Arguments library : clear implicits.
Arguments head : clear implicits.
Arguments HRet {call answer A} a.
Arguments HThrow {call answer A} e.
Arguments HCall {call answer A} c k.

Declare Scope prog_scope.
Delimit Scope prog_scope with prog.
Notation "x <- c ;; k" := (bind c (fun x => k))
  (at level 100, c at next level, right associativity) : prog_scope.
Notation "c ;;; k" := (bind c (fun _ => k))
  (at level 100, k at level 200, right associativity) : prog_scope.

(** [f(args)] for a library operation [f], as an expression. *)
Definition call_lib {call : Type} {answer : call -> Type} (c : call) : prog call answer (answer c) :=
  Call c Ret.

(* ================================================================= *)
(** ** Built-in operations of the Python runtime *)

Module Py.

(** [len(l)]. *)
Definition len {A} (l : list A) : Z := Z.of_nat (length l).

(** [l[i]]: a negative index counts from the end; out of range raises. *)
Definition getitem {A} (what : string) (l : list A) (i : Z) : outcome A :=
  let j := if i <? 0 then i + len l else i in
  if (0 <=? j) && (j <? len l) then
    match l !! Z.to_nat j with
    | Some x => Returned x
    | None => Raised (IndexError (what +:+ " index out of range"))
    end
  else Raised (IndexError (what +:+ " index out of range")).

(** The bound of a slice [l[a:b]], clamped to [0, len l] as Python does. *)
Definition clamp {A} (l : list A) (i : Z) : Z :=
  let j := if i <? 0 then i + len l else i in
  Z.max 0 (Z.min j (len l)).

(** [l[a:b]] (step 1): never raises; empty when the bounds cross. *)
Definition slice {A} (l : list A) (a b : Z) : list A :=
  let lo := clamp l a in
  let hi := clamp l b in
  take (Z.to_nat (hi - lo)) (drop (Z.to_nat lo) l).

(** The number of values of [range(start, stop, step)], for [step <> 0]. *)
Definition range_len (start stop step : Z) : Z :=
  if (0 <? step) && (start <? stop) then (stop - start - 1) / step + 1
  else if (step <? 0) && (stop <? start) then (start - stop - 1) / (- step) + 1
  else 0.

(** [range(start, stop, step)]: raises [ValueError] on a zero step. *)
Definition range (start stop step : Z) : outcome (list Z) :=
  if step =? 0 then Raised (ValueError "range() arg 3 must not be zero")
  else Returned (map (fun k => start + Z.of_nat k * step)
                     (seq 0 (Z.to_nat (range_len start stop step)))).

(** [range(n)]. *)
Definition range1 (n : Z) : list Z := map Z.of_nat (seq 0 (Z.to_nat n)).

(** [for x in xs: acc = body x acc], where the body may raise. *)
Fixpoint for_in {X S} (xs : list X) (body : X -> S -> outcome S) (acc : S) : outcome S :=
  match xs with
  | [] => Returned acc
  | x :: xs' => outcome_bind (body x acc) (for_in xs' body)
  end.

(** [c.isspace()] for a character below 256: the characters [str.split()]
    splits on. *)
Definition isspace (c : ascii) : bool :=
  let n := nat_of_ascii c in
  ((9 <=? n) && (n <=? 13) || (28 <=? n) && (n <=? 32) || (n =? 133) || (n =? 160))%nat.

(** The words of [cs], [cur] being the word read so far, in reverse. *)
Fixpoint split_go (cs : list ascii) (cur : list ascii) : list (list ascii) :=
  match cs with
  | [] => match cur with [] => [] | _ => [rev cur] end
  | c :: cs' =>
      if isspace c then
        match cur with
        | [] => split_go cs' []
        | _ => rev cur :: split_go cs' []
        end
      else split_go cs' (c :: cur)
  end.

(** [s.split()] for a string of characters below 256 (the strings of this
    development): the maximal runs of characters that are not whitespace. *)
Definition split (s : string) : list string :=
  map string_of_list_ascii (split_go (list_ascii_of_string s) []).

(** [sep.join(l)]. *)
Definition join (sep : string) (l : list string) : string := String.concat sep l.

(** The newline that [print] ends a line with. *)
Definition nl : string := String (ascii_of_nat 10) EmptyString.

(** [enumerate(l)]: each element with its position. *)
Definition enumerate {A} (l : list A) : list (Z * A) :=
  imap (fun i x => (Z.of_nat i, x)) l.

(** [s[a:b]] and [len(s)] for a string [s]. *)
Definition str_slice (s : string) (a b : Z) : string :=
  string_of_list_ascii (slice (list_ascii_of_string s) a b).

Definition str_len (s : string) : Z := len (list_ascii_of_string s).

(** A word, as [str.split()] returns them: a run of characters that are not
    whitespace, with at least one character. *)
Definition is_word (w : list ascii) : Prop :=
  w <> [] /\ Forall (fun c => isspace c = false) w.

(** The characters of [sep.join(ws)]. *)
Fixpoint join_chars (sep : list ascii) (ws : list (list ascii)) : list ascii :=
  match ws with
  | [] => []
  | [w] => w
  | w :: ws' => w ++ sep ++ join_chars sep ws'
  end.

End Py.

(* ================================================================= *)
(** ** The performance notebook (src/unnamed/part_000) *)

Module Perf.

(** *** Pairs and counting *)

(** [all_pairs(x)]: the pairs the generator yields, in the order it yields
    them ([for i in x: for j in x: yield (i, j)]). *)
Definition all_pairs {A} (x : list A) : list (A * A) :=
  flat_map (fun i => map (fun j => (i, j)) x) x.

Section Counting.
Context `{Countable K}.

(** [L.count(i)]: the number of elements of [L] equal to [i]. *)
Definition list_count (L : list K) (i : K) : nat :=
  length (filter (fun y => y = i) L).

(** [out.update(d)]: the entries of [d] are written over those of [out]. *)
Definition dict_update (out d : gmap K nat) : gmap K nat := d ∪ out.

(** [out.get(k, d)]. *)
Definition dict_get (out : gmap K nat) (k : K) (d : nat) : nat := default d (out !! k).

(** [set(L)], and the order a [for] loop visits it in (some order, each
    element once). *)
Definition py_set (L : list K) : gset K := list_to_set L.
Definition set_iter (s : gset K) : list K := elements s.

(** [dict(m)]: a dictionary with the entries of the mapping [m]. *)
Definition dict (m : gmap K nat) : gmap K nat := m.

(** [count_list(L)]:
    [out = {}; for i in L: out.update({i : L.count(i)}); return out]. *)
Definition count_list (L : list K) : gmap K nat :=
  fold_left (fun out i => dict_update out {[ i := list_count L i ]}) L ∅.

(** [count_list2(L)]: the same loop over [set(L)]. *)
Definition count_list2 (L : list K) : gmap K nat :=
  fold_left (fun out i => dict_update out {[ i := list_count L i ]}) (set_iter (py_set L)) ∅.

(** [count_list3(L)]:
    [out = {}; for i in L: out[i] = out.get(i, 0) + 1; return out]. *)
Definition count_list3 (L : list K) : gmap K nat :=
  fold_left (fun out i => <[ i := (dict_get out i 0 + 1)%nat ]> out) L ∅.

(** [collections.Counter], which the cell imports. *)
Inductive collections_call := Counter (L : list K).
Definition collections_answer (c : collections_call) : Type := gmap K nat.

(** [count_list4(L)]: [return dict(Counter(L))]. *)
Definition count_list4 (L : list K) : prog collections_call collections_answer (gmap K nat) :=
  bind (call_lib (Counter L)) (fun c => Ret (dict c)).

(** What the documentation of [collections.Counter] promises of
    [Counter(L)]: it returns a mapping from each element of [L] to its count,
    with no other key. *)
Definition Counter_contract {W} (lib : library collections_call collections_answer W) : Prop :=
  forall (L : list K) (w : W),
    exists m, (lib (Counter L) w).1 = Returned m /\
      forall k : K, m !! k = if decide (k ∈ L) then Some (list_count L k) else None.

(** [Counter(L)] as CPython computes it:
    [for elem in iterable: mapping[elem] = mapping.get(elem, 0) + 1]. *)
Definition cpython_collections : library collections_call collections_answer unit :=
  fun c w =>
    match c with
    | Counter L =>
        (Returned (fold_left (fun m e => <[ e := (default 0%nat (m !! e) + 1)%nat ]> m) L ∅), w)
    end.

End Counting.

(** *** Reversing the words of a string *)

(** [reverse1(s)]:
    [words = s.split(); out = ""; n = len(words)]
    [for i in range(n): out += words[-i-1]; if i < n - 1: out += " "]
    [return out]. *)
Definition reverse1 (s : string) : outcome string :=
  let words := Py.split s in
  let out := "" in
  let n := Py.len words in
  Py.for_in (Py.range1 n)
    (fun i out =>
       outcome_bind (Py.getitem "list" words (- i - 1)) (fun w =>
       let out := out +:+ w in
       Returned (if i <? n - 1 then out +:+ " " else out)))
    out.

(** [reverse2(s)]: [return " ".join(reversed(s.split()))]. *)
Definition reverse2 (s : string) : string := Py.join " " (rev (Py.split s)).

(** *** The multithreading illustration *)

(** The functions a [threading.Thread] of the notebook is given as target. *)
Inductive thread_target := target_task1 | target_task2.

(** Thread objects, as the [threading] module hands them out. *)
Definition thread_id := nat.

(** The operations of the illustration outside the repository's code:
    writing to [sys.stdout], [threading.current_thread().name], [os.getpid()],
    [threading.Thread(target, name)], [t.start()], [t.join()], and the
    notebook's global variables ([x = v] at top level, and reading [x]). *)
Inductive perf_call :=
| StdoutWrite (s : string)
| CurrentThreadName
| GetPid
| ThreadNew (target : thread_target) (name : string)
| ThreadStart (t : thread_id)
| ThreadJoin (t : thread_id)
| GlobalStore (x : string) (t : thread_id)
| GlobalLoad (x : string).

Definition perf_answer (c : perf_call) : Type :=
  match c with
  | StdoutWrite _ => unit
  | CurrentThreadName => string
  | GetPid => Z
  | ThreadNew _ _ => thread_id
  | ThreadStart _ => unit
  | ThreadJoin _ => unit
  | GlobalStore _ _ => unit
  | GlobalLoad _ => thread_id
  end.

Definition perf_prog := prog perf_call perf_answer.

Local Open Scope prog_scope.

Definition perf_lib (c : perf_call) : perf_prog (perf_answer c) := call_lib c.

(** [print(s)]: writes [s], then the line end. *)
Definition print (s : string) : perf_prog unit :=
  perf_lib (StdoutWrite s) ;;; perf_lib (StdoutWrite Py.nl).

(** [print()]: writes the line end only. *)
Definition print_empty : perf_prog unit := perf_lib (StdoutWrite Py.nl).

(** ["...{}".format(v)] with the placeholder last: the text, then [str(v)]. *)
Definition format_str (text : string) (v : string) : string := text +:+ v.
Definition format_int (text : string) (v : Z) : string := text +:+ pretty v.

(** [task1()]. *)
Definition task1 : perf_prog unit :=
  name <- perf_lib CurrentThreadName ;;
  print (format_str "Task 1 assigned to thread: " name) ;;;
  pid <- perf_lib GetPid ;;
  print (format_int "ID of process running task 1: " pid) ;;;
  print "To boldly go" ;;;
  print_empty.

(** [task2()]. *)
Definition task2 : perf_prog unit :=
  name <- perf_lib CurrentThreadName ;;
  print (format_str "Task 2 assigned to thread: " name) ;;;
  pid <- perf_lib GetPid ;;
  print (format_int "ID of process running task 2: " pid) ;;;
  print "Where no one has gone before" ;;;
  print_empty.

Definition target_body (tg : thread_target) : perf_prog unit :=
  match tg with
  | target_task1 => task1
  | target_task2 => task2
  end.

(** The driver cell, statement by statement. *)
Definition driver : perf_prog unit :=
  pid <- perf_lib GetPid ;;
  print (format_int "ID of process running main program: " pid) ;;;
  name <- perf_lib CurrentThreadName ;;
  print (format_str "Main thread name: " name) ;;;
  print_empty ;;;
  t <- perf_lib (ThreadNew target_task1 "THREAD 1") ;;
  perf_lib (GlobalStore "t1" t) ;;;
  t <- perf_lib (ThreadNew target_task2 "THREAD 2") ;;
  perf_lib (GlobalStore "t2" t) ;;;
  t1 <- perf_lib (GlobalLoad "t1") ;; perf_lib (ThreadStart t1) ;;;
  t2 <- perf_lib (GlobalLoad "t2") ;; perf_lib (ThreadStart t2) ;;;
  t1 <- perf_lib (GlobalLoad "t1") ;; perf_lib (ThreadJoin t1) ;;;
  t2 <- perf_lib (GlobalLoad "t2") ;; perf_lib (ThreadJoin t2).

(** **** Threads running side by side *)

Inductive thread_state :=
| NotStarted
| Running (p : perf_prog unit)
| Finished.

Record thread := Thread {
  th_target : thread_target;
  th_name : string;
  th_state : thread_state
}.

(** What the main program and the threads share: the thread objects, the
    notebook's global variables, the standard output (the chunks written, in
    order), the process id, and the threads some [join()] has returned for. *)
Record shared := Shared {
  threads : list thread;
  globals : gmap string thread_id;
  stdout : list string;
  pid : Z;
  joined : list thread_id
}.

(** Who runs: the main thread, or a thread object. *)
Definition actor := option thread_id.

Definition actor_name (a : actor) (s : shared) : string :=
  match a with
  | None => "MainThread"
  | Some t => match threads s !! t with Some th => th_name th | None => "" end
  end.

Definition set_state (t : thread_id) (st : thread_state) (s : shared) : shared :=
  Shared (alter (fun th => Thread (th_target th) (th_name th) st) t (threads s))
         (globals s) (stdout s) (pid s) (joined s).

Definition RuntimeError (msg : string) : exn := Exn "RuntimeError" msg.

(** One operation, run by [a].  [None]: the operation blocks for now (a
    [join()] on a thread that still runs). *)
Definition exec (a : actor) (c : perf_call) (s : shared)
  : option (outcome (perf_answer c) * shared) :=
  match c return option (outcome (perf_answer c) * shared) with
  | StdoutWrite x =>
      Some (Returned tt, Shared (threads s) (globals s) (stdout s ++ [x]) (pid s) (joined s))
  | CurrentThreadName => Some (Returned (actor_name a s), s)
  | GetPid => Some (Returned (pid s), s)
  | ThreadNew tg nm =>
      Some (Returned (length (threads s)),
            Shared (threads s ++ [Thread tg nm NotStarted]) (globals s) (stdout s) (pid s) (joined s))
  | ThreadStart t =>
      match threads s !! t with
      | Some (Thread tg _ NotStarted) => Some (Returned tt, set_state t (Running (target_body tg)) s)
      | _ => Some (Raised (RuntimeError "threads can only be started once"), s)
      end
  | ThreadJoin t =>
      if decide (a = Some t) then Some (Raised (RuntimeError "cannot join current thread"), s)
      else
        match threads s !! t with
        | Some (Thread _ _ Finished) =>
            Some (Returned tt, Shared (threads s) (globals s) (stdout s) (pid s) (joined s ++ [t]))
        | Some (Thread _ _ (Running _)) => None
        | _ => Some (Raised (RuntimeError "cannot join thread before it is started"), s)
        end
  | GlobalStore x t =>
      Some (Returned tt, Shared (threads s) (<[ x := t ]> (globals s)) (stdout s) (pid s) (joined s))
  | GlobalLoad x =>
      match globals s !! x with
      | Some t => Some (Returned t, s)
      | None => Some (Raised (NameError x), s)
      end
  end.

(** The notebook's process: what is left of the driver cell, and the shared
    state. *)
Definition system : Type := perf_prog unit * shared.

(** One step of the process: the main program or a started thread runs its
    next operation, or a thread whose target has returned (or raised) ends. *)
Inductive step : system -> system -> Prop :=
| step_main main s c k r s' :
    expose main = HCall c k ->
    exec None c s = Some (r, s') ->
    step (main, s) (resume k r, s')
| step_thread main s t th p c k r s' :
    threads s !! t = Some th ->
    th_state th = Running p ->
    expose p = HCall c k ->
    exec (Some t) c s = Some (r, s') ->
    step (main, s) (main, set_state t (Running (resume k r)) s')
| step_exit main s t th p :
    threads s !! t = Some th ->
    th_state th = Running p ->
    (forall c k, expose p <> HCall c k) ->
    step (main, s) (main, set_state t Finished s).

(** The process when the driver cell starts: no thread object yet. *)
Definition initial (pid0 : Z) (out0 : list string) : system :=
  (driver, Shared [] ∅ out0 pid0 []).

(** The main program has run to its end. *)
Definition main_ended (sy : system) : Prop := expose sy.1 = HRet tt.

(** The same step, computed: [a] runs next.  [None] when [a] cannot run. *)
Definition step_of (a : actor) (sy : system) : option system :=
  let '(main, s) := sy in
  match a with
  | None =>
      match expose main with
      | HCall c k =>
          match exec None c s with
          | Some (r, s') => Some (resume k r, s')
          | None => None
          end
      | _ => None
      end
  | Some t =>
      match threads s !! t with
      | Some (Thread _ _ (Running p)) =>
          match expose p with
          | HCall c k =>
              match exec (Some t) c s with
              | Some (r, s') => Some (main, set_state t (Running (resume k r)) s')
              | None => None
              end
          | _ => Some (main, set_state t Finished s)
          end
      | _ => None
      end
  end.

(** The process after the actors of [sched] ran one step each, in order. *)
Fixpoint run_schedule (sched : list actor) (sy : system) : option system :=
  match sched with
  | [] => Some sy
  | a :: sched' =>
      match step_of a sy with
      | Some sy' => run_schedule sched' sy'
      | None => None
      end
  end.

(** A schedule of the driver cell: the main program up to [t2.start()], the
    first thread to its end, the second thread to its end, and the main
    program through the two [join()]. *)
Definition one_after_the_other : list actor :=
  replicate 15 None ++ replicate 10 (Some 0%nat) ++ replicate 10 (Some 1%nat)
    ++ replicate 4 None.

(** The world of a body that runs alone, as [a]: a blocked [join()] never
    returns, which leaves the body there. *)
Definition alone (a : actor) : library perf_call perf_answer shared :=
  fun c s =>
    match exec a c s with
    | Some r => r
    | None => (Raised (RuntimeError "deadlock"), s)
    end.

(** What a run of [p] by [a] writes to the standard output. *)
Definition written (a : actor) (p : perf_prog unit) (s : shared) : list string :=
  drop (length (stdout s)) (stdout (world_after (alone a) p s)).

(** The operation is a write to the standard output or a question to the
    runtime (the thread's name, the process id): no thread is touched and no
    global variable read or assigned. *)
Definition print_or_ask (c : perf_call) : bool :=
  match c with
  | StdoutWrite _ => true
  | CurrentThreadName => true
  | GetPid => true
  | _ => false
  end.

(** The event is such an operation, and nothing raised by the body itself. *)
Definition prints_or_asks (ev : event perf_call perf_answer) : bool :=
  match ev with
  | EvCall c _ => print_or_ask c
  | _ => false
  end.

(** **** The points of the driver cell *)

(** What the notebook's process answers the main program at each operation
    of the driver cell: the first thread object is 0, the second 1. *)
Definition main_answer (pid0 : Z) (c : perf_call) : perf_answer c :=
  match c return perf_answer c with
  | StdoutWrite _ => tt
  | CurrentThreadName => "MainThread"
  | GetPid => pid0
  | ThreadNew target_task1 _ => 0%nat
  | ThreadNew target_task2 _ => 1%nat
  | ThreadStart _ => tt
  | ThreadJoin _ => tt
  | GlobalStore _ _ => tt
  | GlobalLoad x => if String.eqb x "t1" then 0%nat else 1%nat
  end.

(** The main program one operation later. *)
Definition next (pid0 : Z) (p : perf_prog unit) : perf_prog unit :=
  match expose p with
  | HCall c k => k (main_answer pid0 c)
  | _ => p
  end.

(** The main program after [n] operations of the driver cell. *)
Fixpoint main_at (pid0 : Z) (n : nat) : perf_prog unit :=
  match n with
  | O => driver
  | S n' => next pid0 (main_at pid0 n')
  end.

(** The operation a body is about to run, if any. *)
Definition head_call (h : head perf_call perf_answer unit) : option perf_call :=
  match h with
  | HCall c _ => Some c
  | _ => None
  end.

(** A body that only prints and asks, whatever it is answered. *)
Inductive quiet : perf_prog unit -> Prop :=
| quiet_Ret u : quiet (Ret u)
| quiet_Call c k :
    print_or_ask c = true ->
    (forall x, quiet (k x)) ->
    quiet (Call c k).

(** A thread that has been started: it runs a quiet body, or has ended. *)
Definition started (st : thread_state) : Prop :=
  st = Finished \/ exists p, st = Running p /\ quiet p.

(** The state of thread [i] (0 or 1) when the main program has run [n]
    operations: [t1.start()] is operation 13 and [t2.start()] operation 15,
    [t1.join()] operation 17 and [t2.join()] operation 19. *)
Definition status_at (n i : nat) (st : thread_state) : Prop :=
  if (n <? 13 + 2 * i)%nat then st = NotStarted
  else if (n <? 17 + 2 * i)%nat then started st
  else st = Finished.

Definition threads_at (n : nat) (ths : list thread) : Prop :=
  if (n <? 8)%nat then ths = []
  else if (n <? 10)%nat then ths = [Thread target_task1 "THREAD 1" NotStarted]
  else exists st0 st1,
    ths = [Thread target_task1 "THREAD 1" st0; Thread target_task2 "THREAD 2" st1] /\
    status_at n 0 st0 /\ status_at n 1 st1.

Definition globals_at (n : nat) : gmap string thread_id :=
  if (n <? 9)%nat then ∅
  else if (n <? 11)%nat then <[ "t1" := 0%nat ]> ∅
  else <[ "t2" := 1%nat ]> (<[ "t1" := 0%nat ]> ∅).

Definition joined_at (n : nat) : list thread_id :=
  if (n <? 17)%nat then [] else if (n <? 19)%nat then [0%nat] else [0%nat; 1%nat].

(** What holds of the process whenever the main program has run [n]
    operations of the driver cell. *)
Definition at_point (pid0 : Z) (n : nat) (sy : system) : Prop :=
  (n <= 19)%nat /\
  sy.1 = main_at pid0 n /\
  pid sy.2 = pid0 /\
  globals sy.2 = globals_at n /\
  joined sy.2 = joined_at n /\
  threads_at n (threads sy.2).

(** *** Counts as a whole *)

Section Census.
Context `{Countable K}.

(** [sum(out.values())]. *)
Definition values_sum (out : gmap K nat) : nat :=
  map_fold (fun _ v acc => (v + acc)%nat) 0%nat out.

(** The dictionary that maps each key of [a] or [b] to the sum of its counts
    in [a] and in [b]. *)
Definition dict_merge (a b : gmap K nat) : gmap K nat :=
  union_with (fun x y => Some (x + y)%nat) a b.

(** [out] is a census of [L]: its keys are the elements of [L], every count
    is at least 1 and at most [len(L)], and the counts add up to [len(L)]. *)
Definition census (L : list K) (out : gmap K nat) : Prop :=
  dom out = py_set L /\
  (forall k v, out !! k = Some v -> (1 <= v <= length L)%nat) /\
  values_sum out = length L.

End Census.

(** *** What the driver cell and its threads write *)

(** The body one operation later, the operation being answered [ans c]. *)
Definition advance (ans : forall c, perf_answer c) (p : perf_prog unit) : perf_prog unit :=
  match expose p with
  | HCall c k => k (ans c)
  | _ => p
  end.

(** The body after [n] operations. *)
Fixpoint after (ans : forall c, perf_answer c) (p : perf_prog unit) (n : nat) : perf_prog unit :=
  match n with
  | O => p
  | S n' => advance ans (after ans p n')
  end.

(** What the next operation of a body writes to the standard output. *)
Definition head_write (p : perf_prog unit) : list string :=
  match head_call (expose p) with
  | Some (StdoutWrite x) => [x]
  | _ => []
  end.

(** What a body writes during its first [n] operations. *)
Fixpoint chunks (ans : forall c, perf_answer c) (p : perf_prog unit) (n : nat) : list string :=
  match n with
  | O => []
  | S n' => chunks ans p n' ++ head_write (after ans p n')
  end.

(** What the process answers a thread named [nm]: its name and the process
    id are all a task asks for. *)
Definition thread_answer (nm : string) (pid0 : Z) (c : perf_call) : perf_answer c :=
  match c return perf_answer c with
  | StdoutWrite _ => tt
  | CurrentThreadName => nm
  | GetPid => pid0
  | ThreadNew _ _ => 0%nat
  | ThreadStart _ => tt
  | ThreadJoin _ => tt
  | GlobalStore _ _ => tt
  | GlobalLoad _ => 0%nat
  end.

(** [l] is [l1] and [l2] shuffled together, each in its own order. *)
Inductive interleaved {A : Type} : list A -> list A -> list A -> Prop :=
| interleaved_nil : interleaved [] [] []
| interleaved_l x l1 l2 l : interleaved l1 l2 l -> interleaved (x :: l1) l2 (x :: l)
| interleaved_r x l1 l2 l : interleaved l1 l2 l -> interleaved l1 (x :: l2) (x :: l).

(** A thread object, which may not exist yet, has run [k] operations of
    [body]. *)
Definition progress_at (body : perf_prog unit) (ans : forall c, perf_answer c)
    (th : option thread) (k : nat) : Prop :=
  match th_state <$> th with
  | None => k = 0%nat
  | Some NotStarted => k = 0%nat
  | Some (Running p) => p = after ans body k
  | Some Finished => expose (after ans body k) = HRet tt
  end.

(** The standard output when the main program has run [n] operations: what
    was there before, what the main program has written, and what the two
    threads have written so far, shuffled. *)
Definition output_at (pid0 : Z) (out0 : list string) (n : nat) (s : shared) : Prop :=
  exists (k1 k2 : nat) (w : list string),
    stdout s = out0 ++ chunks (main_answer pid0) driver n ++ w /\
    interleaved (chunks (thread_answer "THREAD 1" pid0) task1 k1)
                (chunks (thread_answer "THREAD 2" pid0) task2 k2) w /\
    progress_at task1 (thread_answer "THREAD 1" pid0) (threads s !! 0%nat) k1 /\
    progress_at task2 (thread_answer "THREAD 2" pid0) (threads s !! 1%nat) k2.

(** A schedule of the driver cell in which the second thread runs between
    the first line of the first thread and its line end. *)
Definition first_lines_mixed : list actor :=
  replicate 15 None ++ replicate 2 (Some 0%nat) ++ replicate 10 (Some 1%nat)
    ++ replicate 8 (Some 0%nat) ++ replicate 4 None.

End Perf.

(* ================================================================= *)
(** ** Text generation (src/lectures/tf/tf-5.ipynb) *)

Module Tf5.

(** A Python [str] is a list of characters; [text[i]] is the one-character
    string [[c]]. *)

(** [split(raw_text, max_len, step_size)], [text] being the notebook's global
    variable of that name:
    [lines = []; next_chars = []]
    [for i in range(0, len(text) - max_len, step_size):]
    [    lines.append(text[i:i+max_len]); next_chars.append(text[i+max_len])]
    [return lines, next_chars].
    The caller gives [step_size] (1 when the call leaves it out). *)
Definition split {C A : Type} (text : list C) (raw_text : A) (max_len step_size : Z)
  : outcome (list (list C) * list (list C)) :=
  let lines : list (list C) := [] in
  let next_chars : list (list C) := [] in
  outcome_bind (Py.range 0 (Py.len text - max_len) step_size) (fun indices =>
  Py.for_in indices
    (fun i acc =>
       let lines := acc.1 ++ [Py.slice text i (i + max_len)] in
       outcome_bind (Py.getitem "string" text (i + max_len)) (fun c =>
       Returned (lines, acc.2 ++ [[c]])))
    (lines, next_chars)).

(** Arrays and the trained model are objects of numpy and tensorflow. *)
Definition ndarray := nat.
Definition keras_model := nat.

(** The numpy and keras operations the two sampling functions use. *)
Inductive tf_call :=
| NpAsarray (preds : ndarray)
| Astype (a : ndarray) (dtype : string)
| ArrDivScalar (a : ndarray) (x : float)
| NpExp (a : ndarray)
| ArrSum (a : ndarray)
| ArrDivFloat (a : ndarray) (x : float)
| NpRandomMultinomial (n : Z) (pvals : ndarray) (size : Z)
| NpArgmax (a : ndarray)
| NpZeros (rows cols : Z)
| ArrGetRow (a : ndarray) (i : Z)
| ArrSetRows (a : ndarray) (lo hi : Z) (v : ndarray)
| ArrGetRows (a : ndarray) (lo hi : Z)
| NpArrayOf (rows : list ndarray)
| ModelPredict (m : keras_model) (x : ndarray)
| ArrSetCell (a : ndarray) (i j : Z) (v : bool).

Definition tf_answer (c : tf_call) : Type :=
  match c with
  | ArrSum _ => float
  | NpArgmax _ => Z
  | ArrSetRows _ _ _ _ => unit
  | ArrSetCell _ _ _ _ => unit
  | _ => ndarray
  end.

Definition tf_prog := prog tf_call tf_answer.
Definition tf_lib (c : tf_call) : tf_prog (tf_answer c) := call_lib c.

Local Open Scope prog_scope.

(** [sample(preds, temp)]. *)
Definition sample (preds : ndarray) (temp : float) : tf_prog Z :=
  a <- tf_lib (NpAsarray preds) ;;
  preds <- tf_lib (Astype a "float64") ;;
  scaled <- tf_lib (ArrDivScalar preds temp) ;;
  probs <- tf_lib (NpExp scaled) ;;
  total <- tf_lib (ArrSum probs) ;;
  probs <- tf_lib (ArrDivFloat probs total) ;;
  samp <- tf_lib (NpRandomMultinomial 1 probs 1) ;;
  tf_lib (NpArgmax samp).

(** The global variables [generate_string] reads. *)
Record tf_globals := TfGlobals {
  max_len : Z;
  chars : list string;
  X : ndarray;
  lines : list string
}.

(** [generate_string(seed_index, temp, gen_length, model)]. *)
Definition generate_string (g : tf_globals) (seed_index : Z) (temp : float)
    (gen_length : Z) (model : keras_model) : tf_prog string :=
  gen_seq <- tf_lib (NpZeros (max_len g + gen_length) (Py.len (chars g))) ;;
  seed <- tf_lib (ArrGetRow (X g) seed_index) ;;
  tf_lib (ArrSetRows gen_seq 0 (max_len g) seed) ;;;
  gen_text <- lift (Py.getitem "list" (lines g) seed_index) ;;
  indices <- lift (Py.range 0 gen_length 1) ;;
  for_each indices
    (fun i gen_text =>
       window <- tf_lib (ArrGetRows gen_seq i (i + max_len g)) ;;
       batch <- tf_lib (NpArrayOf [window]) ;;
       out <- tf_lib (ModelPredict model batch) ;;
       preds <- tf_lib (ArrGetRow out 0) ;;
       next_index <- sample preds temp ;;
       tf_lib (ArrSetCell gen_seq (max_len g + i) next_index true) ;;;
       next_char <- lift (Py.getitem "list" (chars g) next_index) ;;
       Ret (gen_text +:+ next_char))
    gen_text.

(** *** What [split] visits, and what [generate_string] asks and returns *)

(** The indices the loop of [split] visits. *)
Definition split_indices {C} (text : list C) (max_len step_size : Z) : list Z :=
  map (fun k => Z.of_nat k * step_size)
      (seq 0 (Z.to_nat (Py.range_len 0 (Py.len text - max_len) step_size))).

(** The event is a call of [model.predict]. *)
Definition is_predict (ev : event tf_call tf_answer) : bool :=
  match ev with
  | EvCall (ModelPredict _ _) _ => true
  | _ => false
  end.

(** The number of predictions a run asked the model for. *)
Definition count_predict (tr : list (event tf_call tf_answer)) : Z :=
  Py.len (List.filter is_predict tr).

(** The two parts the last cell prints of a generated string [gen]:
    [gen[:-gen_length]] and [gen[-gen_length:]]. *)
Definition seed_part (gen : string) (gen_length : Z) : string :=
  Py.str_slice gen 0 (- gen_length).

Definition generated_part (gen : string) (gen_length : Z) : string :=
  Py.str_slice gen (- gen_length) (Py.str_len gen).

(** A library for examples: every array is array 0, every sum is 1.0 and
    [np.argmax] always answers 1. *)
Definition tf_toy_library : library tf_call tf_answer unit :=
  fun c w =>
    match c return outcome (tf_answer c) * unit with
    | NpAsarray _ => (Returned 0%nat, w)
    | Astype _ _ => (Returned 0%nat, w)
    | ArrDivScalar _ _ => (Returned 0%nat, w)
    | NpExp _ => (Returned 0%nat, w)
    | ArrSum _ => (Returned 1%float, w)
    | ArrDivFloat _ _ => (Returned 0%nat, w)
    | NpRandomMultinomial _ _ _ => (Returned 0%nat, w)
    | NpArgmax _ => (Returned 1, w)
    | NpZeros _ _ => (Returned 0%nat, w)
    | ArrGetRow _ _ => (Returned 0%nat, w)
    | ArrSetRows _ _ _ _ => (Returned tt, w)
    | ArrGetRows _ _ _ => (Returned 0%nat, w)
    | NpArrayOf _ => (Returned 0%nat, w)
    | ModelPredict _ _ => (Returned 0%nat, w)
    | ArrSetCell _ _ _ _ => (Returned tt, w)
    end.

(** Global variables for examples: three characters, one line. *)
Definition toy_globals : tf_globals := TfGlobals 4 ["a"; "b"; "c"] 0%nat ["cabb"].

(** *** The cell that encodes the lines *)

Definition KeyError (msg : string) : exn := Exn "KeyError" msg.

Section Encoding.
Context {C : Type} `{Countable C}.
(** [ord(c)] for a character [c], and [repr(s)] for a string [s]. *)
Context (ord : C -> Z) (repr : list C -> string).

(** [a <= b] for characters: by code point. *)
Definition char_le (a b : C) : Prop := ord a <= ord b.

#[local] Instance char_le_dec : RelDecision char_le := fun a b => Z_le_dec (ord a) (ord b).

(** [sorted(l)] for a list of characters. *)
Definition sorted (l : list C) : list C := merge_sort char_le l.

(** [chars = sorted(set(text))]. *)
Definition chars_of (text : list C) : list C := sorted (elements (list_to_set text : gset C)).

(** [l.index(x)], looking from position [i] on: the position of the first
    [x]; [ValueError] when there is none. *)
Fixpoint index_from (l : list C) (x : C) (i : Z) : outcome Z :=
  match l with
  | [] => Raised (ValueError (repr [x] +:+ " is not in list"))
  | y :: l' => if decide (y = x) then Returned i else index_from l' x (i + 1)
  end.

Definition list_index (l : list C) (x : C) : outcome Z := index_from l x 0.

(** [char_indices = {char : chars.index(char) for char in chars}]. *)
Definition char_indices_of (chars : list C) : outcome (gmap C Z) :=
  Py.for_in chars
    (fun char d => outcome_bind (list_index chars char) (fun i => Returned (<[ char := i ]> d)))
    ∅.

(** [d[s]] for a string [s]; the keys of [d] are strings of one character. *)
Definition dict_getitem (d : gmap C Z) (s : list C) : outcome Z :=
  match s with
  | [c] =>
      match d !! c with
      | Some i => Returned i
      | None => Raised (KeyError (repr s))
      end
  | _ => Raised (KeyError (repr s))
  end.

(** The numpy operations of the cell: [np.zeros((a, b, c))],
    [np.zeros((a, b), dtype = np.int32)], [X[i, t, k] = v] and [y[i] = v]. *)
Inductive enc_call :=
| EncZeros3 (a b c : Z)
| EncZeros2 (a b : Z) (dtype : string)
| EncSetX (X : ndarray) (i t k : Z) (v : Z)
| EncSetY (y : ndarray) (i : Z) (v : Z).

Definition enc_answer (c : enc_call) : Type :=
  match c with
  | EncZeros3 _ _ _ => ndarray
  | EncZeros2 _ _ _ => ndarray
  | EncSetX _ _ _ _ _ => unit
  | EncSetY _ _ _ => unit
  end.

Definition enc_prog := prog enc_call enc_answer.
Definition enc_lib (c : enc_call) : enc_prog (enc_answer c) := call_lib c.

(** The cell, [text], [lines], [next_chars] and [max_len] being the
    notebook's global variables:
    [chars = sorted(set(text))]
    [char_indices = {char : chars.index(char) for char in chars}]
    [X = np.zeros((len(lines), max_len, len(chars)))]
    [y = np.zeros((len(lines), 1), dtype = np.int32)]
    [for i, line in enumerate(lines):]
    [    for t, char in enumerate(line): X[i, t, char_indices[char]] = 1]
    [    y[i] = char_indices[next_chars[i]]].
    It leaves the two arrays in [X] and [y]. *)
Definition encode_cell (text : list C) (lines next_chars : list (list C)) (max_len : Z)
  : enc_prog (ndarray * ndarray) :=
  let chars := chars_of text in
  char_indices <- lift (char_indices_of chars) ;;
  X <- enc_lib (EncZeros3 (Py.len lines) max_len (Py.len chars)) ;;
  y <- enc_lib (EncZeros2 (Py.len lines) 1 "int32") ;;
  for_each (Py.enumerate lines)
    (fun il _ =>
       for_each (Py.enumerate il.2)
         (fun tc _ =>
            k <- lift (dict_getitem char_indices [tc.2]) ;;
            enc_lib (EncSetX X il.1 tc.1 k 1))
         tt ;;;
       next_char <- lift (Py.getitem "list" next_chars il.1) ;;
       k <- lift (dict_getitem char_indices next_char) ;;
       enc_lib (EncSetY y il.1 k))
    tt ;;;
  Ret (X, y).

(** The event sets a cell that stands for a character of the lines: the
    [t]-th character of line [i] is [chars[k]] (and [t] is within the
    window), or the next character of line [i] is [chars[k]].  An exception
    of the cell's own operations is no such event. *)
Definition decodes (chars : list C) (lines next_chars : list (list C)) (max_len : Z)
    (ev : event enc_call enc_answer) : Prop :=
  match ev with
  | EvCall (EncSetX _ i t k v) _ =>
      v = 1 /\ 0 <= i /\ 0 <= t < max_len /\ 0 <= k /\
      exists line c, lines !! Z.to_nat i = Some line /\ line !! Z.to_nat t = Some c /\
                     chars !! Z.to_nat k = Some c
  | EvCall (EncSetY _ i k) _ =>
      0 <= i /\ 0 <= k /\
      exists c, next_chars !! Z.to_nat i = Some [c] /\ chars !! Z.to_nat k = Some c
  | EvCall _ _ => True
  | EvThrow _ => False
  | EvCaught _ => False
  end.

(** A numpy for examples: [X] is array 0 and [y] is array 1. *)
Definition enc_toy_library : library enc_call enc_answer unit :=
  fun c w =>
    match c return outcome (enc_answer c) * unit with
    | EncZeros3 _ _ _ => (Returned 0%nat, w)
    | EncZeros2 _ _ _ => (Returned 1%nat, w)
    | EncSetX _ _ _ _ _ => (Returned tt, w)
    | EncSetY _ _ _ => (Returned tt, w)
    end.

End Encoding.

(** Characters below 256 for examples: [ord], and [repr] as it is for
    printable characters other than the quote and the backslash. *)
Definition ascii_ord (c : ascii) : Z := Z.of_nat (nat_of_ascii c).
Definition ascii_repr (s : list ascii) : string := "'" +:+ string_of_list_ascii s +:+ "'".

End Tf5.

(* ================================================================= *)
(** ** Databases (src/lectures/sql/sql-1.ipynb) *)

Module Sql1.

(** Data frames and their columns are objects of pandas. *)
Definition frame := nat.
Definition series := nat.

(** A column label: a string, or an integer. *)
Inductive label := LStr (s : string) | LInt (n : Z).

(** The pandas operations [prepare_df] uses. *)
Inductive pd_call :=
| SetIndex (df : frame) (keys : list string)
| Stack (df : frame)
| ResetIndex (df : frame)
| Rename (df : frame) (columns : list (label * string))
| GetColumn (df : frame) (col : string)
| StrFrom (s : series) (start : Z)
| AstypeInt (s : series)
| SetColumn (df : frame) (col : string) (s : series)
| DivInt (s : series) (n : Z).

Definition pd_answer (c : pd_call) : Type :=
  match c with
  | SetColumn _ _ _ => unit
  | _ => nat
  end.

Definition pd_prog := prog pd_call pd_answer.
Definition pd_lib (c : pd_call) : pd_prog (pd_answer c) := call_lib c.

Local Open Scope prog_scope.

(** [prepare_df(df)]. *)
Definition prepare_df (df : frame) : pd_prog frame :=
  df <- pd_lib (SetIndex df ["ID"; "Year"]) ;;
  df <- pd_lib (Stack df) ;;
  df <- pd_lib (ResetIndex df) ;;
  df <- pd_lib (Rename df [(LStr "level_2", "Month"); (LInt 0, "Temp")]) ;;
  month <- pd_lib (GetColumn df "Month") ;;
  month <- pd_lib (StrFrom month 5) ;;
  month <- pd_lib (AstypeInt month) ;;
  pd_lib (SetColumn df "Month" month) ;;;
  temp <- pd_lib (GetColumn df "Temp") ;;
  temp <- pd_lib (DivInt temp 100) ;;
  pd_lib (SetColumn df "Temp" temp) ;;;
  Ret df.

End Sql1.

(* ================================================================= *)
(** ** Agent-based modeling (src/lectures/abm/abm-1.ipynb) *)

Module Abm1.

Definition coord : Type := Z * Z.

(** Schedules, grids, arrays, axes and the model object itself, as the
    libraries (mesa, numpy, matplotlib) hand them out. *)
Definition handle := nat.

(** An instance of one of the agent classes the notebook defines, with the
    attributes its [__init__] sets: the first [ToyAgent] ([name]), the second
    [ToyAgent] ([pos]), and [SchellingAgent] ([pos], [type], [homophily]).
    [unique_id] is what the class hands to [mesa.Agent.__init__]; so is
    [model], the model object a [SchellingAgent] reads as [self.model] in its
    [step] (the steps of the two [ToyAgent]s read no model). *)
Inductive agent :=
| ToyAgent1 (unique_id : Z) (name : Z)
| ToyAgent2 (unique_id : coord) (pos : coord)
| SchellingAgent (unique_id : coord) (pos : coord) (type : string) (homophily : float)
    (model : handle).

(** The values the notebook passes to a constructor. *)
Inductive pyval :=
| VInt (n : Z)
| VFloat (x : float)
| VStr (s : string)
| VCoord (p : coord)
| VModel (m : handle).

(** The operations of mesa, numpy and matplotlib (and the output stream) the
    notebook's classes and functions call. *)
Inductive abm_call :=
| AgentInit (unique_id : pyval) (model : pyval)
| StdoutWrite (s : string)
| RandomActivation (model : handle)
| ScheduleAdd (sched : handle) (a : agent)
| ScheduleAgents (sched : handle)
| ScheduleAdvance (sched : handle)
| SingleGrid (width height : Z) (torus : bool)
| CoordIter (grid : handle)
| ModelRandom (model : handle)
| PositionAgent (grid : handle) (a : agent) (pos : coord)
| NpRandomChoice (options : list string)
| NeighborIter (grid : handle) (pos : coord)
| NpMean (l : list bool)
| MoveToEmpty (grid : handle) (a : agent)
| NpArray (grid : handle)
| Shape (arr : handle)
| NpZeros (shape : list Z)
| ArrGet (arr : handle) (i j : Z)
| ArrSet (arr : handle) (i j : Z) (v : float)
| Imshow (ax : handle) (arr : handle).

Definition abm_answer (c : abm_call) : Type :=
  match c with
  | AgentInit _ _ => unit
  | StdoutWrite _ => unit
  | RandomActivation _ => handle
  | ScheduleAdd _ _ => unit
  | ScheduleAgents _ => list agent
  | ScheduleAdvance _ => unit
  | SingleGrid _ _ _ => handle
  | CoordIter _ => list (option agent * Z * Z)
  | ModelRandom _ => float
  | PositionAgent _ _ _ => unit
  | NpRandomChoice _ => string
  | NeighborIter _ _ => list agent
  | NpMean _ => float
  | MoveToEmpty _ _ => unit
  | NpArray _ => handle
  | Shape _ => list Z
  | NpZeros _ => handle
  | ArrGet _ _ _ => option agent
  | ArrSet _ _ _ _ => unit
  | Imshow _ _ => unit
  end.

Definition abm_prog := prog abm_call abm_answer.
Definition abm_lib (c : abm_call) : abm_prog (abm_answer c) := call_lib c.

Local Open Scope prog_scope.

(** [print(s)]. *)
Definition print (s : string) : abm_prog unit :=
  abm_lib (StdoutWrite s) ;;; abm_lib (StdoutWrite Py.nl).

(** [str((x, y))]. *)
Definition str_coord (p : coord) : string :=
  "(" +:+ pretty p.1 +:+ ", " +:+ pretty p.2 +:+ ")".

(** *** Calling a class *)

(** A class as the notebook's namespace holds it: the parameters of its
    [__init__] after [self], and the body of [__init__] on the values bound to
    them (in that order), which gives the new object. *)
Record class_def := ClassDef {
  init_params : list string;
  init_body : list pyval -> abm_prog agent
}.

(** The keyword arguments of a call, bound in the order they are written:
    the first one that names no parameter, or a parameter already bound,
    raises. *)
Fixpoint bind_keywords (params : list string) (bound : gmap string pyval)
    (kwargs : list (string * pyval)) : outcome (gmap string pyval) :=
  match kwargs with
  | [] => Returned bound
  | (kw, v) :: rest =>
      if bool_decide (kw ∈ params) then
        match bound !! kw with
        | Some _ =>
            Raised (TypeError ("__init__() got multiple values for argument '" +:+ kw +:+ "'"))
        | None => bind_keywords params (<[ kw := v ]> bound) rest
        end
      else Raised (TypeError ("__init__() got an unexpected keyword argument '" +:+ kw +:+ "'"))
  end.

(** The values of the parameters, in order: a parameter left unbound raises. *)
Fixpoint bound_values (params : list string) (bound : gmap string pyval) : outcome (list pyval) :=
  match params with
  | [] => Returned []
  | x :: rest =>
      match bound !! x with
      | Some v => outcome_bind (bound_values rest bound) (fun vs => Returned (v :: vs))
      | None =>
          Raised (TypeError ("__init__() missing 1 required positional argument: '" +:+ x +:+ "'"))
      end
  end.

(** The arguments of a call [C(args, kwargs)] bound to the parameters of
    [C.__init__]: positional arguments first, then the keywords, then the
    checks that no positional argument is left over and no parameter is
    missing. *)
Definition bind_arguments (params : list string) (args : list pyval)
    (kwargs : list (string * pyval)) : outcome (list pyval) :=
  let positional := list_to_map (zip params args) in
  outcome_bind (bind_keywords params positional kwargs) (fun bound =>
  if (length params <? length args)%nat then
    Raised (TypeError "__init__() takes fewer positional arguments than were given")
  else bound_values params bound).

(** The notebook's global names that are classes of agents. *)
Abbreviation namespace := (gmap string class_def).

(** [C(args, kwargs)], [C] being looked up when the call runs. *)
Definition instantiate (ns : namespace) (cls : string) (args : list pyval)
    (kwargs : list (string * pyval)) : abm_prog agent :=
  match ns !! cls with
  | None => Throw (NameError ("name '" +:+ cls +:+ "' is not defined"))
  | Some cd =>
      vals <- lift (bind_arguments (init_params cd) args kwargs) ;;
      init_body cd vals
  end.

(** *** The agent classes *)

(** Values of a type the notebook never passes for that parameter. *)
Definition ill_typed : exn := TypeError "argument of an unexpected type".

(** First cell, [ToyAgent.__init__(self, name, model)]:
    [super().__init__(name, model); self.name = name]. *)
Definition ToyAgent1_init (vals : list pyval) : abm_prog agent :=
  match vals with
  | [VInt name; VModel model] =>
      abm_lib (AgentInit (VInt name) (VModel model)) ;;;
      Ret (ToyAgent1 name name)
  | _ => Throw ill_typed
  end.

(** First cell, [ToyAgent.step(self)]. *)
Definition ToyAgent1_step (name : Z) : abm_prog unit :=
  print ("Hi, I'm Agent 00" +:+ pretty name +:+ "!").

(** Grid cell, [ToyAgent.__init__(self, pos, model)]:
    [super().__init__(pos, model); self.pos = pos]. *)
Definition ToyAgent2_init (vals : list pyval) : abm_prog agent :=
  match vals with
  | [VCoord pos; VModel model] =>
      abm_lib (AgentInit (VCoord pos) (VModel model)) ;;;
      Ret (ToyAgent2 pos pos)
  | _ => Throw ill_typed
  end.

(** Grid cell, [ToyAgent.step(self)]. *)
Definition ToyAgent2_step (pos : coord) : abm_prog unit :=
  print ("Hi, I'm an agent at " +:+ str_coord pos +:+ "!").

(** [SchellingAgent.__init__(self, pos, agent_type, homophily, model)]:
    [super().__init__(pos, model); self.pos = pos; self.type = agent_type;]
    [self.homophily = homophily]. *)
Definition SchellingAgent_init (vals : list pyval) : abm_prog agent :=
  match vals with
  | [VCoord pos; VStr agent_type; VFloat homophily; VModel model] =>
      abm_lib (AgentInit (VCoord pos) (VModel model)) ;;;
      Ret (SchellingAgent pos pos agent_type homophily model)
  | _ => Throw ill_typed
  end.

(** The classes in scope after each cell that defines some, the cells being
    run from the top: a later [class ToyAgent] rebinds the name. *)
Definition namespace_cell1 : namespace :=
  <[ "ToyAgent" := ClassDef ["name"; "model"] ToyAgent1_init ]> ∅.
Definition namespace_cell2 : namespace :=
  <[ "ToyAgent" := ClassDef ["pos"; "model"] ToyAgent2_init ]> namespace_cell1.
Definition namespace_cell3 : namespace :=
  <[ "SchellingAgent" :=
       ClassDef ["pos"; "agent_type"; "homophily"; "model"] SchellingAgent_init ]>
    namespace_cell2.

(** *** The model classes *)

(** A model object: the attributes the notebook's code sets on it, each
    absent until it is set. *)
Record model_obj := ModelObj {
  schedule : option handle;
  grid : option handle;
  moved : option Z
}.

(** [obj.name], for an attribute the object may not have yet. *)
Definition getattr {A} (cls name : string) (v : option A) : outcome A :=
  match v with
  | Some x => Returned x
  | None => Raised (AttributeError ("'" +:+ cls +:+ "' object has no attribute '" +:+ name +:+ "'"))
  end.

(** The model objects: each with the attributes the notebook's code has set
    on it.  An object on which the code has set nothing has none. *)
Abbreviation store := (gmap handle model_obj).
Definition attrs (st : store) (model : handle) : model_obj :=
  default (ModelObj None None None) (st !! model).

(** [other.type]: only a [SchellingAgent] has one. *)
Definition agent_type (a : agent) : outcome string :=
  match a with
  | SchellingAgent _ _ t _ _ => Returned t
  | _ => Raised (AttributeError "'ToyAgent' object has no attribute 'type'")
  end.

(** [SchellingAgent.step(self)], [self] being the agent with the given
    attributes, in the store [st] of model objects; [self.model] is the
    object [model], whichever model's [step] is running:
    [pct_similar_neighbors = np.mean([self.type == other.type]
    [    for other in self.model.grid.neighbor_iter(self.pos)])]
    [if pct_similar_neighbors < self.homophily:]
    [    self.model.grid.move_to_empty(self); self.model.moved += 1]. *)
Definition SchellingAgent_step (unique_id pos : coord) (type : string)
    (homophily : float) (model : handle) (st : store) : abm_prog store :=
  let self := SchellingAgent unique_id pos type homophily model in
  g <- lift (getattr "SchellingModel" "grid" (grid (attrs st model))) ;;
  neighbors <- abm_lib (NeighborIter g pos) ;;
  same <- lift (Py.for_in neighbors
                  (fun other acc =>
                     outcome_bind (agent_type other) (fun t =>
                     Returned (acc ++ [String.eqb type t])))
                  []) ;;
  pct_similar_neighbors <- abm_lib (NpMean same) ;;
  if PrimFloat.ltb pct_similar_neighbors homophily then
    g <- lift (getattr "SchellingModel" "grid" (grid (attrs st model))) ;;
    abm_lib (MoveToEmpty g self) ;;;
    n <- lift (getattr "SchellingModel" "moved" (moved (attrs st model))) ;;
    Ret (<[ model := ModelObj (schedule (attrs st model)) (grid (attrs st model))
                       (Some (n + 1)) ]> st)
  else Ret st.

(** [agent.step()], by the class of [agent]. *)
Definition agent_step (a : agent) (st : store) : abm_prog store :=
  match a with
  | ToyAgent1 _ name => ToyAgent1_step name ;;; Ret st
  | ToyAgent2 _ pos => ToyAgent2_step pos ;;; Ret st
  | SchellingAgent unique_id pos type homophily model =>
      SchellingAgent_step unique_id pos type homophily model st
  end.

(** [self.schedule.step()] of mesa's [RandomActivation], [self] being a
    model object: the scheduler picks the order ([ScheduleAgents]), calls
    [step()] on each agent in that order, then advances its clock. *)
Definition schedule_step (self : handle) (st : store) : abm_prog store :=
  sched <- lift (getattr "SchellingModel" "schedule" (schedule (attrs st self))) ;;
  agents <- abm_lib (ScheduleAgents sched) ;;
  st <- for_each agents agent_step st ;;
  abm_lib (ScheduleAdvance sched) ;;;
  Ret st.

(** First cell, [ToyModel.__init__(self, n_agents)]. *)
Definition ToyModel1_init (ns : namespace) (self : handle) (n_agents : Z) : abm_prog model_obj :=
  sched <- abm_lib (RandomActivation self) ;;
  for_each (Py.range1 n_agents)
    (fun i _ =>
       a <- instantiate ns "ToyAgent" [VInt i; VModel self] [] ;;
       abm_lib (ScheduleAdd sched a))
    tt ;;;
  Ret (ModelObj (Some sched) None None).

(** [ToyModel.step(self)] (both cells): [self.schedule.step()]. *)
Definition ToyModel_step (self : handle) (st : store) : abm_prog store :=
  schedule_step self st.

(** Grid cell, the body of the loop of [ToyModel.__init__], [cell] being what
    [coord_iter()] yields:
    [x = cell[1]; y = cell[2]]
    [if self.random.random() < density:]
    [    agent = ToyAgent(pos = (x, y), model = self)]
    [    self.schedule.add(agent); self.grid.position_agent(agent, (x, y))]. *)
Definition ToyModel2_cell (ns : namespace) (self sched g : handle) (density : float)
    (cell : option agent * Z * Z) (_ : unit) : abm_prog unit :=
  let x := cell.1.2 in
  let y := cell.2 in
  r <- abm_lib (ModelRandom self) ;;
  if PrimFloat.ltb r density then
    a <- instantiate ns "ToyAgent" [] [("pos", VCoord (x, y)); ("model", VModel self)] ;;
    abm_lib (ScheduleAdd sched a) ;;;
    abm_lib (PositionAgent g a (x, y))
  else Ret tt.

(** Grid cell, [ToyModel.__init__(self, width, height, density)]:
    [self.schedule = RandomActivation(self)]
    [self.grid = SingleGrid(width, height, torus=True)]
    [for cell in self.grid.coord_iter(): ...]. *)
Definition ToyModel2_init (ns : namespace) (self : handle) (width height : Z)
    (density : float) : abm_prog model_obj :=
  sched <- abm_lib (RandomActivation self) ;;
  g <- abm_lib (SingleGrid width height true) ;;
  cells <- abm_lib (CoordIter g) ;;
  for_each cells (ToyModel2_cell ns self sched g density) tt ;;;
  Ret (ModelObj (Some sched) (Some g) None).

(** The body of the loop of [SchellingModel.__init__]:
    [x = cell[1]; y = cell[2]]
    [if self.random.random() < density:]
    [    agent_type = np.random.choice(["triangle", "square"])]
    [    agent = ToyAgent(pos = (x, y), agent_type = agent_type,]
    [                     homophily = homophily, model = self)]
    [    self.schedule.add(agent); self.grid.position_agent(agent, (x, y))]. *)
Definition SchellingModel_cell (ns : namespace) (self sched g : handle)
    (density homophily : float) (cell : option agent * Z * Z) (_ : unit) : abm_prog unit :=
  let x := cell.1.2 in
  let y := cell.2 in
  r <- abm_lib (ModelRandom self) ;;
  if PrimFloat.ltb r density then
    agent_type <- abm_lib (NpRandomChoice ["triangle"; "square"]) ;;
    a <- instantiate ns "ToyAgent" []
           [("pos", VCoord (x, y)); ("agent_type", VStr agent_type);
            ("homophily", VFloat homophily); ("model", VModel self)] ;;
    abm_lib (ScheduleAdd sched a) ;;;
    abm_lib (PositionAgent g a (x, y))
  else Ret tt.

(** [SchellingModel.__init__(self, width, height, density, homophily)]:
    [self.schedule = RandomActivation(self)]
    [self.grid = SingleGrid(width, height, torus=True)]
    [for cell in self.grid.coord_iter(): ...]. *)
Definition SchellingModel_init (ns : namespace) (self : handle) (width height : Z)
    (density homophily : float) : abm_prog model_obj :=
  sched <- abm_lib (RandomActivation self) ;;
  g <- abm_lib (SingleGrid width height true) ;;
  cells <- abm_lib (CoordIter g) ;;
  for_each cells (SchellingModel_cell ns self sched g density homophily) tt ;;;
  Ret (ModelObj (Some sched) (Some g) None).

(** [SchellingModel.step(self)]:
    [self.moved = 0; self.schedule.step();]
    [print(f"{self.moved} agents moved in this timestep")]. *)
Definition SchellingModel_step (self : handle) (st : store) : abm_prog store :=
  let st := <[ self := ModelObj (schedule (attrs st self)) (grid (attrs st self)) (Some 0) ]> st in
  st <- schedule_step self st ;;
  n <- lift (getattr "SchellingModel" "moved" (moved (attrs st self))) ;;
  print (pretty n +:+ " agents moved in this timestep") ;;;
  Ret st.

(** [viz_state(SM, ax)]. *)
Definition viz_state (SM : model_obj) (ax : handle) : abm_prog unit :=
  g <- lift (getattr "SchellingModel" "grid" (grid SM)) ;;
  G <- abm_lib (NpArray g) ;;
  shape <- abm_lib (Shape G) ;;
  to_viz <- abm_lib (NpZeros shape) ;;
  shape <- abm_lib (Shape G) ;;
  rows <- lift (Py.getitem "tuple" shape 0) ;;
  for_each (Py.range1 rows)
    (fun i _ =>
       shape <- abm_lib (Shape G) ;;
       cols <- lift (Py.getitem "tuple" shape 1) ;;
       for_each (Py.range1 cols)
         (fun j _ =>
            cell <- abm_lib (ArrGet G i j) ;;
            match cell with
            | None => Ret tt
            | Some _ =>
                cell <- abm_lib (ArrGet G i j) ;;
                t <- lift (outcome_bind (getattr "NoneType" "type" cell) agent_type) ;;
                if String.eqb t "triangle" then abm_lib (ArrSet to_viz i j 1%float)
                else
                  cell <- abm_lib (ArrGet G i j) ;;
                  t <- lift (outcome_bind (getattr "NoneType" "type" cell) agent_type) ;;
                  if String.eqb t "square" then abm_lib (ArrSet to_viz i j 2%float)
                  else Ret tt
            end)
         tt)
    tt ;;;
  abm_lib (Imshow ax to_viz).

(** *** What a run did *)

Abbreviation abm_event := (event abm_call abm_answer).

(** The event is a call of [grid.move_to_empty]. *)
Definition is_move (ev : abm_event) : bool :=
  match ev with
  | EvCall (MoveToEmpty _ _) _ => true
  | _ => false
  end.

(** The number of relocations of a run. *)
Definition count_moves (tr : list abm_event) : Z := Py.len (List.filter is_move tr).

(** The event is a call of [grid.move_to_empty] on an agent whose
    [self.model] is [model]; the number of them in a run. *)
Definition is_move_of (model : handle) (ev : abm_event) : bool :=
  match ev with
  | EvCall (MoveToEmpty _ (SchellingAgent _ _ _ _ m)) _ => Nat.eqb m model
  | _ => false
  end.

Definition count_moves_of (model : handle) (tr : list abm_event) : Z :=
  Py.len (List.filter (is_move_of model) tr).

(** The agent is not one of another model: its [self.model], when its class
    keeps one, is [model]. *)
Definition of_model (model : handle) (a : agent) : Prop :=
  match a with
  | SchellingAgent _ _ _ _ m => m = model
  | _ => True
  end.

(** The calls of the library in a run, without the exceptions the body
    raised itself. *)
Definition library_calls (tr : list abm_event) : list abm_event :=
  List.filter (fun ev => match ev with EvCall _ _ => true | _ => false end) tr.

(** [[self.type == other.type for other in neighbors]], when every one of
    [neighbors] has a [type]. *)
Definition same_types (type : string) (neighbors : list agent) (same : list bool) : Prop :=
  Forall2 (fun other b => exists t, agent_type other = Returned t /\ b = String.eqb type t)
    neighbors same.

(** The event is [self.random.random()] answering a value below [density]. *)
Definition low_draw (density : float) (ev : abm_event) : bool :=
  match ev with
  | EvCall c r =>
      match c return outcome (abm_answer c) -> bool with
      | ModelRandom _ => fun r =>
          match r with
          | Returned x => PrimFloat.ltb x density
          | Raised _ => false
          end
      | _ => fun _ => false
      end r
  | _ => false
  end.

(** The event hands an agent object to mesa: [Agent.__init__] on a new one,
    [schedule.add], [grid.position_agent]. *)
Definition handles_agent (ev : abm_event) : bool :=
  match ev with
  | EvCall (AgentInit _ _) _ => true
  | EvCall (ScheduleAdd _ _) _ => true
  | EvCall (PositionAgent _ _ _) _ => true
  | _ => false
  end.

(** [np.random.choice] returns, whatever the state of the generator. *)
Definition choice_returns {W} (lib : library abm_call abm_answer W) : Prop :=
  forall (options : list string) (w : W),
    exists s w', lib (NpRandomChoice options) w = (Returned s, w').

(** The exception of a call that passes [agent_type] to the second
    [ToyAgent]. *)
Definition unexpected_agent_type : exn :=
  TypeError "__init__() got an unexpected keyword argument 'agent_type'".

(** Every class of the namespace has an [__init__] without handler. *)
Definition handler_free_namespace (ns : namespace) : Prop :=
  forall cls cd vals, ns !! cls = Some cd -> handler_free (init_body cd vals).

(** What a run that returned the store [st'] from [st] did to the
    attributes of each model object: its [moved] went up by the number of
    relocations of its own agents, the rest is as it was. *)
Definition counted {W : Type} (st : store) (r : outcome store * W * list abm_event)
  : Prop :=
  match r.1.1 with
  | Returned st' =>
      forall model,
        schedule (attrs st' model) = schedule (attrs st model) /\
        grid (attrs st' model) = grid (attrs st model) /\
        moved (attrs st' model)
        = (fun n => n + count_moves_of model r.2) <$> moved (attrs st model)
  | Raised _ => True
  end.

(** *** A small world to run the classes in *)

(** [np.mean] of a list of booleans: the number of [True] over the length,
    in floating point (not a number for the empty list). *)
Definition float_of_nat (n : nat) : float := PrimFloat.of_uint63 (Uint63.of_Z (Z.of_nat n)).
Definition mean_of (l : list bool) : float :=
  PrimFloat.div (float_of_nat (length (List.filter id l))) (float_of_nat (length l)).

(** A world for examples: a 1 x 2 grid; [self.random.random()] answers the
    values of [draws] in turn (and 1.0 after them); every neighbourhood is
    [neighbours]; the schedule holds [agents]; nothing raises. *)
Record toy_world := ToyWorld {
  draws : list float;
  neighbours : list agent;
  agents : list agent
}.

Definition toy_library : library abm_call abm_answer toy_world :=
  fun c w =>
    match c return outcome (abm_answer c) * toy_world with
    | AgentInit _ _ => (Returned tt, w)
    | StdoutWrite _ => (Returned tt, w)
    | RandomActivation _ => (Returned 0%nat, w)
    | ScheduleAdd _ a => (Returned tt, ToyWorld (draws w) (neighbours w) (agents w ++ [a]))
    | ScheduleAgents _ => (Returned (agents w), w)
    | ScheduleAdvance _ => (Returned tt, w)
    | SingleGrid _ _ _ => (Returned 1%nat, w)
    | CoordIter _ => (Returned [(None, 0, 0); (None, 0, 1)], w)
    | ModelRandom _ =>
        match draws w with
        | [] => (Returned 1%float, w)
        | x :: rest => (Returned x, ToyWorld rest (neighbours w) (agents w))
        end
    | PositionAgent _ _ _ => (Returned tt, w)
    | NpRandomChoice options => (Returned (List.hd "" options), w)
    | NeighborIter _ _ => (Returned (neighbours w), w)
    | NpMean l => (Returned (mean_of l), w)
    | MoveToEmpty _ _ => (Returned tt, w)
    | NpArray _ => (Returned 2%nat, w)
    | Shape _ => (Returned [1; 2], w)
    | NpZeros _ => (Returned 3%nat, w)
    | ArrGet _ _ _ => (Returned None, w)
    | ArrSet _ _ _ _ => (Returned tt, w)
    | Imshow _ _ => (Returned tt, w)
    end.

(** *** What a run scheduled, placed, printed and drew *)

(** The agents a run handed to [schedule.add], with the schedule, in order. *)
Definition scheduled (tr : list abm_event) : list (handle * agent) :=
  flat_map (fun ev => match ev with
                      | EvCall (ScheduleAdd sched a) _ => [(sched, a)]
                      | _ => []
                      end) tr.


(** What a run wrote to the standard output. *)
Definition printed (tr : list abm_event) : list string :=
  flat_map (fun ev => match ev with
                      | EvCall (StdoutWrite s) _ => [s]
                      | _ => []
                      end) tr.


(** What [agent.step()] prints, by the class of the agent. *)
Definition greeting (a : agent) : list string :=
  match a with
  | ToyAgent1 _ name => ["Hi, I'm Agent 00" +:+ pretty name +:+ "!"; Py.nl]
  | ToyAgent2 _ pos => ["Hi, I'm an agent at " +:+ str_coord pos +:+ "!"; Py.nl]
  | SchellingAgent _ _ _ _ _ => []
  end.


(** The event is one that only reads or draws: a read of the grid or of a
    shape, a new array, a cell of an array set to 1.0 or 2.0, the drawing,
    or an exception of the body itself. *)
Definition draws_only (ev : abm_event) : bool :=
  match ev with
  | EvCall (NpArray _) _ => true
  | EvCall (Shape _) _ => true
  | EvCall (NpZeros _) _ => true
  | EvCall (ArrGet _ _ _) _ => true
  | EvCall (ArrSet _ _ _ v) _ => PrimFloat.eqb v 1 || PrimFloat.eqb v 2
  | EvCall (Imshow _ _) _ => true
  | EvCall _ _ => false
  | EvThrow _ => true
  | EvCaught _ => false
  end.

(** The body of the inner loop of [viz_state], and the body of its outer
    loop. *)
Definition viz_cell (G to_viz : handle) (i j : Z) (_ : unit) : abm_prog unit :=
  cell <- abm_lib (ArrGet G i j) ;;
  match cell with
  | None => Ret tt
  | Some _ =>
      cell <- abm_lib (ArrGet G i j) ;;
      t <- lift (outcome_bind (getattr "NoneType" "type" cell) agent_type) ;;
      if String.eqb t "triangle" then abm_lib (ArrSet to_viz i j 1%float)
      else
        cell <- abm_lib (ArrGet G i j) ;;
        t <- lift (outcome_bind (getattr "NoneType" "type" cell) agent_type) ;;
        if String.eqb t "square" then abm_lib (ArrSet to_viz i j 2%float)
        else Ret tt
  end.

Definition viz_row (G to_viz : handle) (i : Z) (_ : unit) : abm_prog unit :=
  shape <- abm_lib (Shape G) ;;
  cols <- lift (Py.getitem "tuple" shape 1) ;;
  for_each (Py.range1 cols) (viz_cell G to_viz i) tt.

(** *** The promises of the scheduler *)

(** The agents the events of a run added to the schedule [sched]: those of
    the calls of [sched.add] that returned. *)
Definition added_to (sched : handle) (tr : list abm_event) : list agent :=
  flat_map (fun ev => match ev with
                      | EvCall (ScheduleAdd s a) (Returned _) =>
                          if Nat.eqb s sched then [a] else []
                      | _ => []
                      end) tr.

(** [b] is the agent object [a] as it is later: of the same class and with
    the same attributes, but for [pos], which the grid sets anew when it
    places or moves the agent. *)
Definition same_object (a b : agent) : Prop :=
  match a, b with
  | ToyAgent1 u n, ToyAgent1 u' n' => u = u' /\ n = n'
  | ToyAgent2 u _, ToyAgent2 u' _ => u = u'
  | SchellingAgent u _ t h m, SchellingAgent u' _ t' h' m' =>
      u = u' /\ t = t' /\ h = h' /\ m = m'
  | _, _ => False
  end.

(** What mesa's [RandomActivation] promises, [added w s] being the agents
    added to the schedule [s] up to the world [w], as they were when they
    were added: a call of [add] that returns appends its agent to its
    schedule, and nothing else changes the agents of a schedule; a new
    schedule has no agents; [step] activates the agents of the schedule,
    each once, in an order of its choice, and each as it is by then. *)
Record schedule_contract {W : Type} (lib : library abm_call abm_answer W)
    (added : W -> handle -> list agent) : Prop := {
  add_appends : forall c w s,
    added (lib c w).2 s = added w s ++ added_to s [EvCall c (lib c w).1];
  new_schedule_empty : forall m w s,
    (lib (RandomActivation m) w).1 = Returned s -> added w s = [];
  agents_shuffled : forall s w agents,
    (lib (ScheduleAgents s) w).1 = Returned agents ->
    exists current, Forall2 same_object (added w s) current /\ agents ≡ₚ current
}.

(** A world of schedules for examples: the schedule [s] holds the agents
    [w !! s]; a new schedule takes the next handle; [step] activates the
    agents last added first; there is one grid of 1 x 2 cells and every draw
    of [self.random.random()] is zero. *)
Definition schedules_library : library abm_call abm_answer (list (list agent)) :=
  fun c w =>
    match c return outcome (abm_answer c) * list (list agent) with
    | AgentInit _ _ => (Returned tt, w)
    | StdoutWrite _ => (Returned tt, w)
    | RandomActivation _ => (Returned (length w), w ++ [[]])
    | ScheduleAdd s a =>
        match w !! s with
        | Some _ => (Returned tt, alter (fun l => l ++ [a]) s w)
        | None => (Raised (ValueError "no such schedule"), w)
        end
    | ScheduleAgents s => (Returned (reverse (default [] (w !! s))), w)
    | ScheduleAdvance _ => (Returned tt, w)
    | SingleGrid _ _ _ => (Returned 0%nat, w)
    | CoordIter _ => (Returned [(None, 0, 0); (None, 0, 1)], w)
    | ModelRandom _ => (Returned 0%float, w)
    | PositionAgent _ _ _ => (Returned tt, w)
    | NpRandomChoice options => (Returned (List.hd "" options), w)
    | NeighborIter _ _ => (Returned [], w)
    | NpMean l => (Returned (mean_of l), w)
    | MoveToEmpty _ _ => (Returned tt, w)
    | NpArray _ => (Returned 0%nat, w)
    | Shape _ => (Returned [1; 2], w)
    | NpZeros _ => (Returned 0%nat, w)
    | ArrGet _ _ _ => (Returned None, w)
    | ArrSet _ _ _ _ => (Returned tt, w)
    | Imshow _ _ => (Returned tt, w)
    end.

(** The agents of the schedule [s] in the example world. *)
Definition schedule_agents (w : list (list agent)) (s : handle) : list agent :=
  default [] (w !! s).

(** The agent with its [pos] set by the grid, when the grid has set it. *)
Definition placed_at (ap : agent * option coord) : agent :=
  match ap with
  | (a, None) => a
  | (ToyAgent1 u n, Some _) => ToyAgent1 u n
  | (ToyAgent2 u _, Some p) => ToyAgent2 u p
  | (SchellingAgent u _ t h m, Some p) => SchellingAgent u p t h m
  end.

(** The grid puts the agent [a] at [p]: the scheduled agents with the unique
    id of [a] have their [pos] set. *)
Definition put_at (a : agent) (p : coord) (ap : agent * option coord) : agent * option coord :=
  match a, ap.1 with
  | ToyAgent2 u _, ToyAgent2 u' _ => if bool_decide (u = u') then (ap.1, Some p) else ap
  | _, _ => ap
  end.

(** A world like the one above, but with a grid that chooses the cell
    itself (mesa's chooses an empty one at random for
    [position_agent(agent, (x, y))]): this one takes the other cell of the
    column, [(x, 1 - y)], and sets the agent's [pos] to it.  A schedule holds
    each agent as it was added, and the position the grid has set since, if
    any. *)
Definition moving_library
  : library abm_call abm_answer (list (list (agent * option coord))) :=
  fun c w =>
    match c return outcome (abm_answer c) * list (list (agent * option coord)) with
    | AgentInit _ _ => (Returned tt, w)
    | StdoutWrite _ => (Returned tt, w)
    | RandomActivation _ => (Returned (length w), w ++ [[]])
    | ScheduleAdd s a =>
        match w !! s with
        | Some _ => (Returned tt, alter (fun l => l ++ [(a, None)]) s w)
        | None => (Raised (ValueError "no such schedule"), w)
        end
    | ScheduleAgents s => (Returned (reverse (map placed_at (default [] (w !! s)))), w)
    | ScheduleAdvance _ => (Returned tt, w)
    | SingleGrid _ _ _ => (Returned 0%nat, w)
    | CoordIter _ => (Returned [(None, 0, 0); (None, 0, 1)], w)
    | ModelRandom _ => (Returned 0%float, w)
    | PositionAgent _ a p => (Returned tt, map (map (put_at a (p.1, 1 - p.2))) w)
    | NpRandomChoice options => (Returned (List.hd "" options), w)
    | NeighborIter _ _ => (Returned [], w)
    | NpMean l => (Returned (mean_of l), w)
    | MoveToEmpty _ _ => (Returned tt, w)
    | NpArray _ => (Returned 0%nat, w)
    | Shape _ => (Returned [1; 2], w)
    | NpZeros _ => (Returned 0%nat, w)
    | ArrGet _ _ _ => (Returned None, w)
    | ArrSet _ _ _ _ => (Returned tt, w)
    | Imshow _ _ => (Returned tt, w)
    end.


End Abm1.

(* ================================================================= *)
(** ** The functions and methods the repository defines *)

(** The operations of a notebook that are built-ins of Python, not
    operations of a module the notebook imports: [print], and the reads and
    writes of global variables.  [threading], [os], [collections], numpy,
    keras, pandas, mesa and matplotlib are imported. *)
Definition perf_builtin (c : Perf.perf_call) : bool :=
  match c with
  | Perf.StdoutWrite _ | Perf.GlobalStore _ _ | Perf.GlobalLoad _ => true
  | _ => false
  end.

Definition abm_builtin (c : Abm1.abm_call) : bool :=
  match c with
  | Abm1.StdoutWrite _ => true
  | _ => false
  end.

(** For the notebooks whose operations all belong to imported modules. *)
Definition all_imported {call : Type} (c : call) : bool := false.

(** A function of the repository: the operations its notebook calls, which
    of them are built-ins, its arguments, and its body. *)
Record repo_function := RepoFunction {
  rf_name : string;
  rf_call : Type;
  rf_answer : rf_call -> Type;
  rf_builtin : rf_call -> bool;
  rf_args : Type;
  rf_ret : Type;
  rf_body : rf_args -> prog rf_call rf_answer rf_ret
}.

(** No operation at all. *)
Definition no_call : Type := Empty_set.
Definition no_answer (c : no_call) : Type := Empty_set.
Definition no_builtin (c : no_call) : bool := match c with end.

(** A function on built-in values only. *)
Definition builtin_function (name : string) {A B : Type} (f : A -> B) : repo_function :=
  RepoFunction name no_call no_answer no_builtin A B (fun a => Ret (f a)).

(** The same, for a function whose built-in operations may raise. *)
Definition raising_function (name : string) {A B : Type} (f : A -> outcome B) : repo_function :=
  RepoFunction name no_call no_answer no_builtin A B (fun a => lift (f a)).

(** The function calls no operation, whatever its arguments: it works on
    built-in values alone. *)
Definition library_free (f : repo_function) : Prop :=
  forall args, call_free (rf_body f args).

(** No run of the function calls an operation of an imported module. *)
Definition import_free (f : repo_function) : Prop :=
  forall (args : rf_args f) (W : Type) (lib : library (rf_call f) (rf_answer f) W) (w : W)
         (c : rf_call f) (r : outcome (rf_answer f c)),
    EvCall c r ∈ trace_of lib (rf_body f args) w -> rf_builtin f c = true.

(** Some run of the function calls an operation of an imported module. *)
Definition calls_import (f : repo_function) : Prop :=
  exists (args : rf_args f) (W : Type) (lib : library (rf_call f) (rf_answer f) W) (w : W)
         (c : rf_call f) (r : outcome (rf_answer f c)),
    EvCall c r ∈ trace_of lib (rf_body f args) w /\ rf_builtin f c = false.

(** The functions that work on built-in values only, and the methods that
    do nothing but print. *)
Definition builtin_names : list string :=
  ["all_pairs"; "count_list"; "count_list2"; "count_list3"; "reverse1"; "reverse2"; "split"].
Definition printing_names : list string :=
  ["ToyAgent.step (cell 1)"; "ToyAgent.step (cell 2)"].

(** The body starts with a call of an operation of an imported module. *)
Definition starts_with_import {call : Type} {answer : call -> Type} {A : Type}
    (builtin : call -> bool) (p : prog call answer A) : bool :=
  match p with
  | Call c _ => negb (builtin c)
  | _ => false
  end.

(** A world in which every operation raises. *)
Definition failing_library {call : Type} {answer : call -> Type} : library call answer unit :=
  fun c w => (Raised (Exn "Exception" ""), w).

Section Repository.
Context (K : Type) `{Countable K}.

(** Every [def] of the four notebooks, in the order of the cells; a model's
    constructor runs with the classes its notebook has defined by then.
    List elements, characters and [raw_text] are values of any hashable type
    [K]. *)
Definition repository : list repo_function := [
  builtin_function "all_pairs" (@Perf.all_pairs K);
  builtin_function "count_list" (@Perf.count_list K _ _);
  builtin_function "count_list2" (@Perf.count_list2 K _ _);
  builtin_function "count_list3" (@Perf.count_list3 K _ _);
  RepoFunction "count_list4" _ _ all_imported _ _ (@Perf.count_list4 K _ _);
  raising_function "reverse1" Perf.reverse1;
  builtin_function "reverse2" Perf.reverse2;
  RepoFunction "task1" _ _ perf_builtin unit _ (fun _ => Perf.task1);
  RepoFunction "task2" _ _ perf_builtin unit _ (fun _ => Perf.task2);
  raising_function "split"
    (fun a : list K * K * Z * Z => Tf5.split a.1.1.1 a.1.1.2 a.1.2 a.2);
  RepoFunction "sample" _ _ all_imported _ _ (fun a : Tf5.ndarray * float => Tf5.sample a.1 a.2);
  RepoFunction "generate_string" _ _ all_imported _ _
    (fun a : Tf5.tf_globals * Z * float * Z * Tf5.keras_model =>
       Tf5.generate_string a.1.1.1.1 a.1.1.1.2 a.1.1.2 a.1.2 a.2);
  RepoFunction "prepare_df" _ _ all_imported _ _ Sql1.prepare_df;
  RepoFunction "ToyAgent.__init__ (cell 1)" _ _ abm_builtin _ _ Abm1.ToyAgent1_init;
  RepoFunction "ToyAgent.step (cell 1)" _ _ abm_builtin _ _ Abm1.ToyAgent1_step;
  RepoFunction "ToyModel.__init__ (cell 1)" _ _ abm_builtin _ _
    (fun a : Abm1.handle * Z => Abm1.ToyModel1_init Abm1.namespace_cell1 a.1 a.2);
  RepoFunction "ToyModel.step (cell 1)" _ _ abm_builtin _ _
    (fun a : Abm1.handle * Abm1.store => Abm1.ToyModel_step a.1 a.2);
  RepoFunction "ToyAgent.__init__ (cell 2)" _ _ abm_builtin _ _ Abm1.ToyAgent2_init;
  RepoFunction "ToyAgent.step (cell 2)" _ _ abm_builtin _ _ Abm1.ToyAgent2_step;
  RepoFunction "ToyModel.__init__ (cell 2)" _ _ abm_builtin _ _
    (fun a : Abm1.handle * Z * Z * float =>
       Abm1.ToyModel2_init Abm1.namespace_cell2 a.1.1.1 a.1.1.2 a.1.2 a.2);
  RepoFunction "ToyModel.step (cell 2)" _ _ abm_builtin _ _
    (fun a : Abm1.handle * Abm1.store => Abm1.ToyModel_step a.1 a.2);
  RepoFunction "SchellingAgent.__init__" _ _ abm_builtin _ _ Abm1.SchellingAgent_init;
  RepoFunction "SchellingAgent.step" _ _ abm_builtin _ _
    (fun a : Abm1.coord * Abm1.coord * string * float * Abm1.handle * Abm1.store =>
       Abm1.SchellingAgent_step a.1.1.1.1.1 a.1.1.1.1.2 a.1.1.1.2 a.1.1.2 a.1.2 a.2);
  RepoFunction "SchellingModel.__init__" _ _ abm_builtin _ _
    (fun a : Abm1.handle * Z * Z * float * float =>
       Abm1.SchellingModel_init Abm1.namespace_cell3 a.1.1.1.1 a.1.1.1.2 a.1.1.2 a.1.2 a.2);
  RepoFunction "SchellingModel.step" _ _ abm_builtin _ _
    (fun a : Abm1.handle * Abm1.store => Abm1.SchellingModel_step a.1 a.2);
  RepoFunction "viz_state" _ _ abm_builtin _ _
    (fun a : Abm1.model_obj * Abm1.handle => Abm1.viz_state a.1 a.2)
].

End Repository.

(* ================================================================= *)
(** * Properties *)

(** ** Programs over library calls *)

Section ProgFacts.
Context {call : Type} {answer : call -> Type}.

Lemma handler_free_bind {A B} (p : prog call answer A) (f : A -> prog call answer B) :
  handler_free p -> (forall a, handler_free (f a)) -> handler_free (bind p f).
Proof.
  intros Hp Hf. induction Hp; simpl; auto using handler_free.
Qed.

Lemma handler_free_lift {A} (o : outcome A) : handler_free (@lift call answer A o).
Proof. destruct o; constructor. Qed.

Lemma handler_free_call_lib (c : call) : handler_free (@call_lib call answer c).
Proof. constructor. intros x. constructor. Qed.

Lemma handler_free_for_each {X S} (xs : list X) (body : X -> S -> prog call answer S) (s : S) :
  (forall x s', handler_free (body x s')) -> handler_free (for_each xs body s).
Proof.
  intros Hb. revert s. induction xs as [|x xs IH]; intros s; simpl.
  - constructor.
  - apply handler_free_bind; auto.
Qed.

Section RunFacts.
Context {W : Type} (lib : library call answer W).

Lemma run_bind {A B} (p : prog call answer A) (f : A -> prog call answer B) (w : W) :
  handler_free p ->
  run lib (bind p f) w =
    match run lib p w with
    | (Returned a, w1, tr1) =>
        match run lib (f a) w1 with
        | (o, w2, tr2) => (o, w2, tr1 ++ tr2)
        end
    | (Raised e, w1, tr1) => (Raised e, w1, tr1)
    end.
Proof.
  intros Hp. revert w. induction Hp as [A a|A e|A c k Hk IH]; intros w; simpl.
  - destruct (run lib (f a) w) as [[o w2] tr2]. reflexivity.
  - reflexivity.
  - destruct (lib c w) as [[x|e] w'].
    + rewrite IH. destruct (run lib (k x) w') as [[[a|e] w1] tr1].
      * destruct (run lib (f a) w1) as [[o w2] tr2]. reflexivity.
      * reflexivity.
    + reflexivity.
Qed.

Lemma handler_free_propagated {A} (p : prog call answer A) (w : W) :
  handler_free p -> propagated (result_of lib p w) (trace_of lib p w).
Proof.
  intros Hp. revert w. unfold result_of, trace_of.
  induction Hp as [A a|A e|A c k Hk IH]; intros w ev e0 Hin Hr; simpl in *.
  - inversion Hin.
  - apply list_elem_of_singleton in Hin. subst ev. simpl in Hr. congruence.
  - destruct (lib c w) as [[x|e] w'] eqn:Hl.
    + specialize (IH x w' ev e0).
      destruct (run lib (k x) w') as [[o w2] tr]. simpl in *.
      apply elem_of_cons in Hin as [->|Hin]; [discriminate|]. auto.
    + simpl in *. apply list_elem_of_singleton in Hin. subst ev. simpl in Hr. congruence.
Qed.

(** What a [try] statement does to an exception: with a handler, the
    exception a call raised need not be the outcome. *)
Example handler_swallows (c : call) (w : W) (e : exn) (w' : W) :
  lib c w = (Raised e, w') ->
  result_of lib (TryExcept (Call c (fun x => Ret (Some x))) (fun _ => Ret None) Ret) w
    = Returned None.
Proof.
  intros Hl. unfold result_of. simpl. rewrite Hl. reflexivity.
Qed.

Lemma run_for_each {X S} (x : X) (xs : list X) (body : X -> S -> prog call answer S)
    (s : S) (w : W) :
  handler_free (body x s) ->
  run lib (for_each (x :: xs) body s) w =
    match run lib (body x s) w with
    | (Returned s', w1, tr1) =>
        match run lib (for_each xs body s') w1 with
        | (o, w2, tr2) => (o, w2, tr1 ++ tr2)
        end
    | (Raised e, w1, tr1) => (Raised e, w1, tr1)
    end.
Proof. intros Hb. simpl. apply run_bind. exact Hb. Qed.

(** A loop whose turns cause only events with [P] causes only such events. *)
Lemma for_each_trace {X S} (P : event call answer -> Prop) (xs : list X)
    (body : X -> S -> prog call answer S) (s : S) (w : W) :
  (forall x s', handler_free (body x s')) ->
  (forall x s' w', x ∈ xs -> Forall P (trace_of lib (body x s') w')) ->
  Forall P (trace_of lib (for_each xs body s) w).
Proof.
  intros Hhf Hb. revert s w. unfold trace_of in *.
  induction xs as [|x xs IH]; intros s w; [constructor|].
  rewrite run_for_each by apply Hhf.
  pose proof (Hb x s w ltac:(left)) as Hx.
  destruct (run lib (body x s) w) as [[[s1|e] w1] tr1]; cbn [snd] in *; [|exact Hx].
  assert (IH' : Forall P (run lib (for_each xs body s1) w1).2).
  { apply IH. intros x' s' w' Hin. apply Hb. right. exact Hin. }
  destruct (run lib (for_each xs body s1) w1) as [[o w2] tr2]. cbn [snd] in *.
  apply Forall_app. auto.
Qed.

Lemma trace_bind {A B} (P : event call answer -> Prop) (p : prog call answer A)
    (f : A -> prog call answer B) (w : W) :
  handler_free p ->
  Forall P (trace_of lib p w) ->
  (forall a w', Forall P (trace_of lib (f a) w')) ->
  Forall P (trace_of lib (bind p f) w).
Proof.
  intros Hp H1 H2. unfold trace_of in *. rewrite run_bind by exact Hp.
  destruct (run lib p w) as [[[a|e] w1] tr1]; cbn [snd] in *; [|exact H1].
  specialize (H2 a w1). destruct (run lib (f a) w1) as [[o w2] tr2]. cbn [snd] in *.
  apply Forall_app. auto.
Qed.

End RunFacts.
End ProgFacts.

(* ================================================================= *)
(** ** The performance notebook *)

Module PerfFacts.
Import Perf.

(** *** Counting *)

Section CountingFacts.
Context `{Countable K}.
Implicit Types (L : list K) (k : K) (out : gmap K nat).

Lemma list_count_cons L a k :
  list_count (a :: L) k = ((if decide (a = k) then 1 else 0) + list_count L k)%nat.
Proof.
  unfold list_count. rewrite filter_cons.
  destruct (decide (a = k)); simpl; reflexivity.
Qed.

Lemma list_count_zero L k : list_count L k = 0%nat <-> k ∉ L.
Proof.
  induction L as [|a L IH].
  - split; [intros _; apply not_elem_of_nil | reflexivity].
  - rewrite list_count_cons, not_elem_of_cons.
    destruct (decide (a = k)) as [->|Hne]; simpl.
    + split; [discriminate | intros [Hk _]; congruence].
    + rewrite IH. split; [intros Hk; split; [congruence | exact Hk] | intros [_ Hk]; exact Hk].
Qed.

(** The loop of [count_list] and [count_list2], over any list of keys. *)
Lemma update_loop_lookup (f : K -> nat) (l : list K) out k :
  fold_left (fun out i => dict_update out {[ i := f i ]}) l out !! k =
    if decide (k ∈ l) then Some (f k) else out !! k.
Proof.
  revert out. induction l as [|a l IH]; intros out; cbn [fold_left].
  - rewrite decide_False by apply not_elem_of_nil. reflexivity.
  - rewrite IH. unfold dict_update.
    destruct (decide (k ∈ l)) as [Hin|Hnin].
    + rewrite decide_True by (apply elem_of_cons; auto). reflexivity.
    + destruct (decide (a = k)) as [->|Hne].
      * rewrite decide_True by (apply elem_of_cons; auto).
        rewrite lookup_union_l', lookup_singleton_eq; [reflexivity|].
        rewrite lookup_singleton_eq. eauto.
      * rewrite decide_False by (rewrite elem_of_cons; intros [->|?]; congruence).
        rewrite lookup_union_r; [reflexivity|]. apply lookup_singleton_ne. exact Hne.
Qed.

(** The loop of [count_list3] (and of CPython's [Counter]). *)
Lemma increment_loop_lookup (l : list K) out k :
  fold_left (fun out i => <[ i := (dict_get out i 0 + 1)%nat ]> out) l out !! k =
    if decide (k ∈ l) then Some (default 0%nat (out !! k) + list_count l k)%nat
    else out !! k.
Proof.
  revert out. induction l as [|a l IH]; intros out; cbn [fold_left].
  - rewrite decide_False by apply not_elem_of_nil. reflexivity.
  - rewrite IH, list_count_cons. unfold dict_get.
    destruct (decide (k ∈ l)) as [Hin|Hnin].
    + rewrite decide_True by (apply elem_of_cons; auto).
      destruct (decide (a = k)) as [->|Hne].
      * rewrite lookup_insert_eq. simpl. f_equal; lia.
      * rewrite lookup_insert_ne by exact Hne. reflexivity.
    + destruct (decide (a = k)) as [->|Hne].
      * rewrite decide_True by (apply elem_of_cons; auto).
        rewrite lookup_insert_eq. apply list_count_zero in Hnin. rewrite Hnin.
        simpl. f_equal; lia.
      * rewrite decide_False by (rewrite elem_of_cons; intros [->|?]; congruence).
        rewrite lookup_insert_ne by exact Hne. reflexivity.
Qed.

Lemma count_list_lookup L k :
  count_list L !! k = if decide (k ∈ L) then Some (list_count L k) else None.
Proof. unfold count_list. rewrite update_loop_lookup, lookup_empty. reflexivity. Qed.

Lemma count_list2_lookup L k :
  count_list2 L !! k = if decide (k ∈ L) then Some (list_count L k) else None.
Proof.
  unfold count_list2, set_iter, py_set.
  rewrite update_loop_lookup, lookup_empty.
  destruct (decide (k ∈ L)) as [Hin|Hnin].
  - rewrite decide_True; [reflexivity|]. apply elem_of_elements, elem_of_list_to_set. exact Hin.
  - rewrite decide_False; [reflexivity|]. rewrite elem_of_elements, elem_of_list_to_set. exact Hnin.
Qed.

Lemma count_list3_lookup L k :
  count_list3 L !! k = if decide (k ∈ L) then Some (list_count L k) else None.
Proof. unfold count_list3. rewrite increment_loop_lookup, lookup_empty. reflexivity. Qed.

Lemma cpython_Counter_contract : Counter_contract (cpython_collections (K:=K)).
Proof.
  intros L w. eexists. split; [reflexivity|]. intros k.
  etrans; [apply (increment_loop_lookup L ∅ k)|].
  rewrite lookup_empty. reflexivity.
Qed.

(** C4.  For every list [L] of hashable values, [count_list(L)],
    [count_list2(L)], [count_list3(L)] and [count_list4(L)] return equal
    dictionaries: each maps every element of [L] to the number of its
    occurrences in [L] and has no other key.  [Counter] is any implementation
    that keeps the contract of [collections.Counter]. *)
Theorem count_lists_agree {W} (lib : library collections_call collections_answer W)
    (w : W) L :
  Counter_contract lib ->
  count_list2 L = count_list L /\
  count_list3 L = count_list L /\
  result_of lib (count_list4 L) w = Returned (count_list L) /\
  forall k, count_list L !! k = if decide (k ∈ L) then Some (list_count L k) else None.
Proof.
  intros HC. repeat split.
  - apply map_eq. intros k. rewrite count_list2_lookup, count_list_lookup. reflexivity.
  - apply map_eq. intros k. rewrite count_list3_lookup, count_list_lookup. reflexivity.
  - destruct (HC L w) as (m & Hm & Hk).
    unfold result_of, count_list4. simpl.
    destruct (lib (Counter L) w) as [o w'] eqn:Hl. simpl in Hm. subst o. simpl.
    f_equal. unfold dict. apply map_eq. intros k. rewrite Hk, count_list_lookup. reflexivity.
  - apply count_list_lookup.
Qed.

End CountingFacts.

(** C4 at the list [3, 1, 3], with CPython's [Counter]. *)
Lemma count_lists_agree_witness :
  Counter_contract (cpython_collections (K:=Z)) /\
  count_list2 [3; 1; 3]%Z = count_list [3; 1; 3]%Z /\
  count_list3 [3; 1; 3]%Z = count_list [3; 1; 3]%Z /\
  result_of cpython_collections (count_list4 [3; 1; 3]%Z) tt
    = Returned (count_list [3; 1; 3]%Z) /\
  count_list [3; 1; 3]%Z !! 3%Z = Some 2%nat.
Proof.
  pose proof (count_lists_agree cpython_collections tt [3; 1; 3]%Z cpython_Counter_contract)
    as (H2 & H3 & H4 & Hk).
  split; [exact cpython_Counter_contract|].
  split; [exact H2|]. split; [exact H3|]. split; [exact H4|].
  rewrite Hk. reflexivity.
Defined.

(** *** Pairs and reversed words *)

Lemma all_pairs_product {A} (x : list A) : all_pairs x = list_prod x x.
Proof.
  unfold all_pairs.
  assert (Hl : forall l : list A, flat_map (fun i => map (fun j => (i, j)) x) l = list_prod l x).
  { induction l as [|a l IH]; [reflexivity|]. simpl. rewrite IH. reflexivity. }
  apply Hl.
Qed.

(** [all_pairs(x)] yields as many pairs as the square of the length of [x],
    and a pair is yielded exactly when both its components are in [x]. *)
Theorem all_pairs_yields {A} (x : list A) :
  length (all_pairs x) = (length x * length x)%nat /\
  forall i j, In (i, j) (all_pairs x) <-> In i x /\ In j x.
Proof.
  rewrite all_pairs_product. split; [apply length_prod|].
  intros i j. apply in_prod_iff.
Qed.

Lemma string_app_cons (ch : ascii) (a b : string) : String ch a +:+ b = String ch (a +:+ b).
Proof. reflexivity. Qed.

Lemma string_app_assoc (a b c : string) : (a +:+ b) +:+ c = a +:+ (b +:+ c).
Proof.
  induction a as [|ch a IH]; [reflexivity|]. rewrite !string_app_cons, IH. reflexivity.
Qed.

Lemma string_app_nil_r (a : string) : a +:+ "" = a.
Proof.
  induction a as [|ch a IH]; [reflexivity|]. rewrite string_app_cons, IH. reflexivity.
Qed.

(** [l[-a-1]] is the [a]-th element from the end. *)
Lemma getitem_from_end {A} (what : string) (l : list A) (a : nat) (x : A) :
  rev l !! a = Some x -> Py.getitem what l (- Z.of_nat a - 1) = Returned x.
Proof.
  intros Hx. rewrite rev_alt in Hx.
  apply reverse_lookup_Some in Hx as [Hx Ha].
  unfold Py.getitem, Py.len.
  replace (- Z.of_nat a - 1 <? 0) with true by (symmetry; apply Z.ltb_lt; lia).
  replace (0 <=? - Z.of_nat a - 1 + Z.of_nat (length l)) with true
    by (symmetry; apply Z.leb_le; lia).
  replace (- Z.of_nat a - 1 + Z.of_nat (length l) <? Z.of_nat (length l)) with true
    by (symmetry; apply Z.ltb_lt; lia).
  simpl.
  replace (Z.to_nat (- Z.of_nat a - 1 + Z.of_nat (length l))) with (length l - S a)%nat by lia.
  rewrite Hx. reflexivity.
Qed.

(** The loop of [reverse1], from its [a]-th turn on: [rest] is what is left
    of the words, last word first. *)
Lemma reverse1_loop (words rest : list string) (a : nat) (out : string) :
  drop a (rev words) = rest ->
  Py.for_in (map Z.of_nat (seq a (length rest)))
    (fun i out =>
       outcome_bind (Py.getitem "list" words (- i - 1)) (fun w =>
       let out := out +:+ w in
       Returned (if i <? Py.len words - 1 then out +:+ " " else out)))
    out
  = Returned (out +:+ Py.join " " rest).
Proof.
  revert a out. induction rest as [|w rest IH]; intros a out Hd.
  - simpl. rewrite string_app_nil_r. reflexivity.
  - assert (Hw : rev words !! a = Some w).
    { rewrite <- (Nat.add_0_r a), <- lookup_drop, Hd. reflexivity. }
    assert (Hr : drop (S a) (rev words) = rest).
    { rewrite (drop_S _ _ _ Hw) in Hd. injection Hd as Hd. exact Hd. }
    assert (Hlen : (length words = a + S (length rest))%nat).
    { rewrite <- (length_rev words), <- (take_drop a (rev words)), length_app, Hd.
      rewrite length_take. simpl.
      assert (a < length (rev words))%nat by (eapply lookup_lt_Some; eauto). lia. }
    cbn [length seq map Py.for_in].
    rewrite (getitem_from_end "list" words a w Hw). cbn [outcome_bind].
    rewrite (IH (S a) _ Hr). f_equal.
    unfold Py.len, Py.join. rewrite Hlen.
    destruct rest as [|w' rest]; cbn [length].
    + destruct (Z.ltb_spec (Z.of_nat a) (Z.of_nat (a + 1) - 1)); [lia|].
      cbn [String.concat]. rewrite string_app_nil_r. reflexivity.
    + destruct (Z.ltb_spec (Z.of_nat a) (Z.of_nat (a + S (S (length rest))) - 1)); [|lia].
      change (String.concat " " (w :: w' :: rest))
        with (w +:+ " " +:+ String.concat " " (w' :: rest)).
      rewrite !string_app_assoc. reflexivity.
Qed.

(** [reverse1] never raises, and returns what [reverse2] returns: the words
    of [s], last word first, with one space between two words. *)
Lemma reverse1_reverses (s : string) : reverse1 s = Returned (reverse2 s).
Proof.
  unfold reverse1, reverse2, Py.range1.
  replace (Z.to_nat (Py.len (Py.split s))) with (length (rev (Py.split s)))
    by (unfold Py.len; rewrite Nat2Z.id, length_rev; reflexivity).
  etrans; [apply (reverse1_loop (Py.split s) (rev (Py.split s)) 0 "" eq_refl)|].
  reflexivity.
Qed.

(** *** The two tasks *)

(** Case analysis on what the library answers. *)
Ltac answer_calls lib :=
  repeat (simpl;
          match goal with
          | |- context [lib ?c ?w] => destruct (lib c w) as [[?|?] ?]
          end);
  simpl.

Lemma task_trace_prints {W} (lib : library perf_call perf_answer W) (w : W) (tg : thread_target) :
  forallb prints_or_asks (trace_of lib (target_body tg) w) = true.
Proof.
  unfold trace_of.
  destruct tg; unfold target_body, task1, task2, print, print_empty, perf_lib, call_lib;
    answer_calls lib; reflexivity.
Qed.

Lemma task1_alone (a : actor) (s : shared) :
  world_after (alone a) task1 s =
    Shared (threads s) (globals s)
      (stdout s ++ [format_str "Task 1 assigned to thread: " (actor_name a s); Py.nl;
                    format_int "ID of process running task 1: " (pid s); Py.nl;
                    "To boldly go"; Py.nl; Py.nl])
      (pid s) (joined s).
Proof.
  unfold world_after. simpl. repeat rewrite <- app_assoc. reflexivity.
Qed.

Lemma task2_alone (a : actor) (s : shared) :
  world_after (alone a) task2 s =
    Shared (threads s) (globals s)
      (stdout s ++ [format_str "Task 2 assigned to thread: " (actor_name a s); Py.nl;
                    format_int "ID of process running task 2: " (pid s); Py.nl;
                    "Where no one has gone before"; Py.nl; Py.nl])
      (pid s) (joined s).
Proof.
  unfold world_after. simpl. repeat rewrite <- app_assoc. reflexivity.
Qed.

Lemma written_app (a : actor) (p : perf_prog unit) (s : shared) out :
  stdout (world_after (alone a) p s) = stdout s ++ out -> written a p s = out.
Proof.
  intros Hs. unfold written. rewrite Hs. apply drop_app_length.
Qed.

(** C6.  The two worker tasks share no mutable state.  Whatever the
    environment answers, a task only writes to the standard output and asks
    for the thread's name and the process id: it reads and assigns no global
    variable and touches no thread.  Run by any thread in any state of the
    process, it leaves the threads, the global variables, the process id and
    the joined threads as they were, and only appends to the standard
    output. *)
Theorem tasks_only_print (tg : thread_target) :
  (forall W (lib : library perf_call perf_answer W) (w : W),
     forallb prints_or_asks (trace_of lib (target_body tg) w) = true) /\
  (forall (a : actor) (s : shared),
     threads (world_after (alone a) (target_body tg) s) = threads s /\
     globals (world_after (alone a) (target_body tg) s) = globals s /\
     pid (world_after (alone a) (target_body tg) s) = pid s /\
     joined (world_after (alone a) (target_body tg) s) = joined s /\
     stdout (world_after (alone a) (target_body tg) s)
       = stdout s ++ written a (target_body tg) s).
Proof.
  split.
  - intros W lib w. apply task_trace_prints.
  - intros a s. destruct tg; simpl target_body.
    + erewrite (written_app a task1 s) by (rewrite task1_alone; reflexivity).
      rewrite task1_alone. simpl. auto.
    + erewrite (written_app a task2 s) by (rewrite task2_alone; reflexivity).
      rewrite task2_alone. simpl. auto.
Qed.

(** C8, as the code has it.  What a task prints is fixed by the name of
    the thread that runs it and the process id: two lines that show them,
    then the task's fixed message and an empty line.  Two runs by threads
    of the same name in processes of the same id print the same text. *)
Theorem task_output (a : actor) (s : shared) :
  written a task1 s =
    [format_str "Task 1 assigned to thread: " (actor_name a s); Py.nl;
     format_int "ID of process running task 1: " (pid s); Py.nl;
     "To boldly go"; Py.nl; Py.nl] /\
  written a task2 s =
    [format_str "Task 2 assigned to thread: " (actor_name a s); Py.nl;
     format_int "ID of process running task 2: " (pid s); Py.nl;
     "Where no one has gone before"; Py.nl; Py.nl].
Proof.
  split; apply written_app; [rewrite task1_alone | rewrite task2_alone]; reflexivity.
Qed.

(** C8, as stated, fails: in one process, [task1] run by the thread named
    THREAD 1 and by the thread named THREAD 2 prints different text; and so
    does [task1] run by the main thread of process 1 and of process 2. *)
Lemma task_output_varies :
  (exists s : shared,
     threads s = [Thread target_task1 "THREAD 1" NotStarted;
                  Thread target_task2 "THREAD 2" NotStarted] /\
     written (Some 0%nat) task1 s <> written (Some 1%nat) task1 s) /\
  (exists s1 s2 : shared,
     pid s1 = 1 /\ pid s2 = 2 /\
     written None task1 s1 <> written None task1 s2 /\
     written None task2 s1 <> written None task2 s2).
Proof.
  split.
  - exists (Shared [Thread target_task1 "THREAD 1" NotStarted;
                    Thread target_task2 "THREAD 2" NotStarted] ∅ [] 6724 []).
    split; [reflexivity|]. vm_compute. intros Heq. discriminate Heq.
  - exists (Shared [] ∅ [] 1 []), (Shared [] ∅ [] 2 []).
    split; [reflexivity|]. split; [reflexivity|].
    split; vm_compute; intros Heq; discriminate Heq.
Qed.

(** *** The driver cell and its threads *)

Lemma quiet_task (tg : thread_target) : quiet (target_body tg).
Proof.
  destruct tg; unfold target_body, task1, task2, print, print_empty, perf_lib, call_lib; simpl;
    repeat (first [apply quiet_Ret | apply quiet_Call; [reflexivity | intros ?]]).
Qed.

Lemma quiet_expose (p : perf_prog unit) c k :
  quiet p -> expose p = HCall c k -> print_or_ask c = true /\ forall x, quiet (k x).
Proof.
  intros Hq He.
  assert (Hh : match expose p with
               | HCall c0 k0 => print_or_ask c0 = true /\ forall x, quiet (k0 x)
               | _ => True
               end) by (destruct Hq; simpl; auto).
  rewrite He in Hh. exact Hh.
Qed.

(** A quiet operation returns, and only the standard output may change. *)
Lemma quiet_exec (t : thread_id) c s r s' :
  print_or_ask c = true -> exec (Some t) c s = Some (r, s') ->
  (exists x, r = Returned x) /\ threads s' = threads s /\ globals s' = globals s /\
  pid s' = pid s /\ joined s' = joined s /\ exists out, stdout s' = stdout s ++ out.
Proof.
  intros Hc He. destruct c; try discriminate Hc; simpl in He; inversion He; subst; simpl;
    repeat split; eauto;
    first [eexists; reflexivity | exists []; rewrite app_nil_r; reflexivity].
Qed.

Lemma main_at_S pid0 n : main_at pid0 (S n) = next pid0 (main_at pid0 n).
Proof. reflexivity. Qed.

Lemma at_point_initial pid0 out0 : at_point pid0 0 (initial pid0 out0).
Proof.
  unfold at_point, initial; simpl. repeat split; try reflexivity. lia.
Qed.

(** Case analysis on a number of operations between 0 and 19. *)
Tactic Notation "each_point" ident(n) :=
  do 20 (try (destruct n as [|n])); [..| exfalso; lia].

Ltac use_threads_at :=
  match goal with
  | H : threads_at _ _ |- _ =>
      unfold threads_at in H; simpl in H;
      first [ destruct H as (?st0 & ?st1 & ? & ?Hst0 & ?Hst1);
              unfold status_at in Hst0, Hst1; simpl in Hst0, Hst1
            | idtac ]
  end.

Ltac split_started :=
  repeat match goal with
         | H : started _ |- _ => destruct H as [?|(?p & ? & ?Hq)]
         end.

Ltac show_status :=
  unfold status_at; simpl;
  first [ reflexivity
        | assumption
        | left; reflexivity
        | right; eexists; split;
          [reflexivity | first [assumption | apply (quiet_task target_task1)
                                           | apply (quiet_task target_task2) | auto]] ].

Ltac show_threads_at :=
  unfold threads_at; simpl;
  first [ reflexivity
        | eexists _, _; split; [reflexivity | split; show_status] ].

(** An operation of the main program leads from point [n] to point [n + 1]. *)
Lemma main_step_at_point pid0 n main s c k r s' :
  at_point pid0 n (main, s) ->
  expose main = HCall c k ->
  exec None c s = Some (r, s') ->
  at_point pid0 (S n) (resume k r, s').
Proof.
  intros (Hn & Hm & Hp & Hg & Hj & Ht) He Hx. simpl in *. subst main.
  destruct s as [ths gl out pd jn]. simpl in *. subst pd gl jn.
  assert (Hc : head_call (expose (main_at pid0 n)) = Some c) by (rewrite He; reflexivity).
  each_point n; cbn in Hc; try discriminate Hc; injection Hc as <-;
    use_threads_at; subst; split_started; subst; simpl in Hx;
    try discriminate Hx; injection Hx as <- <-;
    (split; [lia|]); cbn [fst snd resume];
    (split; [rewrite main_at_S; unfold next; rewrite He; reflexivity|]);
    (split; [reflexivity|]); (split; [reflexivity|]); (split; [reflexivity|]);
    show_threads_at.
Qed.

(** A thread that runs is a started thread of the two, its body is quiet, and
    it may go on or end without a change to the point. *)
Lemma running_thread_at n ths t th p :
  (n <= 19)%nat ->
  threads_at n ths ->
  ths !! t = Some th ->
  th_state th = Running p ->
  quiet p /\
  forall st', started st' ->
    threads_at n (alter (fun th => Thread (th_target th) (th_name th) st') t ths).
Proof.
  intros Hn Ht Hth Hst.
  each_point n; use_threads_at; subst ths.
  all: destruct t as [|[|t]]; simpl in Hth; try discriminate Hth.
  all: injection Hth as <-.
  all: simpl in Hst; try discriminate Hst.
  all: subst; try discriminate.
  all: split_started; try discriminate.
  all: repeat match goal with
              | H : Running _ = Running _ |- _ => injection H as ->
              end.
  all: subst.
  all: split; [assumption|]; intros st' Hs'; unfold threads_at; simpl.
  all: eexists _, _; (split; [reflexivity|]); split; unfold status_at; simpl.
  all: first [assumption | reflexivity | left; reflexivity
             | right; eexists; split; [reflexivity | assumption]].
Qed.

Lemma thread_step_at_point pid0 n main s t th p c k r s' :
  at_point pid0 n (main, s) ->
  threads s !! t = Some th ->
  th_state th = Running p ->
  expose p = HCall c k ->
  exec (Some t) c s = Some (r, s') ->
  at_point pid0 n (main, set_state t (Running (resume k r)) s').
Proof.
  intros (Hn & Hm & Hp & Hg & Hj & Ht) Hth Hst He Hx. simpl in *.
  destruct (running_thread_at n _ t th p Hn Ht Hth Hst) as [Hq Hset].
  destruct (quiet_expose p c k Hq He) as [Hc Hk].
  destruct (quiet_exec t c s r s' Hc Hx) as ((x & ->) & Hths & Hgl & Hpid & Hjn & _).
  unfold at_point, set_state; simpl. rewrite Hpid, Hgl, Hjn, Hths.
  repeat split; try assumption.
  apply Hset. right. eexists. split; [reflexivity|]. apply Hk.
Qed.

Lemma thread_exit_at_point pid0 n main s t th p :
  at_point pid0 n (main, s) ->
  threads s !! t = Some th ->
  th_state th = Running p ->
  at_point pid0 n (main, set_state t Finished s).
Proof.
  intros (Hn & Hm & Hp & Hg & Hj & Ht) Hth Hst. simpl in *.
  destruct (running_thread_at n _ t th p Hn Ht Hth Hst) as [Hq Hset].
  unfold at_point, set_state; simpl.
  repeat split; try assumption.
  apply Hset. left. reflexivity.
Qed.

Lemma step_at_point pid0 n sy sy' :
  at_point pid0 n sy -> step sy sy' -> at_point pid0 n sy' \/ at_point pid0 (S n) sy'.
Proof.
  intros Hat Hs. destruct Hs.
  - right. eapply main_step_at_point; eauto.
  - left. eapply thread_step_at_point; eauto.
  - left. eapply thread_exit_at_point; eauto.
Qed.

(** Every state of the process is at some point of the driver cell. *)
Lemma reachable_at_point pid0 out0 sy :
  rtc step (initial pid0 out0) sy -> exists n, at_point pid0 n sy.
Proof.
  intros Hr.
  apply (rtc_ind_r (R:=step) (fun sy => exists n, at_point pid0 n sy) (initial pid0 out0));
    [| |exact Hr].
  - exists 0%nat. apply at_point_initial.
  - intros y z _ Hs [n Hat]. destruct (step_at_point _ _ _ _ Hat Hs); eauto.
Qed.

(** The main program has ended exactly at point 19, after [t2.join()]. *)
Lemma main_ended_at_point pid0 n sy :
  at_point pid0 n sy -> (main_ended sy <-> n = 19%nat).
Proof.
  intros (Hn & Hm & _). unfold main_ended. rewrite Hm. split.
  - intros He.
    assert (Hc : head_call (expose (main_at pid0 n)) = None) by (rewrite He; reflexivity).
    clear He Hm. each_point n; cbn in Hc; try discriminate Hc. reflexivity.
  - intros ->. reflexivity.
Qed.

Lemma step_of_sound a sy sy' : step_of a sy = Some sy' -> step sy sy'.
Proof.
  destruct sy as [main s]. unfold step_of. destruct a as [t|].
  - destruct (threads s !! t) as [[tg nm [|p|]]|] eqn:Hth; try discriminate.
    destruct (expose p) as [u|e|c k] eqn:He.
    + intros [= <-]. eapply step_exit; eauto. intros c k Hc. rewrite He in Hc. discriminate.
    + intros [= <-]. eapply step_exit; eauto. intros c k Hc. rewrite He in Hc. discriminate.
    + destruct (exec (Some t) c s) as [[r s']|] eqn:Hx; [|discriminate].
      intros [= <-]. eapply step_thread; eauto.
  - destruct (expose main) as [u|e|c k] eqn:He; try discriminate.
    destruct (exec None c s) as [[r s']|] eqn:Hx; [|discriminate].
    intros [= <-]. eapply step_main; eauto.
Qed.

Lemma run_schedule_sound sched sy sy' : run_schedule sched sy = Some sy' -> rtc step sy sy'.
Proof.
  revert sy. induction sched as [|a sched IH]; intros sy; simpl.
  - intros [= <-]. apply rtc_refl.
  - destruct (step_of a sy) as [sy1|] eqn:Hs; [|discriminate].
    intros Hr. eapply rtc_l; [eapply step_of_sound; exact Hs | apply IH; exact Hr].
Qed.

(** C7.  Every spawned thread is joined before the program ends.  In every
    state the notebook's process can reach from the start of the driver cell,
    under any interleaving of the main program and the threads: the main
    program has ended exactly when [t1.join()] and then [t2.join()] have
    returned (they are the last operations of the cell), and then the threads
    that exist are the two spawned ones, and both have finished. *)
Theorem threads_joined_before_end pid0 out0 sy :
  rtc step (initial pid0 out0) sy ->
  (main_ended sy <-> joined sy.2 = [0; 1]%nat) /\
  (main_ended sy ->
   map th_name (threads sy.2) = ["THREAD 1"; "THREAD 2"] /\
   map th_state (threads sy.2) = [Finished; Finished]).
Proof.
  intros Hr. destruct (reachable_at_point _ _ _ Hr) as [n Hat].
  pose proof (main_ended_at_point _ _ _ Hat) as Hend.
  destruct Hat as (Hn & _ & _ & _ & Hj & Ht).
  split; [rewrite Hend, Hj; split|].
  - intros ->. reflexivity.
  - clear Ht Hend. each_point n; cbn; intros Hjn; try discriminate Hjn; reflexivity.
  - intros He. apply Hend in He. subst n.
    use_threads_at. subst.
    match goal with H : threads _ = _ |- _ => rewrite H end.
    simpl. auto.
Qed.

(** C7 on one run of the driver cell in process 6724: the threads one after
    the other. *)
Lemma threads_joined_before_end_witness :
  exists sy,
    run_schedule one_after_the_other (initial 6724 []) = Some sy /\
    main_ended sy /\
    joined sy.2 = [0; 1]%nat /\
    map th_state (threads sy.2) = [Finished; Finished].
Proof.
  destruct (run_schedule one_after_the_other (initial 6724 [])) as [sy|] eqn:Hrun;
    [|vm_compute in Hrun; discriminate Hrun].
  exists sy. split; [reflexivity|].
  assert (He : main_ended sy).
  { unfold main_ended. vm_compute in Hrun. injection Hrun as <-. reflexivity. }
  split; [exact He|].
  destruct (threads_joined_before_end 6724 [] sy (run_schedule_sound _ _ _ Hrun))
    as (Hj & Hs).
  split; [apply Hj; exact He | apply Hs; exact He].
Defined.

(** *** Counts as a whole *)

Section CensusFacts.
Context `{Countable K}.
Implicit Types (L : list K) (k : K) (out : gmap K nat).

Lemma values_sum_insert_new out k v :
  out !! k = None -> values_sum (<[ k := v ]> out) = (v + values_sum out)%nat.
Proof.
  intros Hk. unfold values_sum.
  rewrite map_fold_insert_L; [reflexivity| |exact Hk].
  intros. lia.
Qed.

Lemma values_sum_insert out k v :
  (values_sum (<[ k := v ]> out) + default 0%nat (out !! k) = v + values_sum out)%nat.
Proof.
  destruct (out !! k) as [v0|] eqn:Hk; simpl.
  - rewrite <- (insert_delete_eq out k v).
    rewrite <- (insert_delete_id out k v0 Hk) at 2.
    rewrite !values_sum_insert_new by apply lookup_delete_eq. lia.
  - rewrite values_sum_insert_new by exact Hk. lia.
Qed.

Lemma increment_loop_sum (l : list K) out :
  values_sum (fold_left (fun out i => <[ i := (dict_get out i 0 + 1)%nat ]> out) l out)
  = (values_sum out + length l)%nat.
Proof.
  revert out. induction l as [|a l IH]; intros out; cbn [fold_left length].
  - lia.
  - rewrite IH. unfold dict_get.
    pose proof (values_sum_insert out a (default 0%nat (out !! a) + 1)%nat). lia.
Qed.

Lemma count_list_is_count_list3 L : count_list L = count_list3 L.
Proof. apply map_eq. intros k. rewrite count_list_lookup, count_list3_lookup. reflexivity. Qed.

Lemma count_list2_is_count_list3 L : count_list2 L = count_list3 L.
Proof. apply map_eq. intros k. rewrite count_list2_lookup, count_list3_lookup. reflexivity. Qed.

Lemma list_count_le L k : (list_count L k <= length L)%nat.
Proof. unfold list_count. apply length_filter. Qed.

Lemma list_count_pos L k : k ∈ L -> (1 <= list_count L k)%nat.
Proof.
  intros Hk. destruct (list_count L k) eqn:Hc; [|lia].
  apply list_count_zero in Hc. contradiction.
Qed.

Lemma list_count_app L1 L2 k :
  list_count (L1 ++ L2) k = (list_count L1 k + list_count L2 k)%nat.
Proof. unfold list_count. rewrite filter_app, length_app. reflexivity. Qed.

Lemma count_list_census_of L : census L (count_list L).
Proof.
  split; [|split].
  - apply set_eq. intros k. rewrite elem_of_dom, count_list_lookup. unfold py_set.
    rewrite elem_of_list_to_set.
    destruct (decide (k ∈ L)); split; intros Hk; eauto; try contradiction.
    destruct Hk as [? Hk]. discriminate.
  - intros k v. rewrite count_list_lookup. destruct (decide (k ∈ L)) as [Hk|]; [|discriminate].
    intros [= <-]. split; [apply list_count_pos; exact Hk | apply list_count_le].
  - rewrite count_list_is_count_list3. unfold count_list3.
    rewrite increment_loop_sum. reflexivity.
Qed.

Lemma count_list_merge L1 L2 :
  count_list (L1 ++ L2) = dict_merge (count_list L1) (count_list L2).
Proof.
  apply map_eq. intros k. unfold dict_merge.
  rewrite lookup_union_with, !count_list_lookup, list_count_app.
  destruct (decide (k ∈ L1)) as [H1|H1], (decide (k ∈ L2)) as [H2|H2]; simpl.
  - rewrite decide_True by (apply elem_of_app; auto). reflexivity.
  - rewrite decide_True by (apply elem_of_app; auto).
    apply list_count_zero in H2. rewrite H2. f_equal. lia.
  - rewrite decide_True by (apply elem_of_app; auto).
    apply list_count_zero in H1. rewrite H1. reflexivity.
  - rewrite decide_False; [reflexivity|]. rewrite elem_of_app. tauto.
Qed.

Lemma count_list_permutation L1 L2 : L1 ≡ₚ L2 -> count_list L1 = count_list L2.
Proof.
  intros HP. apply map_eq. intros k. rewrite !count_list_lookup.
  assert (Hc : list_count L1 k = list_count L2 k).
  { unfold list_count. apply Permutation_length. rewrite HP. reflexivity. }
  rewrite Hc.
  destruct (decide (k ∈ L1)) as [H1|H1], (decide (k ∈ L2)) as [H2|H2]; try reflexivity.
  - rewrite HP in H1. contradiction.
  - rewrite <- HP in H2. contradiction.
Qed.

(** Each of the three hand-written functions returns a census of its list:
    the keys are exactly the elements of the list, every count is at least
    1 and at most the length of the list, and the counts add up to the
    length of the list. *)
Theorem count_list_census L :
  census L (count_list L) /\ census L (count_list2 L) /\ census L (count_list3 L).
Proof.
  rewrite count_list2_is_count_list3, <- count_list_is_count_list3.
  split; [|split]; apply count_list_census_of.
Qed.

(** Counting a concatenation is merging the counts of its two parts: each
    key gets the sum of its counts in the two dictionaries. *)
Theorem count_list_concat L1 L2 :
  count_list (L1 ++ L2) = dict_merge (count_list L1) (count_list L2) /\
  count_list2 (L1 ++ L2) = dict_merge (count_list2 L1) (count_list2 L2) /\
  count_list3 (L1 ++ L2) = dict_merge (count_list3 L1) (count_list3 L2).
Proof.
  rewrite !count_list2_is_count_list3, <- !count_list_is_count_list3.
  split; [|split]; apply count_list_merge.
Qed.

(** The order of the list does not matter: two lists with the same elements,
    each as many times, give equal dictionaries. *)
Theorem count_list_order L1 L2 :
  L1 ≡ₚ L2 ->
  count_list L1 = count_list L2 /\
  count_list2 L1 = count_list2 L2 /\
  count_list3 L1 = count_list3 L2.
Proof.
  intros HP. rewrite !count_list2_is_count_list3, <- !count_list_is_count_list3.
  split; [|split]; apply count_list_permutation, HP.
Qed.

End CensusFacts.

(** [count_list_order] on the lists [3, 1, 3] and [1, 3, 3]. *)
Lemma count_list_order_witness :
  count_list [3; 1; 3]%Z = count_list [1; 3; 3]%Z /\
  count_list2 [3; 1; 3]%Z = count_list2 [1; 3; 3]%Z /\
  count_list3 [3; 1; 3]%Z = count_list3 [1; 3; 3]%Z.
Proof. apply (count_list_order [3; 1; 3]%Z [1; 3; 3]%Z). apply perm_swap. Defined.

(** *** Reversing twice, and strings without words *)

Lemma list_ascii_of_string_app (a b : string) :
  list_ascii_of_string (a +:+ b) = list_ascii_of_string a ++ list_ascii_of_string b.
Proof.
  induction a as [|ch a IH]; [reflexivity|].
  rewrite string_app_cons. cbn [list_ascii_of_string app]. rewrite IH. reflexivity.
Qed.

Lemma concat_chars (sep : string) (ws : list (list ascii)) :
  list_ascii_of_string (Py.join sep (map string_of_list_ascii ws))
  = Py.join_chars (list_ascii_of_string sep) ws.
Proof.
  unfold Py.join. induction ws as [|w [|w' ws] IH].
  - reflexivity.
  - cbn. apply list_ascii_of_string_of_list_ascii.
  - change (String.concat sep (map string_of_list_ascii (w :: w' :: ws)))
      with (string_of_list_ascii w +:+ sep +:+ String.concat sep (map string_of_list_ascii (w' :: ws))).
    rewrite !list_ascii_of_string_app, IH, list_ascii_of_string_of_list_ascii. reflexivity.
Qed.

Lemma split_go_word (w cs cur : list ascii) :
  Forall (fun c => Py.isspace c = false) w ->
  Py.split_go (w ++ cs) cur = Py.split_go cs (rev w ++ cur).
Proof.
  intros Hw. revert cur. induction Hw as [|c w Hc _ IH]; intros cur; [reflexivity|].
  cbn [app Py.split_go rev]. rewrite Hc, IH, <- app_assoc. reflexivity.
Qed.

Lemma split_go_join (ws : list (list ascii)) :
  Forall Py.is_word ws -> Py.split_go (Py.join_chars [" "%char] ws) [] = ws.
Proof.
  induction ws as [|w [|w' ws] IH]; intros Hws.
  - reflexivity.
  - apply Forall_cons in Hws as [[Hne Hw] _]. cbn [Py.join_chars].
    rewrite <- (app_nil_r w) at 1. rewrite split_go_word by exact Hw.
    rewrite app_nil_r. cbn [Py.split_go].
    destruct (rev w) as [|c r] eqn:Hr.
    + apply (f_equal (@rev ascii)) in Hr. rewrite rev_involutive in Hr. contradiction.
    + rewrite <- Hr, rev_involutive. reflexivity.
  - apply Forall_cons in Hws as [[Hne Hw] Hrest]. cbn [Py.join_chars].
    rewrite split_go_word by exact Hw. rewrite app_nil_r.
    cbn [app Py.split_go]. change (Py.isspace " "%char) with true. cbv iota.
    destruct (rev w) as [|c r] eqn:Hr.
    + apply (f_equal (@rev ascii)) in Hr. rewrite rev_involutive in Hr. contradiction.
    + rewrite <- Hr, rev_involutive. f_equal. apply IH. exact Hrest.
Qed.

Lemma split_go_words (cs cur : list ascii) :
  Forall (fun c => Py.isspace c = false) cur ->
  Forall Py.is_word (Py.split_go cs cur).
Proof.
  revert cur. induction cs as [|c cs IH]; intros cur Hcur; cbn [Py.split_go].
  - destruct cur as [|c0 cur]; constructor; [|constructor].
    split.
    + intros Hr. apply (f_equal (@length ascii)) in Hr. rewrite length_rev in Hr. discriminate.
    + apply List.Forall_rev. exact Hcur.
  - destruct (Py.isspace c) eqn:Hc.
    + destruct cur as [|c0 cur]; [apply IH; constructor|].
      constructor; [|apply IH; constructor].
      split.
      * intros Hr. apply (f_equal (@length ascii)) in Hr. rewrite length_rev in Hr. discriminate.
      * apply List.Forall_rev. exact Hcur.
    + apply IH. constructor; assumption.
Qed.

Lemma split_go_nil (cs cur : list ascii) :
  Py.split_go cs cur = [] <-> cur = [] /\ forallb Py.isspace cs = true.
Proof.
  revert cur. induction cs as [|c cs IH]; intros cur; cbn [Py.split_go forallb].
  - destruct cur; split; [auto | intros [_ _]; reflexivity | discriminate | intros [? _]; discriminate].
  - destruct (Py.isspace c) eqn:Hc; cbn [andb].
    + destruct cur as [|c0 cur].
      * apply IH.
      * split; [discriminate | intros [? _]; discriminate].
    + rewrite IH. split; [intros [? _]; discriminate | intros [_ ?]; discriminate].
Qed.

Lemma split_join_words (ws : list (list ascii)) :
  Forall Py.is_word ws ->
  Py.split (Py.join " " (map string_of_list_ascii ws)) = map string_of_list_ascii ws.
Proof.
  intros Hws. unfold Py.split. rewrite concat_chars.
  change (list_ascii_of_string " ") with [" "%char].
  rewrite split_go_join by exact Hws. reflexivity.
Qed.

Lemma split_reverse2 (s : string) : Py.split (reverse2 s) = rev (Py.split s).
Proof.
  unfold reverse2, Py.split at 2 3.
  rewrite <- map_rev. apply split_join_words.
  apply List.Forall_rev, split_go_words. constructor.
Qed.

(** For every string [s] of characters below 256: reversing the words twice
    gives the words back in their first order, with one space between two
    words.  The words of [reverse2(s)] are the words of [s], last word first,
    and [reverse1] and [reverse2] applied twice both return
    [" ".join(s.split())]. *)
Theorem reverse_twice (s : string) :
  Py.split (reverse2 s) = rev (Py.split s) /\
  reverse2 (reverse2 s) = Py.join " " (Py.split s) /\
  outcome_bind (reverse1 s) reverse1 = Returned (Py.join " " (Py.split s)).
Proof.
  assert (H2 : reverse2 (reverse2 s) = Py.join " " (Py.split s)).
  { unfold reverse2 at 1. rewrite split_reverse2, rev_involutive. reflexivity. }
  split; [apply split_reverse2|]. split; [exact H2|].
  rewrite reverse1_reverses. cbn [outcome_bind]. rewrite reverse1_reverses, H2. reflexivity.
Qed.

Lemma join_empty (ws : list (list ascii)) :
  Forall Py.is_word ws -> Py.join " " (map string_of_list_ascii ws) = "" -> ws = [].
Proof.
  intros Hws Hj. apply (f_equal list_ascii_of_string) in Hj. rewrite concat_chars in Hj.
  destruct ws as [|w [|w' ws]]; [reflexivity| |]; cbn in Hj;
    apply Forall_cons in Hws as [[Hne _] _].
  - contradiction.
  - destruct w; [contradiction|discriminate].
Qed.

(** Among the strings of characters below 256, [reverse1] and [reverse2]
    return the empty string exactly for those that hold nothing but
    whitespace (the empty string among them). *)
Theorem reverse_blank (s : string) :
  (reverse2 s = "" <-> forallb Py.isspace (list_ascii_of_string s) = true) /\
  (reverse1 s = Returned "" <-> forallb Py.isspace (list_ascii_of_string s) = true).
Proof.
  assert (H2 : reverse2 s = "" <-> forallb Py.isspace (list_ascii_of_string s) = true).
  { unfold reverse2, Py.split. rewrite <- map_rev. split.
    - intros Hj. apply join_empty in Hj.
      + apply (f_equal (@rev _)) in Hj. rewrite rev_involutive in Hj.
        apply split_go_nil in Hj. apply Hj.
      + apply List.Forall_rev, split_go_words. constructor.
    - intros Hs. assert (Hn : Py.split_go (list_ascii_of_string s) [] = [])
        by (apply split_go_nil; auto).
      rewrite Hn. reflexivity. }
  split; [exact H2|]. rewrite reverse1_reverses, <- H2.
  split; [intros [= ->]; reflexivity | intros ->; reflexivity].
Qed.

(** *** The driver cell: no failure, no deadlock, and what it writes *)


Lemma interleaved_app_l {A} (x : A) l1 l2 l :
  interleaved l1 l2 l -> interleaved (l1 ++ [x]) l2 (l ++ [x]).
Proof.
  induction 1; simpl.
  - apply interleaved_l, interleaved_nil.
  - apply interleaved_l. assumption.
  - apply interleaved_r. assumption.
Qed.

Lemma interleaved_app_r {A} (x : A) l1 l2 l :
  interleaved l1 l2 l -> interleaved l1 (l2 ++ [x]) (l ++ [x]).
Proof.
  induction 1; simpl.
  - apply interleaved_r, interleaved_nil.
  - apply interleaved_l. assumption.
  - apply interleaved_r. assumption.
Qed.

Lemma interleaved_nil_inv {A} (l : list A) : interleaved [] [] l -> l = [].
Proof. inversion 1. reflexivity. Qed.

Lemma main_at_after pid0 n : main_at pid0 n = after (main_answer pid0) driver n.
Proof. induction n as [|n IH]; [reflexivity|]. simpl. rewrite IH. reflexivity. Qed.

(** The main program writes before it makes the first thread object. *)
Lemma main_writes_early pid0 n x :
  (n <= 19)%nat -> head_call (expose (main_at pid0 n)) = Some (StdoutWrite x) -> (n < 8)%nat.
Proof.
  intros Hn Hc. each_point n; cbn in Hc; try discriminate Hc; lia.
Qed.

Lemma exec_none a c s :
  exec a c s = None ->
  exists t tg nm p, c = ThreadJoin t /\ threads s !! t = Some (Thread tg nm (Running p)).
Proof.
  destruct c; simpl; try discriminate.
  - destruct (threads s !! t) as [[tg nm [|p|]]|]; try discriminate.
  - destruct (decide (a = Some t)); [discriminate|].
    destruct (threads s !! t) as [[tg nm [|p|]]|] eqn:Hth; try discriminate.
    intros _. exists t, tg, nm, p. split; [reflexivity|exact Hth].
  - destruct (globals s !! x); discriminate.
Qed.

Lemma quiet_head (p : perf_prog unit) :
  quiet p ->
  expose p = HRet tt \/ exists c k, expose p = HCall c k /\ print_or_ask c = true.
Proof.
  destruct 1 as [[]|c k Hc Hk]; [left; reflexivity|right; eauto].
Qed.

Lemma quiet_exec_some (t : thread_id) c s :
  print_or_ask c = true -> exists r s', exec (Some t) c s = Some (r, s').
Proof. destruct c; try discriminate; simpl; eauto. Qed.

(** The driver cell never fails and never deadlocks.  In every state the
    notebook's process can reach, under any interleaving: neither the main
    program nor a thread is about to raise (no thread is started twice, none
    is joined before it is started, no global name is read before it is
    assigned), and either the main program has ended or some step is
    possible (a [join()] that blocks waits for a thread that can run). *)
Theorem driver_never_stuck pid0 out0 sy :
  rtc step (initial pid0 out0) sy ->
  (forall e, expose sy.1 <> HThrow e) /\
  (forall t th p e, threads sy.2 !! t = Some th -> th_state th = Running p -> expose p <> HThrow e) /\
  (main_ended sy \/ exists sy', step sy sy').
Proof.
  intros Hr. destruct (reachable_at_point _ _ _ Hr) as [n Hat].
  pose proof (main_ended_at_point _ _ _ Hat) as Hend.
  destruct sy as [main s]. destruct Hat as (Hn & Hm & Hp & Hg & Hj & Ht). cbn [fst snd] in *.
  assert (Hhead : expose main = HRet tt \/ exists c k, expose main = HCall c k).
  { assert (Hm' : match expose main with HThrow _ => False | _ => True end).
    { subst main. clear -Hn. each_point n; exact I. }
    destruct (expose main) as [[]|e|c k]; [left; reflexivity|contradiction|right; eauto]. }
  split; [|split].
  - intros e He. destruct Hhead as [Hh|(c & k & Hh)]; rewrite Hh in He; discriminate.
  - intros t th p e Hth Hst He.
    destruct (running_thread_at n _ t th p Hn Ht Hth Hst) as [Hq _].
    destruct (quiet_head p Hq) as [Hh|(c & k & Hh & _)]; rewrite Hh in He; discriminate.
  - destruct Hhead as [Hh|(c & k & Hh)]; [left; exact Hh|right].
    destruct (exec None c s) as [[r s']|] eqn:Hx.
    + eexists. eapply step_main; eauto.
    + destruct (exec_none _ _ _ Hx) as (t & tg & nm & p & -> & Hth).
      destruct (running_thread_at n _ t _ p Hn Ht Hth eq_refl) as [Hq _].
      destruct (quiet_head p Hq) as [Hh'|(c & k' & Hh' & Hc)].
      * eexists. eapply step_exit; [exact Hth|reflexivity|].
        intros c k' Hc. rewrite Hh' in Hc. discriminate.
      * destruct (quiet_exec_some t c s Hc) as (r & s' & Hx').
        eexists. eapply step_thread; [exact Hth|reflexivity|exact Hh'|exact Hx'].
Qed.


(** [driver_never_stuck] on the state where the main program waits in
    [t1.join()] for a thread that has not run yet. *)
Lemma driver_never_stuck_witness :
  exists sy,
    run_schedule (replicate 16 None) (initial 6724 []) = Some sy /\
    (main_ended sy \/ exists sy', step sy sy').
Proof.
  destruct (run_schedule (replicate 16 None) (initial 6724 [])) as [sy|] eqn:Hrun;
    [|vm_compute in Hrun; discriminate Hrun].
  exists sy. split; [reflexivity|].
  apply (driver_never_stuck 6724 [] sy (run_schedule_sound _ _ _ Hrun)).
Defined.

Lemma head_write_call (p : perf_prog unit) c k :
  expose p = HCall c k ->
  head_write p = match c with StdoutWrite x => [x] | _ => [] end.
Proof. intros He. unfold head_write. rewrite He. reflexivity. Qed.

Lemma advance_call ans (p : perf_prog unit) c k :
  expose p = HCall c k -> advance ans p = k (ans c).
Proof. intros He. unfold advance. rewrite He. reflexivity. Qed.

Lemma after_done ans (p : perf_prog unit) (k j : nat) :
  expose (after ans p k) = HRet tt ->
  after ans p (k + j) = after ans p k /\ chunks ans p (k + j) = chunks ans p k.
Proof.
  intros He. induction j as [|j [IH1 IH2]].
  - rewrite Nat.add_0_r. auto.
  - rewrite Nat.add_succ_r. cbn [after chunks]. rewrite IH1, IH2. split.
    + unfold advance. rewrite He. reflexivity.
    + unfold head_write. rewrite He. apply app_nil_r.
Qed.

(** A task that has run to its end has written all its chunks. *)
Lemma task_done (tg : thread_target) nm pid0 k :
  expose (after (thread_answer nm pid0) (target_body tg) k) = HRet tt ->
  chunks (thread_answer nm pid0) (target_body tg) k
  = chunks (thread_answer nm pid0) (target_body tg) 9.
Proof.
  intros He. destruct (le_lt_dec 9 k) as [Hk|Hk].
  - replace k with (9 + (k - 9))%nat by lia.
    apply after_done. destruct tg; reflexivity.
  - exfalso.
    assert (Hc : head_call (expose (after (thread_answer nm pid0) (target_body tg) k)) = None)
      by (rewrite He; reflexivity).
    clear He. do 9 (try (destruct k as [|k])); [..|lia]; destruct tg; cbn in Hc; discriminate Hc.
Qed.

Lemma threads_at_names n (ths : list thread) (t : nat) th :
  threads_at n ths -> ths !! t = Some th ->
  (t = 0%nat /\ th_target th = target_task1 /\ th_name th = "THREAD 1") \/
  (t = 1%nat /\ th_target th = target_task2 /\ th_name th = "THREAD 2").
Proof.
  unfold threads_at. destruct (n <? 8)%nat; [intros ->; discriminate|].
  destruct (n <? 10)%nat.
  - intros ->. destruct t as [|t]; [intros [= <-]; left; auto|discriminate].
  - intros (st0 & st1 & -> & _). destruct t as [|[|t]]; [| |discriminate].
    + intros [= <-]. left. auto.
    + intros [= <-]. right. auto.
Qed.

Lemma threads_at_early n ths : (n < 8)%nat -> threads_at n ths -> ths = [].
Proof.
  intros Hn. unfold threads_at. destruct (Nat.ltb_spec n 8); [auto|lia].
Qed.

Lemma progress_at_new body ans (ths : list thread) th k (i : nat) :
  th_state th = NotStarted ->
  progress_at body ans (ths !! i) k -> progress_at body ans ((ths ++ [th]) !! i) k.
Proof.
  intros Hst. unfold progress_at.
  destruct (ths !! i) as [th0|] eqn:Hl.
  - rewrite (lookup_app_l_Some _ _ _ _ Hl). auto.
  - cbn [fmap option_fmap option_map]. intros ->.
    destruct ((ths ++ [th]) !! i) as [th1|] eqn:Hl1; [|reflexivity].
    apply lookup_app_Some in Hl1 as [Hl1|[_ Hl1]]; [congruence|].
    apply list_lookup_singleton_Some in Hl1 as [_ <-]. cbn. rewrite Hst. reflexivity.
Qed.

Lemma progress_at_other body ans (ths : list thread) st (t : nat) k (i : nat) :
  i <> t ->
  progress_at body ans (ths !! i) k ->
  progress_at body ans (alter (fun th => Thread (th_target th) (th_name th) st) t ths !! i) k.
Proof. intros Hne. rewrite list_lookup_alter_ne by congruence. auto. Qed.

Lemma progress_at_set body ans (ths : list thread) st (t : nat) k :
  is_Some (ths !! t) ->
  match st with
  | NotStarted => k = 0%nat
  | Running p => p = after ans body k
  | Finished => expose (after ans body k) = HRet tt
  end ->
  progress_at body ans (alter (fun th => Thread (th_target th) (th_name th) st) t ths !! t) k.
Proof.
  intros [th Hth] Hst. unfold progress_at. rewrite list_lookup_alter_eq, Hth. exact Hst.
Qed.

Lemma progress_at_some body ans (o : option thread) th k :
  o = Some th ->
  progress_at body ans o k ->
  match th_state th with
  | NotStarted => k = 0%nat
  | Running p => p = after ans body k
  | Finished => expose (after ans body k) = HRet tt
  end.
Proof. intros ->. auto. Qed.

Lemma main_step_output pid0 out0 n main s c k r s' :
  at_point pid0 n (main, s) ->
  output_at pid0 out0 n s ->
  expose main = HCall c k ->
  exec None c s = Some (r, s') ->
  output_at pid0 out0 (S n) s'.
Proof.
  intros (Hn & Hm & Hpid & Hg & Hj & Ht) (k1 & k2 & w & Hout & Hint & Hp1 & Hp2) He Hx.
  cbn [fst snd] in *.
  assert (Hch : chunks (main_answer pid0) driver (S n)
                = chunks (main_answer pid0) driver n
                    ++ match c with StdoutWrite x => [x] | _ => [] end).
  { cbn [chunks]. rewrite <- main_at_after, <- Hm, (head_write_call main c k He). reflexivity. }
  unfold output_at. rewrite Hch. clear Hch.
  destruct c; simpl in Hx.
  - injection Hx as <- <-. cbn [stdout threads].
    assert (Hearly : (n < 8)%nat).
    { apply (main_writes_early pid0 n s0 Hn). rewrite <- Hm, He. reflexivity. }
    apply (threads_at_early _ _ Hearly) in Ht. rewrite Ht in *.
    unfold progress_at in Hp1, Hp2. cbn in Hp1, Hp2. subst k1 k2.
    apply interleaved_nil_inv in Hint. subst w.
    exists 0%nat, 0%nat, []. rewrite Hout, !app_nil_r, <- !app_assoc.
    repeat split; [apply interleaved_nil].
  - injection Hx as <- <-. exists k1, k2, w. rewrite app_nil_r. auto.
  - injection Hx as <- <-. exists k1, k2, w. rewrite app_nil_r. auto.
  - injection Hx as <- <-. exists k1, k2, w. rewrite app_nil_r. cbn [stdout threads].
    repeat split; [exact Hout|exact Hint| |]; apply progress_at_new; auto.
  - destruct (threads s !! t) as [[tg nm st]|] eqn:Hth.
    2:{ injection Hx as <- <-. exists k1, k2, w. rewrite app_nil_r. auto. }
    destruct st; injection Hx as <- <-; exists k1, k2, w; rewrite app_nil_r; auto.
    unfold set_state. cbn [stdout threads].
    destruct (threads_at_names _ _ _ _ Ht Hth) as [(-> & Htg & _)|(-> & Htg & _)];
      cbn in Htg; subst tg.
    + repeat split; [exact Hout|exact Hint| |].
      * apply progress_at_set; [eauto|].
        pose proof (progress_at_some _ _ _ _ _ Hth Hp1) as Hk. cbn in Hk. subst k1. reflexivity.
      * apply progress_at_other; [lia|exact Hp2].
    + repeat split; [exact Hout|exact Hint| |].
      * apply progress_at_other; [lia|exact Hp1].
      * apply progress_at_set; [eauto|].
        pose proof (progress_at_some _ _ _ _ _ Hth Hp2) as Hk. cbn in Hk. subst k2. reflexivity.
  - destruct (threads s !! t) as [[tg nm st]|] eqn:Hth.
    2:{ injection Hx as <- <-. exists k1, k2, w. rewrite app_nil_r. auto. }
    destruct st; try discriminate Hx; injection Hx as <- <-; exists k1, k2, w;
      rewrite app_nil_r; auto.
  - injection Hx as <- <-. exists k1, k2, w. rewrite app_nil_r. auto.
  - destruct (globals s !! x); injection Hx as <- <-; exists k1, k2, w; rewrite app_nil_r; auto.
Qed.

(** What a quiet operation of thread [t] does: it is answered as the thread
    expects, and the standard output grows by what the operation writes. *)
Lemma quiet_exec_answer (t : thread_id) th c s r s' pid0 :
  print_or_ask c = true ->
  threads s !! t = Some th ->
  pid s = pid0 ->
  exec (Some t) c s = Some (r, s') ->
  r = Returned (thread_answer (th_name th) pid0 c) /\
  threads s' = threads s /\
  stdout s' = stdout s ++ match c with StdoutWrite x => [x] | _ => [] end.
Proof.
  intros Hc Hth Hpid Hx. destruct c; try discriminate Hc; simpl in Hx; injection Hx as <- <-.
  - auto.
  - cbn [thread_answer]. rewrite Hth, app_nil_r. auto.
  - rewrite Hpid, app_nil_r. auto.
Qed.

Lemma thread_step_output pid0 out0 n main s t th p c k r s' :
  at_point pid0 n (main, s) ->
  output_at pid0 out0 n s ->
  threads s !! t = Some th ->
  th_state th = Running p ->
  expose p = HCall c k ->
  exec (Some t) c s = Some (r, s') ->
  output_at pid0 out0 n (set_state t (Running (resume k r)) s').
Proof.
  intros (Hn & Hm & Hpid & Hg & Hj & Ht) (k1 & k2 & w & Hout & Hint & Hp1 & Hp2) Hth Hst He Hx.
  cbn [fst snd] in *.
  destruct (running_thread_at n _ t th p Hn Ht Hth Hst) as [Hq _].
  destruct (quiet_expose p c k Hq He) as [Hc _].
  destruct (quiet_exec_answer t th c s r s' pid0 Hc Hth Hpid Hx) as (-> & Hths & Hso).
  cbn [resume]. unfold output_at, set_state. cbn [stdout threads]. rewrite Hths, Hso.
  destruct (threads_at_names _ _ _ _ Ht Hth) as [(-> & _ & Hnm)|(-> & _ & Hnm)]; rewrite Hnm.
  - pose proof (progress_at_some _ _ _ _ _ Hth Hp1) as Hk. rewrite Hst in Hk. subst p.
    exists (S k1), k2, (w ++ match c with StdoutWrite x => [x] | _ => [] end).
    split; [rewrite Hout, <- !app_assoc; reflexivity|].
    split; [|split].
    + cbn [chunks]. rewrite (head_write_call _ c k He).
      destruct c; rewrite ?app_nil_r; try exact Hint. apply interleaved_app_l. exact Hint.
    + apply progress_at_set; [eauto|]. cbn [after]. rewrite (advance_call _ _ c k He). reflexivity.
    + apply progress_at_other; [lia|exact Hp2].
  - pose proof (progress_at_some _ _ _ _ _ Hth Hp2) as Hk. rewrite Hst in Hk. subst p.
    exists k1, (S k2), (w ++ match c with StdoutWrite x => [x] | _ => [] end).
    split; [rewrite Hout, <- !app_assoc; reflexivity|].
    split; [|split].
    + cbn [chunks]. rewrite (head_write_call _ c k He).
      destruct c; rewrite ?app_nil_r; try exact Hint. apply interleaved_app_r. exact Hint.
    + apply progress_at_other; [lia|exact Hp1].
    + apply progress_at_set; [eauto|]. cbn [after]. rewrite (advance_call _ _ c k He). reflexivity.
Qed.

Lemma thread_exit_output pid0 out0 n main s t th p :
  at_point pid0 n (main, s) ->
  output_at pid0 out0 n s ->
  threads s !! t = Some th ->
  th_state th = Running p ->
  (forall c k, expose p <> HCall c k) ->
  output_at pid0 out0 n (set_state t Finished s).
Proof.
  intros (Hn & Hm & Hpid & Hg & Hj & Ht) (k1 & k2 & w & Hout & Hint & Hp1 & Hp2) Hth Hst Hno.
  cbn [fst snd] in *.
  destruct (running_thread_at n _ t th p Hn Ht Hth Hst) as [Hq _].
  assert (Hret : expose p = HRet tt).
  { destruct (quiet_head p Hq) as [Hh|(c & k & Hh & _)]; [exact Hh|]. destruct (Hno c k Hh). }
  unfold output_at, set_state. cbn [stdout threads].
  exists k1, k2, w. split; [exact Hout|]. split; [exact Hint|].
  destruct (threads_at_names _ _ _ _ Ht Hth) as [(-> & _)|(-> & _)].
  - pose proof (progress_at_some _ _ _ _ _ Hth Hp1) as Hk. rewrite Hst in Hk. subst p.
    split; [apply progress_at_set; [eauto|exact Hret] | apply progress_at_other; [lia|exact Hp2]].
  - pose proof (progress_at_some _ _ _ _ _ Hth Hp2) as Hk. rewrite Hst in Hk. subst p.
    split; [apply progress_at_other; [lia|exact Hp1] | apply progress_at_set; [eauto|exact Hret]].
Qed.

Lemma reachable_output pid0 out0 sy :
  rtc step (initial pid0 out0) sy ->
  exists n, at_point pid0 n sy /\ output_at pid0 out0 n sy.2.
Proof.
  intros Hr.
  apply (rtc_ind_r (R:=step)
           (fun sy => exists n, at_point pid0 n sy /\ output_at pid0 out0 n sy.2)
           (initial pid0 out0)); [| |exact Hr].
  - exists 0%nat. split; [apply at_point_initial|].
    exists 0%nat, 0%nat, []. cbn. rewrite app_nil_r.
    repeat split; [apply interleaved_nil].
  - intros y z _ Hs (n & Hat & Hout). destruct Hs.
    + exists (S n). split; [eapply main_step_at_point; eauto|].
      eapply main_step_output; eauto.
    + exists n. split; [eapply thread_step_at_point; eauto|].
      eapply thread_step_output; eauto.
    + exists n. split; [eapply thread_exit_at_point; eauto|].
      eapply thread_exit_output; eauto.
Qed.

(** When the driver cell has ended, under any interleaving, the standard
    output holds what it held before, then the three lines of the main
    program, then the lines of the two tasks shuffled. *)
Theorem driver_output pid0 out0 sy :
  rtc step (initial pid0 out0) sy ->
  main_ended sy ->
  exists w,
    stdout sy.2
    = out0 ++ [format_int "ID of process running main program: " pid0; Py.nl;
               format_str "Main thread name: " "MainThread"; Py.nl; Py.nl] ++ w /\
    interleaved
      [format_str "Task 1 assigned to thread: " "THREAD 1"; Py.nl;
       format_int "ID of process running task 1: " pid0; Py.nl;
       "To boldly go"; Py.nl; Py.nl]
      [format_str "Task 2 assigned to thread: " "THREAD 2"; Py.nl;
       format_int "ID of process running task 2: " pid0; Py.nl;
       "Where no one has gone before"; Py.nl; Py.nl]
      w.
Proof.
  intros Hr Hend. destruct (reachable_output _ _ _ Hr) as (n & Hat & Hout).
  apply (main_ended_at_point _ _ _ Hat) in Hend. subst n.
  destruct Hat as (_ & _ & _ & _ & _ & Ht).
  destruct Hout as (k1 & k2 & w & Hout & Hint & Hp1 & Hp2).
  destruct Ht as (st0 & st1 & Hths & Hs0 & Hs1). cbn in Hs0, Hs1. subst st0 st1.
  rewrite Hths in Hp1, Hp2. cbn in Hp1, Hp2.
  pose proof (task_done target_task1 _ _ _ Hp1) as H1.
  pose proof (task_done target_task2 _ _ _ Hp2) as H2.
  cbn [target_body] in H1, H2. rewrite H1, H2 in Hint.
  exists w. split; [exact Hout|exact Hint].
Qed.

Lemma driver_output_witness :
  exists sy w,
    run_schedule first_lines_mixed (initial 6724 []) = Some sy /\
    main_ended sy /\
    stdout sy.2
    = [] ++ [format_int "ID of process running main program: " 6724; Py.nl;
             format_str "Main thread name: " "MainThread"; Py.nl; Py.nl] ++ w /\
    interleaved
      [format_str "Task 1 assigned to thread: " "THREAD 1"; Py.nl;
       format_int "ID of process running task 1: " 6724; Py.nl;
       "To boldly go"; Py.nl; Py.nl]
      [format_str "Task 2 assigned to thread: " "THREAD 2"; Py.nl;
       format_int "ID of process running task 2: " 6724; Py.nl;
       "Where no one has gone before"; Py.nl; Py.nl]
      w.
Proof.
  destruct (run_schedule first_lines_mixed (initial 6724 [])) as [sy|] eqn:Hrun;
    [|vm_compute in Hrun; discriminate Hrun].
  assert (He : main_ended sy).
  { unfold main_ended. vm_compute in Hrun. injection Hrun as <-. reflexivity. }
  destruct (driver_output 6724 [] sy (run_schedule_sound _ _ _ Hrun) He) as (w & Hw & Hi).
  exists sy, w. auto.
Defined.

(** [print] is not atomic: in every process, some run of the driver cell
    writes the first line of task 2 between the first line of task 1 and its
    line end, as in the output the notebook records. *)
Theorem lines_can_mix pid0 :
  exists sy,
    rtc step (initial pid0 []) sy /\ main_ended sy /\
    stdout sy.2 =
      [format_int "ID of process running main program: " pid0; Py.nl;
       format_str "Main thread name: " "MainThread"; Py.nl; Py.nl;
       format_str "Task 1 assigned to thread: " "THREAD 1";
       format_str "Task 2 assigned to thread: " "THREAD 2"; Py.nl;
       format_int "ID of process running task 2: " pid0; Py.nl;
       "Where no one has gone before"; Py.nl; Py.nl;
       Py.nl;
       format_int "ID of process running task 1: " pid0; Py.nl;
       "To boldly go"; Py.nl; Py.nl].
Proof.
  destruct (run_schedule first_lines_mixed (initial pid0 [])) as [sy|] eqn:Hrun;
    [|vm_compute in Hrun; discriminate Hrun].
  exists sy. split; [apply (run_schedule_sound _ _ _ Hrun)|].
  vm_compute in Hrun. injection Hrun as <-. split; reflexivity.
Qed.
End PerfFacts.

(* ================================================================= *)
(** ** Text generation *)

Module Tf5Facts.
Import Tf5.

(** C2.  [split(raw_text, max_len, step_size)] never reads [raw_text]: with
    the same global [text], [max_len] and [step_size], any two values of
    [raw_text], of any types, give the same result: the same lines and next
    characters, or the same exception. *)
Theorem split_ignores_raw_text {C A B : Type} (text : list C) (raw_text1 : A) (raw_text2 : B)
    (max_len step_size : Z) :
  split text raw_text1 max_len step_size = split text raw_text2 max_len step_size.
Proof.
  unfold split. destruct (Py.range 0 (Py.len text - max_len) step_size); reflexivity.
Qed.

(** The result does depend on the global [text]. *)
Example split_reads_text :
  split (list_ascii_of_string "to boldly go") "raw" 10 1
  = Returned ([list_ascii_of_string "to boldly "; list_ascii_of_string "o boldly g"],
              [list_ascii_of_string "g"; list_ascii_of_string "o"]).
Proof. reflexivity. Qed.

(** One pass of the loop of [split] over indices that leave room for a line
    and its next character. *)
Lemma split_loop {C} (text : list C) (max_len : Z) (indices : list Z) acc :
  0 <= max_len ->
  Forall (fun i => 0 <= i /\ i + max_len < Py.len text) indices ->
  exists lines next_chars,
    Py.for_in indices
      (fun i acc =>
         let lines := acc.1 ++ [Py.slice text i (i + max_len)] in
         outcome_bind (Py.getitem "string" text (i + max_len)) (fun c =>
         Returned (lines, acc.2 ++ [[c]])))
      acc
    = Returned (acc.1 ++ lines, acc.2 ++ next_chars) /\
    length lines = length indices /\
    length next_chars = length indices /\
    Forall (fun l => Py.len l = max_len) lines /\
    Forall (fun c => length c = 1%nat) next_chars.
Proof.
  intros Hm Hall. revert acc.
  set (body := fun (i : Z) (acc : list (list C) * list (list C)) => _).
  induction Hall as [|i indices [Hi Hlt] _ IH]; intros acc.
  - exists [], []. cbn [Py.for_in]. rewrite !app_nil_r. destruct acc. repeat split; constructor.
  - cbn [Py.for_in]. unfold body at 1. cbv zeta. unfold Py.getitem.
    assert (Hneg : (i + max_len <? 0) = false) by lia. rewrite Hneg.
    assert (Hin : (0 <=? i + max_len) && (i + max_len <? Py.len text) = true) by lia.
    rewrite Hin.
    destruct (text !! Z.to_nat (i + max_len)) as [c|] eqn:Hc.
    2:{ apply lookup_ge_None in Hc. unfold Py.len in Hlt. lia. }
    cbn [outcome_bind].
    destruct (IH (acc.1 ++ [Py.slice text i (i + max_len)], acc.2 ++ [[c]]))
      as (ls & cs & Heq & Hl & Hc' & Hls & Hcs).
    exists (Py.slice text i (i + max_len) :: ls), ([c] :: cs).
    rewrite Heq. cbn [fst snd]. rewrite <- !app_assoc. cbn [app length].
    repeat split; try congruence.
    + constructor; [|exact Hls].
      unfold Py.slice, Py.clamp, Py.len in *.
      assert (H1 : (i <? 0) = false) by lia. rewrite H1, Hneg.
      rewrite length_take, length_drop. lia.
    + constructor; [reflexivity|exact Hcs].
Qed.

(** The indices of [range(0, n, step)] for a positive step lie below [n]. *)
Lemma range_below (n step : Z) :
  0 < step ->
  exists indices, Py.range 0 n step = Returned indices /\
                  Forall (fun i => 0 <= i /\ i < n) indices.
Proof.
  intros Hs. unfold Py.range. assert (Hz : (step =? 0) = false) by lia. rewrite Hz.
  eexists. split; [reflexivity|].
  apply Forall_forall. intros i Hi. apply list_elem_of_In in Hi.
  apply in_map_iff in Hi. destruct Hi as (k & <- & Hk). apply in_seq in Hk.
  unfold Py.range_len in Hk.
  destruct ((0 <? step) && (0 <? n)) eqn:Hc.
  - assert (Hq : Z.of_nat k <= (n - 0 - 1) / step) by lia.
    assert (Hd : step * ((n - 0 - 1) / step) <= n - 0 - 1) by (apply Z.mul_div_le; lia).
    nia.
  - assert (Hc2 : (step <? 0) && (n <? 0) = false) by lia. rewrite Hc2 in Hk.
    simpl in Hk. lia.
Qed.

(** With a window [max_len >= 0] and a positive [step_size], [split] raises
    nothing: it returns as many lines as next characters, every line
    [max_len] characters long and every next character a single character. *)
Theorem split_returns {C A} (text : list C) (raw_text : A) (max_len step_size : Z) :
  0 <= max_len -> 0 < step_size ->
  exists lines next_chars,
    split text raw_text max_len step_size = Returned (lines, next_chars) /\
    length lines = length next_chars /\
    Forall (fun l => Py.len l = max_len) lines /\
    Forall (fun c => length c = 1%nat) next_chars.
Proof.
  intros Hm Hs. unfold split.
  destruct (range_below (Py.len text - max_len) step_size Hs) as (indices & -> & Hall).
  cbn [outcome_bind].
  destruct (split_loop text max_len indices ([], []) Hm) as (ls & cs & Heq & Hl & Hc & Hls & Hcs).
  { eapply Forall_impl; [exact Hall|]. cbn beta. intros i Hi. lia. }
  exists ls, cs. cbv zeta in Heq |- *. rewrite Heq. cbn [fst snd app].
  repeat split; try congruence; assumption.
Qed.

(** [split_returns] on the text of the notebook's example. *)
Lemma split_returns_witness :
  exists lines next_chars,
    split (list_ascii_of_string "to boldly go") "raw" 10 1 = Returned (lines, next_chars) /\
    length lines = length next_chars /\
    Forall (fun l => Py.len l = 10) lines /\
    Forall (fun c => length c = 1%nat) next_chars.
Proof. apply (split_returns (list_ascii_of_string "to boldly go") "raw" 10 1); lia. Defined.

(** A zero [step_size] raises the [ValueError] of [range]. *)
Example split_zero_step :
  split (list_ascii_of_string "to boldly go") "raw" 10 0
  = Raised (ValueError "range() arg 3 must not be zero").
Proof. reflexivity. Qed.

(** *** The windows of [split] *)

Lemma slice_in_bounds {C} (text : list C) (a b : Z) :
  0 <= a <= b -> b <= Py.len text ->
  Py.slice text a b = take (Z.to_nat (b - a)) (drop (Z.to_nat a) text).
Proof.
  intros Hab Hb. unfold Py.slice, Py.clamp.
  assert (Ha0 : (a <? 0) = false) by lia. assert (Hb0 : (b <? 0) = false) by lia.
  rewrite Ha0, Hb0.
  replace (Z.max 0 (Z.min a (Py.len text))) with a by lia.
  replace (Z.max 0 (Z.min b (Py.len text))) with b by lia.
  reflexivity.
Qed.

Lemma getitem_in_bounds {C} (what : string) (text : list C) (j : Z) :
  0 <= j < Py.len text ->
  exists c, Py.getitem what text j = Returned c /\ Py.slice text j (j + 1) = [c] /\
            text !! Z.to_nat j = Some c.
Proof.
  intros Hj. unfold Py.getitem.
  assert (Hn : (j <? 0) = false) by lia. rewrite Hn.
  assert (Hin : (0 <=? j) && (j <? Py.len text) = true) by lia. rewrite Hin.
  destruct (text !! Z.to_nat j) as [c|] eqn:Hc.
  2:{ apply lookup_ge_None in Hc. unfold Py.len in Hj. lia. }
  exists c. split; [reflexivity|]. split; [|reflexivity].
  rewrite slice_in_bounds by lia.
  replace (Z.to_nat (j + 1 - j)) with 1%nat by lia.
  rewrite (drop_S _ _ _ Hc). reflexivity.
Qed.

(** The loop of [split] over indices that leave room for a line and its next
    character: the lines and next characters are slices of the text. *)
Lemma split_loop_windows {C} (text : list C) (max_len : Z) (indices : list Z) acc :
  0 <= max_len ->
  Forall (fun i => 0 <= i /\ i + max_len < Py.len text) indices ->
  Py.for_in indices
    (fun i acc =>
       let lines := acc.1 ++ [Py.slice text i (i + max_len)] in
       outcome_bind (Py.getitem "string" text (i + max_len)) (fun c =>
       Returned (lines, acc.2 ++ [[c]])))
    acc
  = Returned (acc.1 ++ map (fun i => Py.slice text i (i + max_len)) indices,
              acc.2 ++ map (fun i => Py.slice text (i + max_len) (i + max_len + 1)) indices).
Proof.
  intros Hm Hall. revert acc.
  set (body := fun (i : Z) (acc : list (list C) * list (list C)) => _).
  induction Hall as [|i indices [Hi Hlt] _ IH]; intros acc.
  - cbn [Py.for_in map]. rewrite !app_nil_r. destruct acc. reflexivity.
  - cbn [Py.for_in map]. unfold body at 1. cbv zeta.
    destruct (getitem_in_bounds "string" text (i + max_len)) as (c & -> & -> & _); [lia|].
    cbn [outcome_bind]. rewrite IH. cbn [fst snd]. rewrite <- !app_assoc. reflexivity.
Qed.

Lemma split_indices_bounds {C} (text : list C) (max_len step_size : Z) :
  0 < step_size ->
  Forall (fun i => 0 <= i /\ i + max_len < Py.len text) (split_indices text max_len step_size).
Proof.
  intros Hs. destruct (range_below (Py.len text - max_len) step_size Hs) as (indices & Hr & Hall).
  unfold Py.range in Hr. assert (Hz : (step_size =? 0) = false) by lia. rewrite Hz in Hr.
  injection Hr as <-. unfold split_indices.
  eapply Forall_impl; [exact Hall|]. cbn beta. intros i Hi. lia.
Qed.

(** With a window [max_len >= 0] and a positive [step_size], [split] returns
    slices of the text. *)
Lemma split_windows {C A} (text : list C) (raw_text : A) (max_len step_size : Z) :
  0 <= max_len -> 0 < step_size ->
  split text raw_text max_len step_size
  = Returned (map (fun i => Py.slice text i (i + max_len)) (split_indices text max_len step_size),
              map (fun i => Py.slice text (i + max_len) (i + max_len + 1))
                  (split_indices text max_len step_size)).
Proof.
  intros Hm Hs. unfold split, Py.range.
  assert (Hz : (step_size =? 0) = false) by lia. rewrite Hz. cbn [outcome_bind].
  pose proof (split_loop_windows text max_len (split_indices text max_len step_size) ([], []) Hm
                (split_indices_bounds text max_len step_size Hs)) as Hl.
  cbv zeta in Hl |- *. cbn [fst snd app] in Hl. exact Hl.
Qed.

Lemma split_indices_lookup {C} (text : list C) (max_len step_size : Z) (j : nat) (i : Z) :
  split_indices text max_len step_size !! j = Some i -> i = Z.of_nat j * step_size.
Proof.
  unfold split_indices. rewrite list_lookup_fmap.
  destruct (seq 0 _ !! j) as [k|] eqn:Hk; [|discriminate].
  apply lookup_seq in Hk as [-> _]. intros [= <-]. reflexivity.
Qed.

(** Each line with its next character is a window of [max_len + 1]
    characters of the text, and window [j] starts at [j * step_size]. *)
Theorem split_pairs_are_windows {C A} (text : list C) (raw_text : A) (max_len step_size : Z) :
  0 <= max_len -> 0 < step_size ->
  exists lines next_chars,
    split text raw_text max_len step_size = Returned (lines, next_chars) /\
    forall (j : nat) l c,
      lines !! j = Some l -> next_chars !! j = Some c ->
      l ++ c = Py.slice text (Z.of_nat j * step_size) (Z.of_nat j * step_size + max_len + 1) /\
      Py.len (l ++ c) = max_len + 1.
Proof.
  intros Hm Hs. eexists _, _. split; [apply split_windows; assumption|].
  intros j l c. rewrite !list_lookup_fmap.
  destruct (split_indices text max_len step_size !! j) as [i|] eqn:Hi; [|discriminate].
  intros [= <-] [= <-].
  pose proof (split_indices_bounds text max_len step_size Hs) as Hall.
  rewrite Forall_lookup in Hall. destruct (Hall j i Hi) as [H0 Hlt].
  apply split_indices_lookup in Hi. subst i.
  rewrite !slice_in_bounds by lia.
  replace (Z.to_nat (Z.of_nat j * step_size + max_len + 1 - Z.of_nat j * step_size))
    with (Z.to_nat max_len + 1)%nat by lia.
  replace (Z.to_nat (Z.of_nat j * step_size + max_len - Z.of_nat j * step_size))
    with (Z.to_nat max_len) by lia.
  replace (Z.to_nat (Z.of_nat j * step_size + max_len + 1 - (Z.of_nat j * step_size + max_len)))
    with 1%nat by lia.
  replace (Z.to_nat (Z.of_nat j * step_size + max_len))
    with (Z.to_nat (Z.of_nat j * step_size) + Z.to_nat max_len)%nat by lia.
  rewrite <- drop_drop, <- take_take_drop. split; [reflexivity|].
  unfold Py.len in *. rewrite length_app, !length_take, !length_drop. lia.
Qed.

(** [split_pairs_are_windows] on the text "to boldly go", with a window of 3
    and a step of 4. *)
Lemma split_pairs_are_windows_witness :
  exists lines next_chars,
    split (list_ascii_of_string "to boldly go") "raw" 3 4 = Returned (lines, next_chars) /\
    forall (j : nat) l c,
      lines !! j = Some l -> next_chars !! j = Some c ->
      l ++ c = Py.slice (list_ascii_of_string "to boldly go") (Z.of_nat j * 4) (Z.of_nat j * 4 + 3 + 1) /\
      Py.len (l ++ c) = 3 + 1.
Proof.
  apply (split_pairs_are_windows (list_ascii_of_string "to boldly go") "raw" 3 4); lia.
Defined.

(** A text no longer than the window gives no line at all. *)
Theorem split_short_text {C A} (text : list C) (raw_text : A) (max_len step_size : Z) :
  Py.len text <= max_len -> 0 < step_size ->
  split text raw_text max_len step_size = Returned ([], []).
Proof.
  intros Hl Hs. unfold split, Py.range, Py.range_len.
  assert (Hz : (step_size =? 0) = false) by lia. rewrite Hz.
  assert (H1 : (0 <? step_size) && (0 <? Py.len text - max_len) = false) by lia. rewrite H1.
  assert (H2 : (step_size <? 0) && (Py.len text - max_len <? 0) = false) by lia. rewrite H2.
  reflexivity.
Qed.

(** [split_short_text] on a text of 12 characters and a window of 20. *)
Lemma split_short_text_witness :
  split (list_ascii_of_string "to boldly go") "raw" 20 5 = Returned ([], []).
Proof.
  apply (split_short_text (list_ascii_of_string "to boldly go") "raw" 20 5);
    [vm_compute; discriminate | lia].
Defined.

Lemma split_indices_step1 {C} (text : list C) (max_len : Z) :
  split_indices text max_len 1 = map Z.of_nat (seq 0 (Z.to_nat (Py.len text - max_len))).
Proof.
  unfold split_indices, Py.range_len. cbn [Z.ltb Z.compare andb].
  destruct (Z.ltb_spec 0 (Py.len text - max_len)) as [Hp|Hp].
  - rewrite Z.div_1_r. replace (Py.len text - max_len - 0 - 1 + 1) with (Py.len text - max_len) by lia.
    apply map_ext. intros k. lia.
  - replace (Z.to_nat (Py.len text - max_len)) with 0%nat by lia. reflexivity.
Qed.

Lemma next_chars_concat {C} (text : list C) (m n a : nat) :
  (a + n + m <= length text)%nat ->
  concat (map (fun i => Py.slice text (i + Z.of_nat m) (i + Z.of_nat m + 1))
              (map Z.of_nat (seq a n)))
  = take n (drop (a + m) text).
Proof.
  revert a. induction n as [|n IH]; intros a Hlen; [reflexivity|].
  cbn [seq map concat]. rewrite IH by lia.
  rewrite slice_in_bounds by (unfold Py.len; lia).
  replace (Z.to_nat (Z.of_nat a + Z.of_nat m + 1 - (Z.of_nat a + Z.of_nat m))) with 1%nat by lia.
  replace (Z.to_nat (Z.of_nat a + Z.of_nat m)) with (a + m)%nat by lia.
  replace (S a + m)%nat with ((a + m) + 1)%nat by lia.
  rewrite <- (drop_drop text 1 (a + m)).
  change (S n) with (1 + n)%nat. rewrite (take_take_drop _ 1 n). reflexivity.
Qed.

(** With [step_size = 1], the first line followed by all the next characters
    is the text again, and there is one line for each character after the
    first window. *)
Theorem split_step1_rebuilds_text {C A} (text : list C) (raw_text : A) (max_len : Z) :
  0 <= max_len < Py.len text ->
  exists first lines next_chars,
    split text raw_text max_len 1 = Returned (first :: lines, next_chars) /\
    first ++ concat next_chars = text /\
    Py.len (first :: lines) = Py.len text - max_len.
Proof.
  intros [Hm Hlt]. destruct (Z_of_nat_complete max_len Hm) as [m ->].
  rewrite split_windows by lia. rewrite split_indices_step1.
  destruct (Z.to_nat (Py.len text - Z.of_nat m)) as [|n] eqn:Hn; [lia|].
  exists (Py.slice text 0 (0 + Z.of_nat m)),
    (map (fun i => Py.slice text i (i + Z.of_nat m)) (map Z.of_nat (seq 1 n))),
    (map (fun i => Py.slice text (i + Z.of_nat m) (i + Z.of_nat m + 1))
         (map Z.of_nat (seq 0 (S n)))).
  split; [reflexivity|]. split.
  - rewrite (next_chars_concat text m (S n) 0) by (unfold Py.len in *; lia).
    rewrite slice_in_bounds by lia. cbn [Z.to_nat drop Nat.add].
    replace (Z.to_nat (0 + Z.of_nat m - 0)) with m by lia.
    replace (S n) with (length (drop m text))
      by (rewrite length_drop; unfold Py.len in *; lia).
    rewrite firstn_all. apply take_drop.
  - unfold Py.len in *. cbn [length]. rewrite !length_map, length_seq. lia.
Qed.

(** [split_step1_rebuilds_text] on the text "to boldly go", with a window of
    10. *)
Lemma split_step1_rebuilds_text_witness :
  exists first lines next_chars,
    split (list_ascii_of_string "to boldly go") "raw" 10 1
      = Returned (first :: lines, next_chars) /\
    first ++ concat next_chars = list_ascii_of_string "to boldly go" /\
    Py.len (first :: lines) = Py.len (list_ascii_of_string "to boldly go") - 10.
Proof.
  apply (split_step1_rebuilds_text (list_ascii_of_string "to boldly go") "raw" 10).
  split; [lia | vm_compute; reflexivity].
Defined.

Lemma window_slides {C} (text : list C) (a m : nat) :
  take (S m) (drop (S a) text)
  = drop 1 (take (S m) (drop a text)) ++ take 1 (drop (a + S m) text).
Proof.
  replace (S a) with (a + 1)%nat by lia. rewrite <- (drop_drop text 1 a).
  rewrite <- (drop_drop text (S m) a).
  destruct (drop a text) as [|x rest]; [rewrite !drop_nil; reflexivity|].
  cbn [take drop]. change (drop 0 (take m rest)) with (take m rest). rewrite drop_0.
  replace (S m) with (m + 1)%nat by lia. symmetry. apply take_take_drop.
Qed.

(** With [step_size = 1] and a window of at least one character, each line
    is the line before without its first character, followed by the next
    character of that line. *)
Theorem split_step1_slides {C A} (text : list C) (raw_text : A) (max_len : Z) :
  0 < max_len ->
  exists lines next_chars,
    split text raw_text max_len 1 = Returned (lines, next_chars) /\
    forall (j : nat) l c l',
      lines !! j = Some l -> next_chars !! j = Some c -> lines !! S j = Some l' ->
      l' = drop 1 l ++ c.
Proof.
  intros Hm. destruct (Z_of_nat_complete max_len ltac:(lia)) as [[|m] ->]; [lia|].
  eexists _, _. split; [apply split_windows; lia|].
  intros j l c l'. rewrite !list_lookup_fmap.
  pose proof (split_indices_bounds text (Z.of_nat (S m)) 1 ltac:(lia)) as Hall.
  rewrite Forall_lookup in Hall.
  destruct (split_indices text (Z.of_nat (S m)) 1 !! j) as [i|] eqn:Hi; [|discriminate].
  destruct (split_indices text (Z.of_nat (S m)) 1 !! S j) as [i'|] eqn:Hi'; [|discriminate].
  intros [= <-] [= <-] [= <-].
  destruct (Hall _ _ Hi) as [H0 Hlt]. destruct (Hall _ _ Hi') as [H0' Hlt'].
  apply split_indices_lookup in Hi, Hi'. subst i i'.
  rewrite !slice_in_bounds by lia.
  repeat match goal with
         | |- context [Z.to_nat ?e] =>
             first [ replace (Z.to_nat e) with (S m) by lia
                   | replace (Z.to_nat e) with 1%nat by lia
                   | replace (Z.to_nat e) with (S j) by lia
                   | replace (Z.to_nat e) with j by lia
                   | replace (Z.to_nat e) with (j + S m)%nat by lia ]
         end.
  apply window_slides.
Qed.

(** [split_step1_slides] on the text "to boldly go", with a window of 10. *)
Lemma split_step1_slides_witness :
  exists lines next_chars,
    split (list_ascii_of_string "to boldly go") "raw" 10 1 = Returned (lines, next_chars) /\
    forall (j : nat) l c l',
      lines !! j = Some l -> next_chars !! j = Some c -> lines !! S j = Some l' ->
      l' = drop 1 l ++ c.
Proof.
  apply (split_step1_slides (list_ascii_of_string "to boldly go") "raw" 10). lia.
Defined.

End Tf5Facts.

(* ================================================================= *)
(** ** Agent-based modeling *)

(** One step of a proof that a body built from calls, binds, loops and case
    analyses has no handler. *)
Ltac hf_step :=
  first
    [ apply hf_Ret
    | apply hf_Throw
    | apply handler_free_lift
    | apply handler_free_call_lib
    | apply handler_free_bind; [|intros ?]
    | apply handler_free_for_each; intros ? ?
    | apply hf_Call; intros ?
    | match goal with
      | |- handler_free (match ?x with _ => _ end) => destruct x
      end ].

Ltac hf := repeat hf_step.

(* ================================================================= *)
(** ** Text generation: the encoding cell and the generated strings *)

Module Tf5CellFacts.
Import Tf5.

(** *** [chars], [char_indices] and the one-hot encoding *)

Section EncodingFacts.
Context {C : Type} `{Countable C} (ord : C -> Z) (repr : list C -> string).

Lemma index_from_found (l : list C) (x : C) (i : Z) (n : nat) :
  l !! n = Some x -> (forall m, (m < n)%nat -> l !! m <> Some x) ->
  index_from repr l x i = Returned (i + Z.of_nat n).
Proof.
  revert i n. induction l as [|y l IH]; intros i n Hn Hfirst; [discriminate|].
  cbn [index_from]. destruct n as [|n].
  - injection Hn as ->. rewrite decide_True by reflexivity. f_equal. lia.
  - rewrite decide_False.
    + rewrite (IH (i + 1) n Hn); [f_equal; lia|].
      intros m Hm. apply (Hfirst (S m)). lia.
    + intros ->. apply (Hfirst 0%nat); [lia|reflexivity].
Qed.

Lemma list_index_nodup (l : list C) (x : C) (n : nat) :
  NoDup l -> l !! n = Some x -> list_index repr l x = Returned (Z.of_nat n).
Proof.
  intros Hnd Hn. unfold list_index. rewrite (index_from_found l x 0 n Hn); [reflexivity|].
  intros m Hm Hx. pose proof (NoDup_lookup l m n x Hnd Hx Hn). lia.
Qed.

Lemma char_indices_loop (chars l : list C) (d : gmap C Z) :
  NoDup chars -> Forall (fun c => c ∈ chars) l ->
  exists d',
    Py.for_in l
      (fun char d => outcome_bind (list_index repr chars char)
                       (fun i => Returned (<[ char := i ]> d))) d
    = Returned d' /\
    (forall c, c ∈ l -> exists n : nat, chars !! n = Some c /\ d' !! c = Some (Z.of_nat n)) /\
    (forall c, c ∉ l -> d' !! c = d !! c).
Proof.
  intros Hnd Hl. revert d. induction Hl as [|x l Hx _ IH]; intros d.
  - exists d. split; [reflexivity|]. split; [intros c Hc; inversion Hc|auto].
  - apply list_elem_of_lookup in Hx as [n Hn]. cbn [Py.for_in].
    rewrite (list_index_nodup chars x n Hnd Hn). cbn [outcome_bind].
    destruct (IH (<[ x := Z.of_nat n ]> d)) as (d' & -> & Hin & Hout).
    exists d'. split; [reflexivity|]. split.
    + intros c Hc. destruct (decide (c ∈ l)) as [Hcl|Hcl]; [apply Hin; exact Hcl|].
      apply elem_of_cons in Hc as [->|Hc]; [|contradiction].
      exists n. split; [exact Hn|]. rewrite (Hout x Hcl). apply lookup_insert_eq.
    + intros c Hc. apply not_elem_of_cons in Hc as [Hne Hc].
      rewrite (Hout c Hc). apply lookup_insert_ne. congruence.
Qed.

Lemma chars_of_perm (text : list C) :
  chars_of ord text ≡ₚ elements (list_to_set text : gset C).
Proof. apply merge_sort_Permutation. Qed.

Lemma chars_of_nodup (text : list C) : NoDup (chars_of ord text).
Proof. rewrite chars_of_perm. apply NoDup_elements. Qed.

Lemma elem_of_chars_of (text : list C) (c : C) : c ∈ chars_of ord text <-> c ∈ text.
Proof. rewrite chars_of_perm, elem_of_elements, elem_of_list_to_set. reflexivity. Qed.

Lemma char_le_total : Total (char_le ord).
Proof. intros a b. unfold char_le. lia. Qed.

Lemma char_le_trans : Transitive (char_le ord).
Proof. intros a b c. unfold char_le. lia. Qed.

Lemma char_indices_table (text : list C) :
  exists d,
    char_indices_of repr (chars_of ord text) = Returned d /\
    (forall c, c ∈ text -> exists n : nat,
       chars_of ord text !! n = Some c /\ d !! c = Some (Z.of_nat n)) /\
    (forall c, c ∉ text -> d !! c = None).
Proof.
  destruct (char_indices_loop (chars_of ord text) (chars_of ord text) ∅ (chars_of_nodup text))
    as (d & Hd & Hin & Hout).
  { apply Forall_forall. auto. }
  exists d. split; [exact Hd|]. split.
  - intros c Hc. apply Hin, elem_of_chars_of, Hc.
  - intros c Hc. rewrite Hout; [apply lookup_empty|]. rewrite elem_of_chars_of. exact Hc.
Qed.

(** [chars] lists each character of the text once, in the order of the code
    points, and [char_indices] is its inverse: [char_indices[c] = i] exactly
    when [chars[i] = c]. *)
Theorem char_indices_round_trip (text : list C) :
  exists d,
    char_indices_of repr (chars_of ord text) = Returned d /\
    (forall c i, d !! c = Some i <-> 0 <= i /\ chars_of ord text !! Z.to_nat i = Some c) /\
    (forall c, c ∈ chars_of ord text <-> c ∈ text) /\
    NoDup (chars_of ord text) /\
    StronglySorted (char_le ord) (chars_of ord text).
Proof.
  destruct (char_indices_table text) as (d & Hd & Hin & Hout).
  exists d. split; [exact Hd|]. split; [|split; [|split]].
  - intros c i. split.
    + intros Hi. destruct (decide (c ∈ text)) as [Hc|Hc]; [|rewrite (Hout c Hc) in Hi; discriminate].
      destruct (Hin c Hc) as (n & Hn & Hdn). rewrite Hdn in Hi. injection Hi as <-.
      rewrite Nat2Z.id. split; [lia|exact Hn].
    + intros [Hi Hn].
      assert (Hc : c ∈ text) by (eapply elem_of_chars_of, list_elem_of_lookup_2; exact Hn).
      destruct (Hin c Hc) as (n & Hn' & Hdn).
      pose proof (NoDup_lookup _ _ _ _ (chars_of_nodup text) Hn Hn'). subst n.
      rewrite Hdn. f_equal. lia.
  - apply elem_of_chars_of.
  - apply chars_of_nodup.
  - apply StronglySorted_merge_sort; [apply char_le_trans|apply char_le_total].
Qed.

End EncodingFacts.

Section EncodeCellFacts.
Context {C : Type} `{Countable C} (ord : C -> Z) (repr : list C -> string).
Context {W : Type} (lib : library enc_call enc_answer W).

Lemma elem_of_enumerate {A} (l : list A) (i : Z) (x : A) :
  (i, x) ∈ Py.enumerate l -> 0 <= i /\ l !! Z.to_nat i = Some x.
Proof.
  unfold Py.enumerate. intros Hin. apply elem_of_lookup_imap_1 in Hin as (n & y & [= -> ->] & Hn).
  rewrite Nat2Z.id. split; [lia|exact Hn].
Qed.

Lemma dict_getitem_char (d : gmap C Z) (c : C) (k : Z) :
  d !! c = Some k -> dict_getitem repr d [c] = Returned k.
Proof. intros Hk. unfold dict_getitem. rewrite Hk. reflexivity. Qed.

(** The lines and next characters [split] returns are made of characters of
    the text. *)
Lemma split_in_text {A} (text : list C) (raw_text : A) (max_len step_size : Z) :
  0 <= max_len -> 0 < step_size ->
  exists lines next_chars,
    split text raw_text max_len step_size = Returned (lines, next_chars) /\
    length lines = length next_chars /\
    Forall (fun line => Py.len line = max_len /\ Forall (fun c => c ∈ text) line) lines /\
    Forall (fun s => exists c, s = [c] /\ c ∈ text) next_chars.
Proof.
  intros Hm Hs. eexists _, _. split; [apply Tf5Facts.split_windows; assumption|].
  pose proof (Tf5Facts.split_indices_bounds text max_len step_size Hs) as Hall.
  split; [rewrite !length_map; reflexivity|]. split.
  - apply Forall_map. eapply Forall_impl; [exact Hall|]. cbn beta. intros i [Hi Hlt].
    rewrite Tf5Facts.slice_in_bounds by lia. split.
    + unfold Py.len in *. rewrite length_take, length_drop. lia.
    + apply Forall_forall. intros c Hc.
      apply subseteq_take, subseteq_drop in Hc. exact Hc.
  - apply Forall_map. eapply Forall_impl; [exact Hall|]. cbn beta. intros i [Hi Hlt].
    destruct (Tf5Facts.getitem_in_bounds "string" text (i + max_len)) as (c & _ & -> & Hl); [lia|].
    exists c. split; [reflexivity|]. eapply list_elem_of_lookup_2. exact Hl.
Qed.

Lemma getitem_list_lookup {A} (l : list A) (i : Z) (x : A) :
  0 <= i -> l !! Z.to_nat i = Some x -> Py.getitem "list" l i = Returned x.
Proof.
  intros Hi Hx. unfold Py.getitem.
  assert (Hlt : (Z.to_nat i < length l)%nat) by (eapply lookup_lt_Some; eauto).
  assert (Hn : (i <? 0) = false) by lia. rewrite Hn.
  assert (Hin : (0 <=? i) && (i <? Py.len l) = true) by (unfold Py.len; lia).
  rewrite Hin, Hx. reflexivity.
Qed.

Lemma enc_trace_call (P : event enc_call enc_answer -> Prop) (c : enc_call) (w : W) :
  (forall r, P (EvCall c r)) -> Forall P (trace_of lib (enc_lib c) w).
Proof.
  intros Hc. unfold trace_of, enc_lib, call_lib. cbn [run].
  destruct (lib c w) as [[x|e] w1]; cbn [run snd]; repeat constructor; apply Hc.
Qed.

(** The encoding cell after [split]: whatever numpy answers, the cell raises
    nothing of its own (no [KeyError], no [IndexError]), and every cell of
    [X] and [y] it sets stands for the character at that place: [chars[k]]
    is the [t]-th character of line [i], or the next character of line [i]. *)
Theorem one_hot_decodes {A} (text : list C) (raw_text : A) (max_len step_size : Z) (w : W) :
  0 <= max_len -> 0 < step_size ->
  exists lines next_chars,
    split text raw_text max_len step_size = Returned (lines, next_chars) /\
    Forall (decodes (chars_of ord text) lines next_chars max_len)
      (trace_of lib (encode_cell ord repr text lines next_chars max_len) w).
Proof.
  intros Hm Hs.
  destruct (split_in_text text raw_text max_len step_size Hm Hs)
    as (lines & next_chars & Hsplit & Hlen & Hlines & Hnext).
  exists lines, next_chars. split; [exact Hsplit|].
  destruct (char_indices_table ord repr text) as (d & Hd & Hin & _).
  unfold encode_cell. cbv zeta. rewrite Hd. cbn [lift bind].
  apply (trace_bind lib); [unfold enc_lib; hf|apply enc_trace_call; intros; exact I|intros X w1].
  apply (trace_bind lib); [unfold enc_lib; hf|apply enc_trace_call; intros; exact I|intros y w2].
  apply (trace_bind lib); [| |intros; constructor].
  { apply handler_free_for_each. intros [i line] []. unfold enc_lib. hf. }
  apply for_each_trace; [intros [i line] []; unfold enc_lib; hf|].
  intros [i line] [] w' Hil. apply elem_of_enumerate in Hil as [Hi Hline]. cbn [fst snd].
  rewrite Forall_lookup in Hlines. destruct (Hlines _ _ Hline) as [Hll Hchars].
  apply (trace_bind lib).
  { apply handler_free_for_each. intros [t c] []. unfold enc_lib. hf. }
  - apply for_each_trace; [intros [t c] []; unfold enc_lib; hf|].
    intros [t c] [] w'' Htc. apply elem_of_enumerate in Htc as [Ht Hc]. cbn [fst snd].
    assert (Hct : c ∈ text).
    { rewrite Forall_forall in Hchars. apply Hchars. eapply list_elem_of_lookup_2. exact Hc. }
    destruct (Hin c Hct) as (n & Hn & Hdn).
    rewrite (dict_getitem_char d c _ Hdn). cbn [lift bind].
    apply (enc_trace_call _ (EncSetX X i t (Z.of_nat n) 1)). intros r. cbn [decodes].
    assert (Htl : (Z.to_nat t < length line)%nat) by (eapply lookup_lt_Some; eauto).
    split; [reflexivity|]. split; [exact Hi|]. split; [unfold Py.len in Hll; lia|].
    split; [lia|]. exists line, c. rewrite Nat2Z.id. auto.
  - intros [] w''.
    assert (Hnc : is_Some (next_chars !! Z.to_nat i)).
    { apply lookup_lt_is_Some. rewrite <- Hlen. eapply lookup_lt_Some. exact Hline. }
    destruct Hnc as [s Hs'].
    rewrite (getitem_list_lookup next_chars i s Hi Hs'). cbn [lift bind].
    rewrite Forall_lookup in Hnext. destruct (Hnext _ _ Hs') as (c & -> & Hct).
    destruct (Hin c Hct) as (n & Hn & Hdn).
    rewrite (dict_getitem_char d c _ Hdn). cbn [lift bind].
    apply (enc_trace_call _ (EncSetY y i (Z.of_nat n))). intros r. cbn [decodes].
    split; [exact Hi|]. split; [lia|]. exists c. rewrite Nat2Z.id. auto.
Qed.

End EncodeCellFacts.

(** [one_hot_decodes] on the text "to boldly go", with a window of 3 and a
    step of 4. *)
Lemma one_hot_decodes_witness :
  exists lines next_chars,
    split (list_ascii_of_string "to boldly go") "raw" 3 4 = Returned (lines, next_chars) /\
    Forall (decodes (chars_of ascii_ord (list_ascii_of_string "to boldly go"))
              lines next_chars 3)
      (trace_of enc_toy_library
         (encode_cell ascii_ord ascii_repr (list_ascii_of_string "to boldly go")
            lines next_chars 3) tt).
Proof.
  apply (one_hot_decodes ascii_ord ascii_repr enc_toy_library
           (list_ascii_of_string "to boldly go") "raw" 3 4 tt); lia.
Defined.


(** *** [generate_string] and the cell that prints its result *)

Section GenFacts.
Context {W : Type} (lib : library tf_call tf_answer W).

Lemma count_predict_app tr1 tr2 :
  count_predict (tr1 ++ tr2) = count_predict tr1 + count_predict tr2.
Proof. unfold count_predict, Py.len. rewrite List.filter_app, length_app. lia. Qed.

Lemma count_predict_cons ev tr :
  count_predict (ev :: tr) = (if is_predict ev then 1 else 0) + count_predict tr.
Proof.
  unfold count_predict, Py.len. cbn [List.filter]. destruct (is_predict ev); cbn [length]; lia.
Qed.

Ltac tf_cases :=
  repeat (cbn [bind run lift tf_lib call_lib];
          match goal with
          | |- context [lib ?c ?w] => destruct (lib c w) as [[?|?] ?]
          end);
  cbn [bind run lift tf_lib call_lib].

(** One turn of the loop of [generate_string]. *)
Lemma generate_turn (g : tf_globals) temp model gen_seq i gen_text w :
  match run lib
          (window <- tf_lib (ArrGetRows gen_seq i (i + max_len g)) ;;
           batch <- tf_lib (NpArrayOf [window]) ;;
           out <- tf_lib (ModelPredict model batch) ;;
           preds <- tf_lib (ArrGetRow out 0) ;;
           next_index <- sample preds temp ;;
           tf_lib (ArrSetCell gen_seq (max_len g + i) next_index true) ;;;
           next_char <- lift (Py.getitem "list" (chars g) next_index) ;;
           Ret (gen_text +:+ next_char))%prog w with
  | (Returned gen, _, tr) =>
      exists next_char, next_char ∈ chars g /\ gen = gen_text +:+ next_char /\ count_predict tr = 1
  | (Raised _, _, tr) => count_predict tr <= 1
  end.
Proof.
  unfold sample. tf_cases; try (unfold count_predict, Py.len; simpl; lia).
  match goal with
  | |- context [Py.getitem "list" (chars g) ?z] =>
      destruct (Py.getitem "list" (chars g) z) as [c|e] eqn:Hc
  end; cbn [lift bind run]; [|unfold count_predict, Py.len; simpl; lia].
  exists c. split; [|split; [reflexivity|reflexivity]].
  unfold Py.getitem in Hc.
  destruct ((0 <=? _) && _); [|discriminate].
  destruct (chars g !! _) as [c'|] eqn:Hl; [|discriminate].
  injection Hc as <-. eapply list_elem_of_lookup_2. exact Hl.
Qed.

(** The loop of [generate_string]: one character of [chars] and one
    prediction for each index. *)
Lemma generate_loop (g : tf_globals) temp model gen_seq (indices : list Z) gen_text w :
  match run lib
          (for_each indices
             (fun i gen_text =>
                window <- tf_lib (ArrGetRows gen_seq i (i + max_len g)) ;;
                batch <- tf_lib (NpArrayOf [window]) ;;
                out <- tf_lib (ModelPredict model batch) ;;
                preds <- tf_lib (ArrGetRow out 0) ;;
                next_index <- sample preds temp ;;
                tf_lib (ArrSetCell gen_seq (max_len g + i) next_index true) ;;;
                next_char <- lift (Py.getitem "list" (chars g) next_index) ;;
                Ret (gen_text +:+ next_char))%prog
             gen_text) w with
  | (Returned gen, _, tr) =>
      exists picks, Forall (fun c => c ∈ chars g) picks /\
        gen = gen_text +:+ fold_right String.append "" picks /\
        length picks = length indices /\ count_predict tr = Py.len indices
  | (Raised _, _, tr) => count_predict tr <= Py.len indices
  end.
Proof.
  revert gen_text w. induction indices as [|i indices IH]; intros gen_text w.
  - cbn [for_each run]. exists []. cbn [fold_right]. rewrite PerfFacts.string_app_nil_r.
    repeat split. constructor.
  - rewrite run_for_each by (unfold tf_lib, sample; hf).
    pose proof (generate_turn g temp model gen_seq i gen_text w) as Ht.
    match type of Ht with
    | match run lib ?p w with _ => _ end => destruct (run lib p w) as [[[gen1|e] w1] tr1]
    end.
    + destruct Ht as (c & Hc & -> & Hn).
      specialize (IH (gen_text +:+ c) w1).
      match type of IH with
      | match run lib ?p w1 with _ => _ end => destruct (run lib p w1) as [[[gen2|e] w2] tr2]
      end.
      * destruct IH as (picks & Hp & -> & Hl & Hn2). exists (c :: picks).
        split; [constructor; assumption|]. split; [|split].
        -- cbn [fold_right]. rewrite PerfFacts.string_app_assoc. reflexivity.
        -- cbn [length]. congruence.
        -- rewrite count_predict_app, Hn, Hn2. unfold Py.len. cbn [length]. lia.
      * rewrite count_predict_app, Hn. unfold Py.len in *. cbn [length]. lia.
    + unfold Py.len. cbn [length]. lia.
Qed.

Lemma range_step1 (n : Z) :
  exists indices, Py.range 0 n 1 = Returned indices /\ Py.len indices = Z.max 0 n.
Proof.
  unfold Py.range, Py.range_len. cbn [Z.eqb Z.ltb Z.compare andb].
  eexists. split; [reflexivity|]. unfold Py.len. rewrite length_map, length_seq.
  destruct (Z.ltb_spec 0 n).
  - rewrite Z.div_1_r. lia.
  - lia.
Qed.

(** What [generate_string] returns and asks for, when it returns. *)
Lemma generate_string_result (g : tf_globals) seed_index temp gen_length model w gen :
  result_of lib (generate_string g seed_index temp gen_length model) w = Returned gen ->
  exists seed_line picks,
    Py.getitem "list" (lines g) seed_index = Returned seed_line /\
    gen = seed_line +:+ fold_right String.append "" picks /\
    Forall (fun c => c ∈ chars g) picks /\
    Py.len picks = Z.max 0 gen_length /\
    count_predict (trace_of lib (generate_string g seed_index temp gen_length model) w)
      = Z.max 0 gen_length.
Proof.
  unfold result_of, trace_of, generate_string.
  cbn [bind tf_lib call_lib run].
  destruct (lib (NpZeros _ _) w) as [[gen_seq|e] w1]; [|simpl; discriminate].
  cbn [bind run].
  destruct (lib (ArrGetRow (X g) seed_index) w1) as [[seed|e] w2]; [|simpl; discriminate].
  cbn [bind run].
  destruct (lib (ArrSetRows gen_seq 0 (max_len g) seed) w2) as [[u|e] w3]; [|simpl; discriminate].
  destruct (Py.getitem "list" (lines g) seed_index) as [seed_line|e]; [|simpl; discriminate].
  destruct (range_step1 gen_length) as (indices & -> & Hlen).
  cbn [lift bind].
  pose proof (generate_loop g temp model gen_seq indices seed_line w3) as Hl.
  cbn [bind tf_lib call_lib] in Hl.
  match type of Hl with
  | match run lib ?p w3 with _ => _ end => destruct (run lib p w3) as [[[gen1|e] w4] tr]
  end; cbn [fst snd]; [|simpl; discriminate].
  destruct Hl as (picks & Hp & -> & Hl & Hn). intros [= <-].
  exists seed_line, picks. split; [reflexivity|]. split; [reflexivity|]. split; [exact Hp|].
  split; [unfold Py.len in *; lia|].
  rewrite !count_predict_cons. cbn [is_predict]. rewrite Hn, Hlen. lia.
Qed.

(** When [generate_string] returns, it returns the seed line
    [lines[seed_index]] followed by one string of [chars] for each of the
    [gen_length] turns (none for a [gen_length] below 1), and it has asked
    the model for exactly one prediction in each turn. *)
Theorem generate_string_appends (g : tf_globals) seed_index temp gen_length model w gen :
  result_of lib (generate_string g seed_index temp gen_length model) w = Returned gen ->
  exists seed_line picks,
    Py.getitem "list" (lines g) seed_index = Returned seed_line /\
    gen = seed_line +:+ fold_right String.append "" picks /\
    Forall (fun c => c ∈ chars g) picks /\
    Py.len picks = Z.max 0 gen_length /\
    count_predict (trace_of lib (generate_string g seed_index temp gen_length model) w)
      = Z.max 0 gen_length.
Proof.
  intros Hr.
  destruct (generate_string_result g seed_index temp gen_length model w gen Hr)
    as (seed_line & picks & Hs & Hg & Hp & Hl & Hn).
  exists seed_line, picks. auto.
Qed.

End GenFacts.

Lemma string_length_app (a b : string) :
  String.length (a +:+ b) = (String.length a + String.length b)%nat.
Proof.
  induction a as [|c a IH]; [reflexivity|].
  rewrite PerfFacts.string_app_cons. cbn [String.length]. rewrite IH. reflexivity.
Qed.

Lemma list_ascii_length (s : string) : length (list_ascii_of_string s) = String.length s.
Proof.
  induction s as [|c s IH]; [reflexivity|].
  cbn [list_ascii_of_string length String.length]. rewrite IH. reflexivity.
Qed.

Lemma picks_length (picks : list string) :
  Forall (fun c => String.length c = 1%nat) picks ->
  String.length (fold_right String.append "" picks) = length picks.
Proof.
  induction 1 as [|c picks Hc _ IH]; [reflexivity|].
  cbn [fold_right length]. rewrite string_length_app, Hc, IH. reflexivity.
Qed.

(** The two slices the last cell takes of a string that ends with
    [gen_length > 0] generated characters. *)
Lemma slices_of_generated (seed_line generated : string) (gen_length : Z) :
  0 < gen_length ->
  Z.of_nat (String.length generated) = gen_length ->
  seed_part (seed_line +:+ generated) gen_length = seed_line /\
  generated_part (seed_line +:+ generated) gen_length = generated.
Proof.
  intros Hpos Hlen. unfold seed_part, generated_part, Py.str_slice, Py.str_len, Py.slice, Py.clamp, Py.len.
  rewrite PerfFacts.list_ascii_of_string_app, length_app, !list_ascii_length.
  assert (H1 : (- gen_length <? 0) = true) by lia. rewrite H1. cbn [Z.ltb Z.compare].
  set (a := String.length seed_line) in *. set (b := String.length generated) in *.
  replace (Z.max 0 (Z.min 0 (Z.of_nat (a + b)))) with 0 by lia.
  replace (Z.max 0 (Z.min (- gen_length + Z.of_nat (a + b)) (Z.of_nat (a + b)))) with (Z.of_nat a) by lia.
  destruct (Z.ltb_spec (Z.of_nat (a + b)) 0); [lia|].
  replace (Z.max 0 (Z.min (Z.of_nat (a + b)) (Z.of_nat (a + b)))) with (Z.of_nat (a + b)) by lia.
  replace (Z.to_nat (Z.of_nat a - 0)) with a by lia.
  replace (Z.to_nat (Z.of_nat (a + b) - Z.of_nat a)) with b by lia.
  rewrite Nat2Z.id. cbn [Z.to_nat drop]. subst a b.
  rewrite <- !list_ascii_length.
  change (Z.to_nat 0) with 0%nat. rewrite drop_0, take_app_length, drop_app_length, firstn_all.
  rewrite !string_of_list_ascii_of_string. auto.
Qed.

Section GenCellFacts.
Context {W : Type} (lib : library tf_call tf_answer W).

(** The last cell prints [gen[:-gen_length]] and [gen[-gen_length:]] of the
    string [generate_string] returned.  When [chars] holds strings of one
    character and [gen_length] is positive, the first part is the seed line
    [lines[seed_index]], the second part is [gen_length] characters long, and
    the two parts together are the string. *)
Theorem generated_string_parts (g : tf_globals) seed_index temp gen_length model w gen :
  0 < gen_length ->
  Forall (fun c => String.length c = 1%nat) (chars g) ->
  result_of lib (generate_string g seed_index temp gen_length model) w = Returned gen ->
  Py.getitem "list" (lines g) seed_index = Returned (seed_part gen gen_length) /\
  Py.str_len (generated_part gen gen_length) = gen_length /\
  seed_part gen gen_length +:+ generated_part gen gen_length = gen.
Proof.
  intros Hpos Hchars Hr.
  destruct (generate_string_result lib g seed_index temp gen_length model w gen Hr)
    as (seed_line & picks & Hs & -> & Hp & Hl & _).
  assert (Hlen : Z.of_nat (String.length (fold_right String.append "" picks)) = gen_length).
  { rewrite picks_length; [unfold Py.len in Hl; lia|].
    eapply Forall_impl; [exact Hp|]. cbn beta. intros c Hc.
    rewrite Forall_forall in Hchars. apply Hchars, Hc. }
  destruct (slices_of_generated seed_line _ gen_length Hpos Hlen) as [H1 H2].
  rewrite H1, H2. split; [exact Hs|]. split; [|reflexivity].
  unfold Py.str_len, Py.len. rewrite list_ascii_length. exact Hlen.
Qed.

End GenCellFacts.

(** [generate_string_appends] with three characters, one line, and a
    sampler that always picks the second character. *)
Lemma generate_string_appends_witness :
  exists seed_line picks,
    Py.getitem "list" (lines toy_globals) 0 = Returned seed_line /\
    "cabbbbb" = seed_line +:+ fold_right String.append "" picks /\
    Forall (fun c => c ∈ chars toy_globals) picks /\
    Py.len picks = Z.max 0 3 /\
    count_predict (trace_of tf_toy_library (generate_string toy_globals 0 0.5 3 0%nat) tt)
      = Z.max 0 3.
Proof.
  apply (generate_string_appends tf_toy_library toy_globals 0 0.5 3 0%nat tt "cabbbbb").
  reflexivity.
Defined.

(** [generated_string_parts] on the same run. *)
Lemma generated_string_parts_witness :
  Py.getitem "list" (lines toy_globals) 0 = Returned (seed_part "cabbbbb" 3) /\
  Py.str_len (generated_part "cabbbbb" 3) = 3 /\
  seed_part "cabbbbb" 3 +:+ generated_part "cabbbbb" 3 = "cabbbbb".
Proof.
  apply (generated_string_parts tf_toy_library toy_globals 0 0.5 3 0%nat tt "cabbbbb").
  - lia.
  - repeat constructor.
  - reflexivity.
Defined.

End Tf5CellFacts.

Module Abm1Facts.
Import Abm1.

Lemma handler_free_print s : handler_free (print s).
Proof. unfold print, abm_lib. hf. Qed.

Lemma handler_free_ToyAgent1_init vals : handler_free (ToyAgent1_init vals).
Proof. unfold ToyAgent1_init, abm_lib. hf. Qed.

Lemma handler_free_ToyAgent2_init vals : handler_free (ToyAgent2_init vals).
Proof. unfold ToyAgent2_init, abm_lib. hf. Qed.

Lemma handler_free_SchellingAgent_init vals : handler_free (SchellingAgent_init vals).
Proof. unfold SchellingAgent_init, abm_lib. hf. Qed.

Lemma handler_free_namespace_insert ns cls params body :
  (forall vals, handler_free (body vals)) ->
  handler_free_namespace ns ->
  handler_free_namespace (<[ cls := ClassDef params body ]> ns).
Proof.
  intros Hb Hns cls' cd vals Hl. destruct (decide (cls = cls')) as [->|Hne].
  - rewrite lookup_insert_eq in Hl. injection Hl as <-. apply Hb.
  - rewrite lookup_insert_ne in Hl by exact Hne. eapply Hns; eauto.
Qed.

Lemma handler_free_namespace_cell1 : handler_free_namespace namespace_cell1.
Proof.
  apply handler_free_namespace_insert; [apply handler_free_ToyAgent1_init|].
  intros cls cd vals Hl. rewrite lookup_empty in Hl. discriminate.
Qed.

Lemma handler_free_namespace_cell2 : handler_free_namespace namespace_cell2.
Proof.
  apply handler_free_namespace_insert;
    [apply handler_free_ToyAgent2_init | apply handler_free_namespace_cell1].
Qed.

Lemma handler_free_namespace_cell3 : handler_free_namespace namespace_cell3.
Proof.
  apply handler_free_namespace_insert;
    [apply handler_free_SchellingAgent_init | apply handler_free_namespace_cell2].
Qed.

Lemma handler_free_instantiate ns cls args kwargs :
  handler_free_namespace ns -> handler_free (instantiate ns cls args kwargs).
Proof.
  intros Hns. unfold instantiate. destruct (ns !! cls) as [cd|] eqn:Hl; hf.
  eapply Hns; eauto.
Qed.

(** The same, for bodies that call the classes of the notebook. *)
Ltac hf_abm :=
  repeat first
    [ apply handler_free_instantiate;
      first [ assumption
            | apply handler_free_namespace_cell1
            | apply handler_free_namespace_cell2
            | apply handler_free_namespace_cell3 ]
    | apply handler_free_print
    | hf_step ].

Lemma handler_free_SchellingModel_cell ns self sched g density homophily cell u :
  handler_free_namespace ns ->
  handler_free (SchellingModel_cell ns self sched g density homophily cell u).
Proof.
  intros Hns. unfold SchellingModel_cell, abm_lib. hf_abm.
Qed.


Lemma handler_free_SchellingAgent_step uid pos type h model st :
  handler_free (SchellingAgent_step uid pos type h model st).
Proof.
  unfold SchellingAgent_step, abm_lib. hf.
Qed.

Lemma handler_free_agent_step a st : handler_free (agent_step a st).
Proof.
  unfold agent_step. destruct a; hf;
    first [apply handler_free_print | apply handler_free_SchellingAgent_step].
Qed.

Lemma handler_free_schedule_step self st : handler_free (schedule_step self st).
Proof.
  unfold schedule_step, abm_lib. hf. apply handler_free_agent_step.
Qed.

Section AbmFacts.
Context {W : Type} (lib : library abm_call abm_answer W).

Lemma run_for_each_cons {X S} (x : X) (xs : list X) (body : X -> S -> abm_prog S) (s : S) (w : W) :
  handler_free (body x s) ->
  run lib (for_each (x :: xs) body s) w =
    match run lib (body x s) w with
    | (Returned s', w1, tr1) =>
        match run lib (for_each xs body s') w1 with
        | (o, w2, tr2) => (o, w2, tr1 ++ tr2)
        end
    | (Raised e, w1, tr1) => (Raised e, w1, tr1)
    end.
Proof. intros Hb. simpl. apply run_bind. exact Hb. Qed.

Lemma ToyAgent_in_scope :
  namespace_cell3 !! "ToyAgent" = Some (ClassDef ["pos"; "model"] ToyAgent2_init).
Proof. reflexivity. Qed.

Lemma agent_type_not_bound (p t h m : pyval) :
  bind_arguments ["pos"; "model"] []
    [("pos", p); ("agent_type", t); ("homophily", h); ("model", m)]
  = Raised unexpected_agent_type.
Proof. reflexivity. Qed.

(** One turn of the loop of [SchellingModel.__init__]: no agent object is
    made; a draw below [density] ends the turn with the [TypeError]; no such
    draw, and the turn returns. *)
Lemma SchellingModel_cell_run self sched g density homophily cell w :
  choice_returns lib ->
  let r := run lib (SchellingModel_cell namespace_cell3 self sched g density homophily cell tt) w in
  forallb (fun ev => negb (handles_agent ev)) r.2 = true /\
  match r.1.1 with
  | Returned _ => existsb (low_draw density) r.2 = false
  | Raised e => existsb (low_draw density) r.2 = true -> e = unexpected_agent_type
  end.
Proof.
  intros Hch. unfold SchellingModel_cell, abm_lib, call_lib. simpl.
  destruct (lib (ModelRandom self) w) as [[r|e] w1]; simpl; [|split; [reflexivity|discriminate]].
  destruct (PrimFloat.ltb r density) eqn:Hr; simpl; [|rewrite Hr; auto].
  destruct (Hch ["triangle"; "square"] w1) as (s & w2 & ->). simpl.
  unfold instantiate. rewrite ToyAgent_in_scope. simpl init_params.
  rewrite agent_type_not_bound. simpl. rewrite Hr. auto.
Qed.

Lemma SchellingModel_loop_run self sched g density homophily cells w :
  choice_returns lib ->
  let r := run lib (for_each cells
                      (SchellingModel_cell namespace_cell3 self sched g density homophily) tt) w in
  forallb (fun ev => negb (handles_agent ev)) r.2 = true /\
  match r.1.1 with
  | Returned _ => existsb (low_draw density) r.2 = false
  | Raised e => existsb (low_draw density) r.2 = true -> e = unexpected_agent_type
  end.
Proof.
  intros Hch. revert w. induction cells as [|cell cells IH]; intros w.
  - simpl. auto.
  - cbv zeta. rewrite run_for_each_cons
      by (apply handler_free_SchellingModel_cell, handler_free_namespace_cell3).
    pose proof (SchellingModel_cell_run self sched g density homophily cell w Hch) as Hc.
    cbv zeta in Hc.
    destruct (run lib (SchellingModel_cell namespace_cell3 self sched g density homophily cell tt) w)
      as [[[[]|e] w1] tr1]; cbn [fst snd] in Hc; destruct Hc as [Hc1 Hc2].
    + specialize (IH w1). cbv zeta in IH.
      destruct (run lib (for_each cells _ tt) w1) as [[o w2] tr2]. cbn [fst snd] in *.
      destruct IH as [IH1 IH2]. split.
      * rewrite List.forallb_app, Hc1, IH1. reflexivity.
      * destruct o; rewrite List.existsb_app, Hc2; exact IH2.
    + cbn [fst snd]. auto.
Qed.

(** C3.  [SchellingModel.__init__] never makes a [SchellingAgent]: it calls
    [ToyAgent] with the keywords [pos], [agent_type], [homophily] and [model],
    and the [ToyAgent] in scope takes [pos] and [model] only.  For every
    [width], [height], [density] and [homophily], in every environment where
    [np.random.choice] returns: when the draw of some grid cell falls below
    [density], the constructor raises the [TypeError] of the unexpected
    keyword [agent_type]; and no agent object was made, scheduled or placed. *)
Theorem SchellingModel_init_raises self width height density homophily w :
  choice_returns lib ->
  existsb (low_draw density)
    (trace_of lib (SchellingModel_init namespace_cell3 self width height density homophily) w) = true ->
  result_of lib (SchellingModel_init namespace_cell3 self width height density homophily) w
    = Raised unexpected_agent_type /\
  forallb (fun ev => negb (handles_agent ev))
    (trace_of lib (SchellingModel_init namespace_cell3 self width height density homophily) w) = true.
Proof.
  intros Hch. unfold result_of, trace_of, SchellingModel_init, abm_lib, call_lib.
  cbn [bind].
  cbn [run].
  destruct (lib (RandomActivation self) w) as [[sched|e] w1]; [|simpl; discriminate].
  destruct (lib (SingleGrid width height true) w1) as [[g|e] w2]; [|simpl; discriminate].
  destruct (lib (CoordIter g) w2) as [[cells|e] w3]; [|simpl; discriminate].
  rewrite run_bind by (apply handler_free_for_each; intros;
                       apply handler_free_SchellingModel_cell, handler_free_namespace_cell3).
  pose proof (SchellingModel_loop_run self sched g density homophily cells w3 Hch) as Hl.
  cbv zeta in Hl.
  destruct (run lib (for_each cells _ tt) w3) as [[[[]|e] w4] tr]; cbn [fst snd] in *;
    destruct Hl as [Hl1 Hl2].
  - cbn [run app fst snd existsb low_draw orb]. rewrite app_nil_r, Hl2. discriminate.
  - cbn [fst snd existsb low_draw orb forallb handles_agent negb andb].
    intros Hlow. rewrite (Hl2 Hlow). auto.
Qed.

(** Case analysis on what the library answers and on what the body tests. *)
Ltac run_cases :=
  repeat (simpl;
          match goal with
          | |- context [lib ?c ?w] => destruct (lib c w) as [[?|?] ?]
          | |- context [match ?x with _ => _ end] => destruct x eqn:?
          end);
  simpl.

Lemma attrs_insert (st : store) (model : handle) (m : model_obj) (h : handle) :
  attrs (<[ model := m ]> st) h = if decide (model = h) then m else attrs st h.
Proof.
  unfold attrs. destruct (decide (model = h)) as [->|Hne].
  - rewrite lookup_insert_eq. reflexivity.
  - rewrite lookup_insert_ne by exact Hne. reflexivity.
Qed.

(** The list comprehension of [SchellingAgent.step] gives the comparisons of
    [self.type] with the types of the neighbours, in their order. *)
Lemma same_types_comprehension type neighbors same acc :
  same_types type neighbors same ->
  Py.for_in neighbors
    (fun other acc =>
       outcome_bind (agent_type other) (fun t => Returned (acc ++ [String.eqb type t])))
    acc
  = Returned (acc ++ same).
Proof.
  intros Hs. revert acc. induction Hs as [|other b neighbors same (t & Ht & ->) _ IH]; intros acc.
  - cbn [Py.for_in]. rewrite app_nil_r. reflexivity.
  - cbn [Py.for_in]. rewrite Ht. cbn [outcome_bind]. rewrite IH, <- app_assoc. reflexivity.
Qed.

(** C1, as the code has it.  The relocation itself, the neighbours and the
    mean are the library's ([move_to_empty], [neighbor_iter], [np.mean]); the
    threshold check and the decision to relocate are made by
    [SchellingAgent.step], a method of this repository.  In every
    environment where [self.model] has a grid, [neighbor_iter] and [np.mean]
    return and every neighbour has a [type], the library calls of the step
    are exactly these:
    [neighbor_iter(self.pos)] on the grid of [self.model]; [np.mean] of the
    comparisons of [self.type] with the types of those neighbours; and
    then, exactly when the mean that [np.mean] answered is below
    [self.homophily], [move_to_empty(self)] on that grid. *)
Theorem SchellingAgent_step_decides unique_id pos type homophily model st w
    g neighbors w1 same pct w2 :
  grid (attrs st model) = Some g ->
  lib (NeighborIter g pos) w = (Returned neighbors, w1) ->
  same_types type neighbors same ->
  lib (NpMean same) w1 = (Returned pct, w2) ->
  library_calls (trace_of lib (SchellingAgent_step unique_id pos type homophily model st) w)
  = [EvCall (NeighborIter g pos) (Returned neighbors); EvCall (NpMean same) (Returned pct)]
    ++ (if PrimFloat.ltb pct homophily
        then [EvCall (MoveToEmpty g (SchellingAgent unique_id pos type homophily model))
                (lib (MoveToEmpty g (SchellingAgent unique_id pos type homophily model)) w2).1]
        else []).
Proof.
  intros Hg Hn Hs Hm. unfold trace_of, SchellingAgent_step. rewrite Hg.
  cbn [getattr lift bind abm_lib call_lib run]. rewrite Hn.
  rewrite (same_types_comprehension type neighbors same [] Hs).
  cbn [app lift bind run]. rewrite Hm.
  destruct (PrimFloat.ltb pct homophily); [|reflexivity].
  cbn [bind run].
  destruct (lib (MoveToEmpty g _) w2) as [[[]|e] w3]; [|reflexivity].
  destruct (moved (attrs st model)); reflexivity.
Qed.

Lemma count_moves_app (tr1 tr2 : list abm_event) :
  count_moves (tr1 ++ tr2) = count_moves tr1 + count_moves tr2.
Proof.
  unfold count_moves, Py.len. rewrite List.filter_app, length_app. lia.
Qed.

Lemma count_moves_of_app (model : handle) (tr1 tr2 : list abm_event) :
  count_moves_of model (tr1 ++ tr2) = count_moves_of model tr1 + count_moves_of model tr2.
Proof.
  unfold count_moves_of, Py.len. rewrite List.filter_app, length_app. lia.
Qed.

Ltac attributes_kept :=
  repeat split; first [assumption | reflexivity | congruence | f_equal; lia].

(** One agent's [step()] adds its relocation to [moved] of its own model and
    leaves the other model objects as they were. *)
Lemma agent_step_counted a st w : counted st (run lib (agent_step a st) w).
Proof.
  unfold counted, agent_step, ToyAgent1_step, ToyAgent2_step, print, SchellingAgent_step,
    abm_lib, call_lib, count_moves_of, Py.len.
  destruct a as [uid name|uid pos|uid pos type homophily model].
  - run_cases; auto; intros h; destruct (moved (attrs st h)); simpl; attributes_kept.
  - run_cases; auto; intros h; destruct (moved (attrs st h)); simpl; attributes_kept.
  - destruct (grid (attrs st model)) as [g|] eqn:Hg; simpl; [|exact I].
    destruct (lib (NeighborIter g pos) w) as [[neighbors|e] w1]; simpl; [|exact I].
    destruct (Py.for_in neighbors _ []) as [same|e]; simpl; [|exact I].
    destruct (lib (NpMean same) w1) as [[pct|e] w2]; simpl; [|exact I].
    destruct (PrimFloat.ltb pct homophily); simpl.
    + destruct (lib (MoveToEmpty g _) w2) as [[[]|e] w3]; simpl; [|exact I].
      destruct (moved (attrs st model)) as [n|] eqn:Hm; simpl; [|exact I].
      intros h. rewrite attrs_insert. destruct (decide (model = h)) as [<-|Hne].
      * rewrite Nat.eqb_refl, Hm. simpl. attributes_kept.
      * apply Nat.eqb_neq in Hne. rewrite Hne. simpl.
        destruct (moved (attrs st h)); simpl; attributes_kept.
    + intros h. destruct (moved (attrs st h)); simpl; attributes_kept.
Qed.

Lemma agents_loop_counted agents st w :
  counted st (run lib (for_each agents agent_step st) w).
Proof.
  revert st w. induction agents as [|a agents IH]; intros st w.
  - unfold counted, count_moves_of, Py.len. simpl. intros h.
    destruct (moved (attrs st h)); simpl; attributes_kept.
  - rewrite run_for_each_cons by apply handler_free_agent_step.
    pose proof (agent_step_counted a st w) as Ha. unfold counted in Ha.
    destruct (run lib (agent_step a st) w) as [[[st1|e] w1] tr1]; cbn [fst snd] in Ha;
      [|exact I].
    specialize (IH st1 w1). unfold counted in IH.
    destruct (run lib (for_each agents agent_step st1) w1) as [[[st2|e] w2] tr2];
      unfold counted; cbn [fst snd] in *; [|exact I].
    intros h. destruct (Ha h) as (Hs1 & Hg1 & Hm1). destruct (IH h) as (Hs2 & Hg2 & Hm2).
    repeat split; [congruence | congruence |].
    rewrite Hm2, Hm1, count_moves_of_app. destruct (moved (attrs st h)); simpl; f_equal; lia.
Qed.

(** The relocations of agents of the model are relocations of that model. *)
Lemma agent_step_own_moves self a st w :
  of_model self a ->
  List.filter (is_move_of self) (run lib (agent_step a st) w).2
  = List.filter is_move (run lib (agent_step a st) w).2.
Proof.
  unfold agent_step, ToyAgent1_step, ToyAgent2_step, print, SchellingAgent_step,
    abm_lib, call_lib.
  destruct a as [uid name|uid pos|uid pos type homophily model]; intros Ha.
  - run_cases; reflexivity.
  - run_cases; reflexivity.
  - cbn [of_model] in Ha. subst model.
    destruct (grid (attrs st self)) as [g|] eqn:Hg; simpl; [|reflexivity].
    destruct (lib (NeighborIter g pos) w) as [[neighbors|e] w1]; simpl; [|reflexivity].
    destruct (Py.for_in neighbors _ []) as [same|e]; simpl; [|reflexivity].
    destruct (lib (NpMean same) w1) as [[pct|e] w2]; simpl; [|reflexivity].
    destruct (PrimFloat.ltb pct homophily); simpl; [|reflexivity].
    destruct (lib (MoveToEmpty g _) w2) as [[[]|e] w3];
      destruct (moved (attrs st self)); simpl; rewrite Nat.eqb_refl; reflexivity.
Qed.

Lemma agents_loop_own_moves self agents st w :
  Forall (of_model self) agents ->
  count_moves_of self (run lib (for_each agents agent_step st) w).2
  = count_moves (run lib (for_each agents agent_step st) w).2.
Proof.
  intros Hall. revert st w. induction Hall as [|a agents Ha _ IH]; intros st w; [reflexivity|].
  rewrite run_for_each_cons by apply handler_free_agent_step.
  pose proof (agent_step_own_moves self a st w Ha) as H1.
  destruct (run lib (agent_step a st) w) as [[[st1|e] w1] tr1]; cbn [fst snd] in *.
  - specialize (IH st1 w1).
    destruct (run lib (for_each agents agent_step st1) w1) as [[o w2] tr2]. cbn [fst snd] in *.
    rewrite count_moves_of_app, count_moves_app, IH.
    unfold count_moves_of, count_moves. rewrite H1. reflexivity.
  - unfold count_moves_of, count_moves. rewrite H1. reflexivity.
Qed.

(** A run of [SchellingModel.step()] that returned: the scheduler answered,
    every agent it answered stepped, and the line was printed. *)
Lemma SchellingModel_step_run self st w :
  match run lib (SchellingModel_step self st) w with
  | (Returned st', _, tr) =>
      exists sched agents loop u n w1 w2 u1 u2,
        schedule (attrs st self) = Some sched /\
        run lib (for_each agents agent_step
                   (<[ self := ModelObj (Some sched) (grid (attrs st self)) (Some 0) ]> st)) w1
        = (Returned st', w2, loop) /\
        moved (attrs st' self) = Some n /\
        tr = EvCall (ScheduleAgents sched) (Returned agents)
               :: loop ++ [EvCall (ScheduleAdvance sched) (Returned u);
                           EvCall (StdoutWrite (pretty n +:+ " agents moved in this timestep"))
                             (Returned u1);
                           EvCall (StdoutWrite Py.nl) (Returned u2)]
  | (Raised _, _, _) => True
  end.
Proof.
  unfold SchellingModel_step.
  rewrite run_bind by apply handler_free_schedule_step.
  unfold schedule_step. rewrite attrs_insert. destruct (decide (self = self)) as [_|Hne];
    [|congruence].
  cbn [schedule grid moved].
  destruct (schedule (attrs st self)) as [sched|] eqn:Hsched; [|exact I].
  cbn [getattr lift bind abm_lib call_lib run].
  destruct (lib (ScheduleAgents sched) w) as [[agents|e] w1]; [|exact I].
  rewrite run_bind by (apply handler_free_for_each; intros; apply handler_free_agent_step).
  destruct (run lib (for_each agents agent_step _) w1) as [[[st1|e] w2] loop] eqn:Hloop;
    [|exact I].
  cbn [run].
  destruct (lib (ScheduleAdvance sched) w2) as [[u|e] w3]; [|exact I].
  cbn [run app].
  destruct (moved (attrs st1 self)) as [n|] eqn:Hn; cbn [getattr lift bind]; [|exact I].
  unfold print, abm_lib, call_lib. cbn [bind run].
  destruct (lib (StdoutWrite _) w3) as [[u1|e] w4]; [|exact I].
  destruct (lib (StdoutWrite Py.nl) w4) as [[u2|e] w5]; [|exact I].
  cbn [run fst snd app].
  exists sched, agents, loop, u, n, w1, w2, u1, u2.
  split; [reflexivity|]. split; [exact Hloop|]. split; [exact Hn|].
  rewrite <- app_assoc. reflexivity.
Qed.

(** C10, as the code has it.  [SchellingModel] adds an attribute of its own,
    [moved], that is tied to the simulation.  In every environment, when
    [step()] returns: the scheduler has answered the agents of the model's
    schedule; [moved] is the number of relocations ([move_to_empty] calls)
    of that time step by agents whose [self.model] is this model, which is
    the number of all relocations of the time step when none of the agents
    the scheduler answered is one of another model; [schedule] and [grid]
    are as they were. *)
Theorem SchellingModel_step_counts self st w st' :
  result_of lib (SchellingModel_step self st) w = Returned st' ->
  exists sched agents rest,
    schedule (attrs st self) = Some sched /\
    trace_of lib (SchellingModel_step self st) w
    = EvCall (ScheduleAgents sched) (Returned agents) :: rest /\
    moved (attrs st' self)
    = Some (count_moves_of self (trace_of lib (SchellingModel_step self st) w)) /\
    (Forall (of_model self) agents ->
     moved (attrs st' self)
     = Some (count_moves (trace_of lib (SchellingModel_step self st) w))) /\
    schedule (attrs st' self) = schedule (attrs st self) /\
    grid (attrs st' self) = grid (attrs st self).
Proof.
  unfold result_of, trace_of. pose proof (SchellingModel_step_run self st w) as Hrun.
  destruct (run lib (SchellingModel_step self st) w) as [[[st1|e] w'] tr]; cbn [fst snd];
    [|discriminate].
  intros [= <-].
  destruct Hrun as (sched & agents & loop & u & n & w1 & w2 & u1 & u2 & Hsched & Hloop & Hn & ->).
  pose proof (agents_loop_counted agents
                (<[ self := ModelObj (Some sched) (grid (attrs st self)) (Some 0) ]> st) w1) as Hc.
  pose proof (fun Hall => agents_loop_own_moves self agents
                (<[ self := ModelObj (Some sched) (grid (attrs st self)) (Some 0) ]> st) w1 Hall)
    as Hown.
  rewrite Hloop in Hc, Hown. unfold counted in Hc. cbn [fst snd] in Hc, Hown.
  destruct (Hc self) as (Hs & Hg & Hm).
  rewrite attrs_insert in Hs, Hg, Hm. destruct (decide (self = self)) as [_|Hne]; [|congruence].
  cbn [schedule grid moved fmap option_fmap option_map] in Hs, Hg, Hm.
  assert (Hof : count_moves_of self
                  (EvCall (ScheduleAgents sched) (Returned agents)
                     :: loop ++ [EvCall (ScheduleAdvance sched) (Returned u);
                                 EvCall (StdoutWrite (pretty n +:+ " agents moved in this timestep"))
                                   (Returned u1);
                                 EvCall (StdoutWrite Py.nl) (Returned u2)])
                = count_moves_of self loop).
  { change (EvCall (ScheduleAgents sched) (Returned agents) :: ?l)
      with ([EvCall (ScheduleAgents sched) (Returned agents)] ++ l).
    rewrite !count_moves_of_app. unfold count_moves_of at 1 3, Py.len. simpl. lia. }
  assert (Hall : count_moves
                  (EvCall (ScheduleAgents sched) (Returned agents)
                     :: loop ++ [EvCall (ScheduleAdvance sched) (Returned u);
                                 EvCall (StdoutWrite (pretty n +:+ " agents moved in this timestep"))
                                   (Returned u1);
                                 EvCall (StdoutWrite Py.nl) (Returned u2)])
                = count_moves loop).
  { change (EvCall (ScheduleAgents sched) (Returned agents) :: ?l)
      with ([EvCall (ScheduleAgents sched) (Returned agents)] ++ l).
    rewrite !count_moves_app. unfold count_moves at 1 3, Py.len. simpl. lia. }
  exists sched, agents. eexists. split; [exact Hsched|]. split; [reflexivity|].
  rewrite Hof, Hall. split; [rewrite Hm; f_equal; lia|].
  split; [intros Hag; rewrite Hm, <- (Hown Hag); f_equal; lia|].
  split; [congruence|exact Hg].
Qed.

End AbmFacts.

Lemma toy_choice_returns : choice_returns toy_library.
Proof. intros options w. eexists _, _. reflexivity. Qed.

(** C3 on a 1 x 2 grid with density 0.75: the draws are 0.875 and 0.25. *)
Lemma SchellingModel_init_raises_witness :
  choice_returns toy_library /\
  existsb (low_draw 0.75)
    (trace_of toy_library (SchellingModel_init namespace_cell3 7%nat 1 2 0.75 0.5)
       (ToyWorld [0.875; 0.25]%float [] [])) = true /\
  result_of toy_library (SchellingModel_init namespace_cell3 7%nat 1 2 0.75 0.5)
    (ToyWorld [0.875; 0.25]%float [] []) = Raised unexpected_agent_type.
Proof.
  split; [exact toy_choice_returns|]. split; [reflexivity|].
  apply (SchellingModel_init_raises toy_library 7%nat 1 2 0.75 0.5
           (ToyWorld [0.875; 0.25]%float [] []) toy_choice_returns).
  reflexivity.
Defined.

(** The attributes of a [SchellingAgent] are the arguments of its
    constructor, as they were passed. *)
Lemma SchellingAgent_init_copies {W} (lib : library abm_call abm_answer W) (w : W)
    (pos : coord) (agent_type : string) (homophily : float) (model : handle) (a : agent) :
  result_of lib (SchellingAgent_init [VCoord pos; VStr agent_type; VFloat homophily; VModel model]) w
    = Returned a ->
  a = SchellingAgent pos pos agent_type homophily model.
Proof.
  unfold result_of, SchellingAgent_init, abm_lib, call_lib. simpl.
  destruct (lib (AgentInit (VCoord pos) (VModel model)) w) as [[[]|e] w1]; simpl;
    intros [= <-]. reflexivity.
Qed.

(** [SchellingAgent_init_copies] on the agent [SchellingAgent((0, 1), "square", 0.75, model)]. *)
Lemma SchellingAgent_init_copies_witness :
  exists a,
    result_of toy_library
      (SchellingAgent_init [VCoord (0, 1); VStr "square"; VFloat 0.75; VModel 0%nat])
      (ToyWorld [] [] [])
    = Returned a /\
    a = SchellingAgent (0, 1) (0, 1) "square" 0.75 0%nat.
Proof.
  eexists. split; [reflexivity|].
  apply (SchellingAgent_init_copies toy_library (ToyWorld [] [] []) (0, 1) "square" 0.75 0%nat).
  reflexivity.
Defined.

(** C1 on a square agent with [homophily] 0.75 whose neighbours are a square
    and a triangle: the mean is 0.5 and the agent is relocated. *)
Lemma SchellingAgent_step_decides_witness :
  let st : store := {[ 7%nat := ModelObj (Some 0%nat) (Some 1%nat) (Some 0) ]} in
  let neighbors := [SchellingAgent (0, 1) (0, 1) "square" 0.5 7%nat;
                    SchellingAgent (1, 1) (1, 1) "triangle" 0.5 7%nat] in
  let w := ToyWorld [] neighbors [] in
  library_calls (trace_of toy_library (SchellingAgent_step (0, 0) (0, 0) "square" 0.75 7%nat st) w)
  = [EvCall (NeighborIter 1%nat (0, 0)) (Returned neighbors);
     EvCall (NpMean [true; false]) (Returned 0.5%float);
     EvCall (MoveToEmpty 1%nat (SchellingAgent (0, 0) (0, 0) "square" 0.75 7%nat)) (Returned tt)].
Proof.
  intros st neighbors w.
  apply (SchellingAgent_step_decides toy_library (0, 0) (0, 0) "square" 0.75 7%nat st w
           1%nat neighbors w [true; false] 0.5%float w).
  - reflexivity.
  - reflexivity.
  - repeat constructor; eexists; split; reflexivity.
  - reflexivity.
Defined.

(** C1, as stated, fails: [SchellingAgent.step] makes the comparison itself.
    In one world (a square and a triangle as neighbours, so a mean of 0.5 for
    a square agent), at the same position and of the same type, the agent
    whose [homophily] is 0.25 stays and the one whose [homophily] is 0.75 is
    relocated. *)
Lemma SchellingAgent_step_compares_homophily :
  let st : store := {[ 7%nat := ModelObj (Some 0%nat) (Some 1%nat) (Some 0) ]} in
  let w := ToyWorld [] [SchellingAgent (0, 1) (0, 1) "square" 0.5 7%nat;
                        SchellingAgent (1, 1) (1, 1) "triangle" 0.5 7%nat] [] in
  existsb is_move
    (trace_of toy_library (SchellingAgent_step (0, 0) (0, 0) "square" 0.25 7%nat st) w) = false /\
  existsb is_move
    (trace_of toy_library (SchellingAgent_step (0, 0) (0, 0) "square" 0.75 7%nat st) w) = true.
Proof. split; reflexivity. Qed.

(** C10, as stated, fails: after [step()] of the model whose one scheduled
    agent is a square with [homophily] 0.75, [moved] is 1 when the neighbours
    are a triangle and a square (mean 0.5), and 0 when they are two squares
    (mean 1.0). *)
Lemma moved_depends_on_simulation :
  let st : store := {[ 7%nat := ModelObj (Some 0%nat) (Some 1%nat) None ]} in
  let a := SchellingAgent (0, 0) (0, 0) "square" 0.75 7%nat in
  let triangle := SchellingAgent (0, 1) (0, 1) "triangle" 0.5 7%nat in
  let square := SchellingAgent (1, 1) (1, 1) "square" 0.5 7%nat in
  result_of toy_library (SchellingModel_step 7%nat st) (ToyWorld [] [triangle; square] [a])
    = Returned {[ 7%nat := ModelObj (Some 0%nat) (Some 1%nat) (Some 1) ]} /\
  result_of toy_library (SchellingModel_step 7%nat st) (ToyWorld [] [square; square] [a])
    = Returned {[ 7%nat := ModelObj (Some 0%nat) (Some 1%nat) (Some 0) ]}.
Proof. split; vm_compute; reflexivity. Qed.

(** C10 on one time step: the neighbours are a square and a triangle; of the
    three scheduled agents, two are unhappy, and one of these two belongs to
    another model, whose [moved] was 5. *)
Lemma SchellingModel_step_counts_witness :
  let st : store := {[ 7%nat := ModelObj (Some 0%nat) (Some 1%nat) None;
                       8%nat := ModelObj None (Some 2%nat) (Some 5) ]} in
  let w := ToyWorld []
             [SchellingAgent (0, 1) (0, 1) "square" 0.5 7%nat;
              SchellingAgent (1, 1) (1, 1) "triangle" 0.5 7%nat]
             [SchellingAgent (0, 0) (0, 0) "square" 0.75 7%nat;
              SchellingAgent (0, 1) (0, 1) "square" 0.25 7%nat;
              SchellingAgent (1, 1) (1, 1) "triangle" 1 8%nat] in
  result_of toy_library (SchellingModel_step 7%nat st) w
    = Returned {[ 7%nat := ModelObj (Some 0%nat) (Some 1%nat) (Some 1);
                  8%nat := ModelObj None (Some 2%nat) (Some 6) ]} /\
  count_moves_of 7%nat (trace_of toy_library (SchellingModel_step 7%nat st) w) = 1 /\
  count_moves (trace_of toy_library (SchellingModel_step 7%nat st) w) = 2.
Proof.
  intros st w.
  assert (Hr : result_of toy_library (SchellingModel_step 7%nat st) w
               = Returned {[ 7%nat := ModelObj (Some 0%nat) (Some 1%nat) (Some 1);
                             8%nat := ModelObj None (Some 2%nat) (Some 6) ]})
    by (vm_compute; reflexivity).
  split; [exact Hr|].
  destruct (SchellingModel_step_counts toy_library 7%nat st w _ Hr)
    as (sched & agents & rest & _ & _ & Hm & _).
  split; [|reflexivity].
  change (attrs _ 7%nat) with (ModelObj (Some 0%nat) (Some 1%nat) (Some 1)) in Hm.
  cbn [moved] in Hm. congruence.
Defined.

(** *** The toy models, an agent without neighbours, and the drawing *)

Section MoreAbmFacts.
Context {W : Type} (lib : library abm_call abm_answer W).

Ltac abm_cases :=
  repeat (cbn [bind run lift abm_lib call_lib fst snd];
          match goal with
          | |- context [lib ?c ?w] => destruct (lib c w) as [[?|?] ?]
          end);
  cbn [bind run lift abm_lib call_lib fst snd].

Lemma instantiate_ToyAgent1 (i : Z) (self : handle) :
  instantiate namespace_cell1 "ToyAgent" [VInt i; VModel self] []
  = bind (abm_lib (AgentInit (VInt i) (VModel self))) (fun _ => Ret (ToyAgent1 i i)).
Proof. reflexivity. Qed.


Lemma scheduled_app tr1 tr2 : scheduled (tr1 ++ tr2) = scheduled tr1 ++ scheduled tr2.
Proof. apply flat_map_app. Qed.
Lemma printed_app tr1 tr2 : printed (tr1 ++ tr2) = printed tr1 ++ printed tr2.
Proof. apply flat_map_app. Qed.

(** The loop of the first [ToyModel.__init__]. *)
Lemma ToyModel1_loop self sched (indices : list Z) w :
  match run lib (for_each indices
                   (fun i _ =>
                      a <- instantiate namespace_cell1 "ToyAgent" [VInt i; VModel self] [] ;;
                      abm_lib (ScheduleAdd sched a))%prog tt) w with
  | (Returned _, _, tr) => scheduled tr = map (fun i => (sched, ToyAgent1 i i)) indices
  | (Raised _, _, _) => True
  end.
Proof.
  revert w. induction indices as [|i indices IH]; intros w; [reflexivity|].
  rewrite run_for_each_cons by (rewrite instantiate_ToyAgent1; unfold abm_lib; hf).
  rewrite instantiate_ToyAgent1.
  cbn [bind run lift abm_lib call_lib fst snd].
  destruct (lib (AgentInit (VInt i) (VModel self)) w) as [[u|e] w1]; [|exact I].
  cbn [bind run].
  destruct (lib (ScheduleAdd sched (ToyAgent1 i i)) w1) as [[u'|e] w2]; [|exact I].
  destruct u'. specialize (IH w2).
  destruct (run lib (for_each indices _ tt) w2) as [[[u''|e] w3] tr]; [|exact I].
  cbn [app map]. unfold scheduled in *. cbn [flat_map app]. rewrite IH. reflexivity.
Qed.



(** What one agent prints in its [step()], when the step returns. *)
Lemma agent_step_prints a st w :
  match run lib (agent_step a st) w with
  | (Returned _, _, tr) => printed tr = greeting a
  | (Raised _, _, _) => True
  end.
Proof.
  unfold agent_step, ToyAgent1_step, ToyAgent2_step, print, SchellingAgent_step.
  destruct a as [uid name|uid pos|uid pos type homophily model].
  - abm_cases; auto.
  - abm_cases; auto.
  - destruct (grid (attrs st model)) as [g|]; cbn [getattr lift bind run]; [|exact I].
    cbn [abm_lib call_lib bind run].
    destruct (lib (NeighborIter g pos) w) as [[neighbors|e] w1]; [|exact I].
    destruct (Py.for_in neighbors _ []) as [same|e]; cbn [lift bind run]; [|exact I].
    destruct (lib (NpMean same) w1) as [[pct|e] w2]; [|exact I].
    destruct (PrimFloat.ltb pct homophily); cbn [lift bind run]; [|reflexivity].
    destruct (lib (MoveToEmpty g _) w2) as [[u|e] w3]; [|exact I].
    destruct (moved (attrs st model)); cbn [getattr lift bind run]; [reflexivity|exact I].
Qed.

Lemma agents_loop_prints agents st w :
  match run lib (for_each agents agent_step st) w with
  | (Returned _, _, tr) => printed tr = flat_map greeting agents
  | (Raised _, _, _) => True
  end.
Proof.
  revert st w. induction agents as [|a agents IH]; intros st w; [reflexivity|].
  rewrite run_for_each_cons by apply handler_free_agent_step.
  pose proof (agent_step_prints a st w) as Ha.
  destruct (run lib (agent_step a st) w) as [[[st1|e] w1] tr1]; [|exact I].
  specialize (IH st1 w1).
  destruct (run lib (for_each agents agent_step st1) w1) as [[[st2|e] w2] tr2]; [|exact I].
  rewrite printed_app, Ha, IH. reflexivity.
Qed.

(** When [ToyModel.step()] returns, it has asked the scheduler for the
    agents and printed one greeting for each [ToyAgent] among them, in the
    order the scheduler gave them, and nothing else. *)
Theorem ToyModel_step_greets self st w st' :
  result_of lib (ToyModel_step self st) w = Returned st' ->
  exists sched agents rest,
    schedule (attrs st self) = Some sched /\
    trace_of lib (ToyModel_step self st) w
    = EvCall (ScheduleAgents sched) (Returned agents) :: rest /\
    printed (trace_of lib (ToyModel_step self st) w) = flat_map greeting agents.
Proof.
  unfold result_of, trace_of, ToyModel_step, schedule_step.
  destruct (schedule (attrs st self)) as [sched|]; cbn [getattr lift bind]; [|simpl; discriminate].
  cbn [abm_lib call_lib bind run].
  destruct (lib (ScheduleAgents sched) w) as [[agents|e] w1]; [|simpl; discriminate].
  rewrite run_bind by (apply handler_free_for_each; intros; apply handler_free_agent_step).
  pose proof (agents_loop_prints agents st w1) as Hl.
  destruct (run lib (for_each agents agent_step st) w1) as [[[st1|e] w2] tr]; [|simpl; discriminate].
  cbn [run].
  destruct (lib (ScheduleAdvance sched) w2) as [[u|e] w3]; [|simpl; discriminate].
  cbn [run fst snd]. intros _. exists sched, agents. eexists. split; [reflexivity|].
  split; [reflexivity|].
  change (printed (EvCall (ScheduleAgents sched) (Returned agents)
                     :: tr ++ [EvCall (ScheduleAdvance sched) (Returned u)]))
    with (printed (tr ++ [EvCall (ScheduleAdvance sched) (Returned u)])).
  rewrite printed_app, Hl. apply app_nil_r.
Qed.





(** No number is above not-a-number. *)
Lemma nan_not_below (h : float) : PrimFloat.ltb (mean_of []) h = false.
Proof.
  rewrite ltb_spec. change (Prim2SF (mean_of [])) with S754_nan. reflexivity.
Qed.

(** An agent without neighbours never moves, whatever its [homophily]: the
    mean of no values is not a number, and the comparison with it is false.
    The step returns the model objects as they were, after the two calls. *)
Theorem isolated_agent_stays unique_id pos type homophily model st g w w1 w2 :
  grid (attrs st model) = Some g ->
  lib (NeighborIter g pos) w = (Returned [], w1) ->
  lib (NpMean []) w1 = (Returned (mean_of []), w2) ->
  run lib (SchellingAgent_step unique_id pos type homophily model st) w
  = (Returned st, w2,
     [EvCall (NeighborIter g pos) (Returned []); EvCall (NpMean []) (Returned (mean_of []))]).
Proof.
  intros Hg Hn Hm. unfold SchellingAgent_step. rewrite Hg.
  cbn [getattr lift bind abm_lib call_lib run]. rewrite Hn.
  cbn [Py.for_in lift bind run]. rewrite Hm, nan_not_below. reflexivity.
Qed.


(** When [SchellingModel.step()] returns, it has asked the scheduler for
    the agents of the model's schedule and printed what those agents print
    (nothing, for [SchellingAgent]s), in the order the scheduler gave them,
    and then one line that reports the number of relocations of the time
    step by agents whose [self.model] is this model. *)
Theorem SchellingModel_step_reports self st w st' :
  result_of lib (SchellingModel_step self st) w = Returned st' ->
  exists sched agents rest,
    schedule (attrs st self) = Some sched /\
    trace_of lib (SchellingModel_step self st) w
    = EvCall (ScheduleAgents sched) (Returned agents) :: rest /\
    printed (trace_of lib (SchellingModel_step self st) w)
    = flat_map greeting agents
        ++ [pretty (count_moves_of self (trace_of lib (SchellingModel_step self st) w))
              +:+ " agents moved in this timestep"; Py.nl].
Proof.
  unfold result_of, trace_of. pose proof (SchellingModel_step_run lib self st w) as Hrun.
  destruct (run lib (SchellingModel_step self st) w) as [[[st1|e] w'] tr]; cbn [fst snd];
    [|discriminate].
  intros [= <-].
  destruct Hrun as (sched & agents & loop & u & n & w1 & w2 & u1 & u2 & Hsched & Hloop & Hn & ->).
  pose proof (agents_loop_counted lib agents
                (<[ self := ModelObj (Some sched) (grid (attrs st self)) (Some 0) ]> st) w1) as Hc.
  pose proof (agents_loop_prints agents
                (<[ self := ModelObj (Some sched) (grid (attrs st self)) (Some 0) ]> st) w1) as Hp.
  rewrite Hloop in Hc, Hp. unfold counted in Hc. cbn [fst snd] in Hc.
  destruct (Hc self) as (_ & _ & Hm).
  rewrite attrs_insert in Hm. destruct (decide (self = self)) as [_|Hne]; [|congruence].
  cbn [moved fmap option_fmap option_map] in Hm.
  exists sched, agents. eexists. split; [exact Hsched|]. split; [reflexivity|].
  change (EvCall (ScheduleAgents sched) (Returned agents) :: ?l)
    with ([EvCall (ScheduleAgents sched) (Returned agents)] ++ l).
  rewrite !printed_app, !count_moves_of_app, Hp.
  cbn [printed flat_map app].
  replace (count_moves_of self [EvCall (ScheduleAgents sched) (Returned agents)]
           + (count_moves_of self loop + count_moves_of self _))
    with n; [reflexivity|].
  rewrite Hn in Hm. injection Hm as ->.
  unfold count_moves_of at 2 4, Py.len. simpl. lia.
Qed.
End MoreAbmFacts.



(** [ToyModel_step_greets] on a schedule of two agents. *)
Lemma ToyModel_step_greets_witness :
  let st : store := {[ 7%nat := ModelObj (Some 0%nat) None None ]} in
  let w := ToyWorld [] [] [ToyAgent1 1 1; ToyAgent1 0 0] in
  exists sched agents rest,
    schedule (attrs st 7%nat) = Some sched /\
    trace_of toy_library (ToyModel_step 7%nat st) w
      = EvCall (ScheduleAgents sched) (Returned agents) :: rest /\
    printed (trace_of toy_library (ToyModel_step 7%nat st) w) = flat_map greeting agents.
Proof.
  intros st w. apply (ToyModel_step_greets toy_library 7%nat st w st). reflexivity.
Defined.

(** [SchellingModel_step_reports] on a time step in which two of three
    agents move, one of them an agent of another model. *)
Lemma SchellingModel_step_reports_witness :
  let st : store := {[ 7%nat := ModelObj (Some 0%nat) (Some 1%nat) None;
                       8%nat := ModelObj None (Some 2%nat) (Some 5) ]} in
  let w := ToyWorld []
             [SchellingAgent (0, 1) (0, 1) "square" 0.5 7%nat;
              SchellingAgent (1, 1) (1, 1) "triangle" 0.5 7%nat]
             [SchellingAgent (0, 0) (0, 0) "square" 0.75 7%nat;
              SchellingAgent (0, 1) (0, 1) "square" 0.25 7%nat;
              SchellingAgent (1, 1) (1, 1) "triangle" 1 8%nat] in
  exists sched agents rest,
    schedule (attrs st 7%nat) = Some sched /\
    trace_of toy_library (SchellingModel_step 7%nat st) w
    = EvCall (ScheduleAgents sched) (Returned agents) :: rest /\
    printed (trace_of toy_library (SchellingModel_step 7%nat st) w)
    = flat_map greeting agents
        ++ [pretty (count_moves_of 7%nat (trace_of toy_library (SchellingModel_step 7%nat st) w))
              +:+ " agents moved in this timestep"; Py.nl].
Proof.
  intros st w.
  apply (SchellingModel_step_reports toy_library 7%nat st w
           {[ 7%nat := ModelObj (Some 0%nat) (Some 1%nat) (Some 1);
              8%nat := ModelObj None (Some 2%nat) (Some 6) ]}).
  vm_compute. reflexivity.
Defined.

(** [isolated_agent_stays] on an agent with [homophily] 1.0. *)
Lemma isolated_agent_stays_witness :
  let st : store := {[ 7%nat := ModelObj (Some 0%nat) (Some 1%nat) (Some 0) ]} in
  run toy_library (SchellingAgent_step (0, 0) (0, 0) "square" 1 7%nat st) (ToyWorld [] [] [])
  = (Returned st, ToyWorld [] [] [],
     [EvCall (NeighborIter 1%nat (0, 0)) (Returned []);
      EvCall (NpMean []) (Returned (mean_of []))]).
Proof.
  intros st.
  apply (isolated_agent_stays toy_library (0, 0) (0, 0) "square" 1 7%nat st 1%nat
           (ToyWorld [] [] []) (ToyWorld [] [] []) (ToyWorld [] [] [])); reflexivity.
Defined.

(** *** A model made and then stepped *)

Section ToyRunFacts.
Context {W : Type} (lib : library abm_call abm_answer W) (added : W -> handle -> list agent).
Hypothesis Hlib : schedule_contract lib added.

Lemma flat_map_of_map {X Y Z} (f : X -> Y) (g : Y -> list Z) (l : list X) :
  flat_map g (map f l) = flat_map (fun x => g (f x)) l.
Proof. induction l as [|x l IH]; [reflexivity|]. cbn [map flat_map]. rewrite IH. reflexivity. Qed.

Lemma added_to_app s tr1 tr2 : added_to s (tr1 ++ tr2) = added_to s tr1 ++ added_to s tr2.
Proof. apply flat_map_app. Qed.

(** The agents of a schedule after a run are those before and those the
    run added. *)
Lemma added_after_run {A} (p : abm_prog A) (w : W) (s : handle) :
  handler_free p ->
  added (world_after lib p w) s = added w s ++ added_to s (trace_of lib p w).
Proof.
  intros Hp. revert w. unfold world_after, trace_of.
  induction Hp as [A a|A e|A c k Hk IH]; intros w; cbn [run fst snd].
  - cbn. rewrite app_nil_r. reflexivity.
  - cbn. rewrite app_nil_r. reflexivity.
  - pose proof (add_appends lib added Hlib c w s) as Hc.
    destruct (lib c w) as [[x|e] w1]; cbn [fst snd] in *.
    + specialize (IH x w1). destruct (run lib (k x) w1) as [[o w2] tr]. cbn [fst snd] in *.
      rewrite IH, Hc, <- app_assoc.
      change (EvCall c (Returned x) :: tr) with ([EvCall c (Returned x)] ++ tr).
      rewrite added_to_app. reflexivity.
    + exact Hc.
Qed.

(** In a run that returned, every call of [add] returned: when all of them
    were for the schedule [s], the run added to [s] what it scheduled. *)
Lemma returned_run_added {A} (p : abm_prog A) (w : W) (a : A) (s : handle) :
  handler_free p ->
  result_of lib p w = Returned a ->
  Forall (fun sa => sa.1 = s) (scheduled (trace_of lib p w)) ->
  added_to s (trace_of lib p w) = map snd (scheduled (trace_of lib p w)).
Proof.
  intros Hp Hr. pose proof (handler_free_propagated lib p w Hp) as Hprop.
  rewrite Hr in Hprop. unfold propagated in Hprop.
  induction (trace_of lib p w) as [|ev tr IH]; [reflexivity|].
  change (ev :: tr) with ([ev] ++ tr).
  rewrite added_to_app, scheduled_app, map_app. intros [H1 H2]%Forall_app.
  rewrite IH; [|intros ev' e Hin; apply Hprop; right; exact Hin|exact H2].
  f_equal. destruct ev as [c [x|e]| |]; try reflexivity.
  - destruct c; try reflexivity. cbn in H1. apply Forall_inv in H1. cbn in H1. subst.
    cbn. rewrite Nat.eqb_refl. reflexivity.
  - specialize (Hprop (EvCall c (Raised e)) e ltac:(left) eq_refl). discriminate.
Qed.

Lemma handler_free_ToyModel1 self n_agents :
  handler_free (ToyModel1_init namespace_cell1 self n_agents).
Proof. unfold ToyModel1_init, abm_lib. hf_abm. Qed.


(** [TM.step()] greets the agents of the schedule of [TM], each once and
    as it is by then. *)
Lemma step_greets_schedule self st sched w st' :
  schedule (attrs st self) = Some sched ->
  result_of lib (ToyModel_step self st) w = Returned st' ->
  exists current agents,
    Forall2 same_object (added w sched) current /\ agents ≡ₚ current /\
    printed (trace_of lib (ToyModel_step self st) w) = flat_map greeting agents.
Proof.
  unfold result_of, trace_of, ToyModel_step, schedule_step. intros ->.
  cbn [getattr lift bind]. cbn [abm_lib call_lib bind run].
  pose proof (agents_shuffled lib added Hlib sched w) as Hp.
  destruct (lib (ScheduleAgents sched) w) as [[agents|e] w1]; [|simpl; discriminate].
  rewrite run_bind by (apply handler_free_for_each; intros; apply handler_free_agent_step).
  pose proof (agents_loop_prints lib agents st w1) as Hl.
  destruct (run lib (for_each agents agent_step st) w1) as [[[st1|e] w2] tr]; [|simpl; discriminate].
  cbn [run].
  destruct (lib (ScheduleAdvance sched) w2) as [[u|e] w3]; [|simpl; discriminate].
  cbn [run fst snd]. intros _.
  destruct (Hp agents eq_refl) as (current & Hcur & Hperm).
  exists current, agents. split; [exact Hcur|]. split; [exact Hperm|].
  change (EvCall (ScheduleAgents sched) (Returned agents) :: ?l)
    with ([EvCall (ScheduleAgents sched) (Returned agents)] ++ l).
  rewrite !printed_app, Hl. cbn [printed flat_map app]. apply app_nil_r.
Qed.

(** An agent of the first cell has no [pos] for a grid to set. *)
Lemma same_object_ToyAgent1 (names : list Z) (current : list agent) :
  Forall2 same_object (map (fun i => ToyAgent1 i i) names) current ->
  current = map (fun i => ToyAgent1 i i) names.
Proof.
  revert current. induction names as [|i names IH]; intros current Hc.
  - inversion Hc. reflexivity.
  - cbn [map] in Hc. inversion Hc as [|a b l l' Hab Hl]; subst.
    destruct b as [u n| |]; cbn [same_object] in Hab; try contradiction.
    destruct Hab as [<- <-]. cbn [map]. f_equal. apply IH. exact Hl.
Qed.


(** A run of the first [ToyModel.__init__] that returned: the schedule of the
    model is the new one, and the agents went to it. *)
Lemma ToyModel1_init_run self n_agents w :
  match run lib (ToyModel1_init namespace_cell1 self n_agents) w with
  | (Returned m, _, tr) =>
      exists sched,
        (lib (RandomActivation self) w).1 = Returned sched /\
        schedule m = Some sched /\
        scheduled tr = map (fun i => (sched, ToyAgent1 i i)) (Py.range1 n_agents)
  | (Raised _, _, _) => True
  end.
Proof.
  unfold ToyModel1_init. cbn [bind abm_lib call_lib run].
  destruct (lib (RandomActivation self) w) as [[sched|e] w1]; [|exact I].
  rewrite run_bind
    by (apply handler_free_for_each; intros; rewrite instantiate_ToyAgent1; unfold abm_lib; hf).
  pose proof (ToyModel1_loop lib self sched (Py.range1 n_agents) w1) as Hl.
  destruct (run lib (for_each (Py.range1 n_agents) _ tt) w1) as [[[u|e] w2] tr]; [|exact I].
  cbn [run fst snd]. exists sched. split; [reflexivity|]. split; [reflexivity|].
  rewrite app_nil_r. exact Hl.
Qed.



(** First cell, [TM = ToyModel(n_agents)] and then [TM.step()], with a
    scheduler that keeps its promises: when both return, the step has printed
    one greeting for each of the agents 0 to [n_agents - 1], each once, in
    the order the scheduler chose. *)
Theorem ToyModel_greets_each_agent self n_agents w TM st st' :
  result_of lib (ToyModel1_init namespace_cell1 self n_agents) w = Returned TM ->
  result_of lib (ToyModel_step self (<[ self := TM ]> st))
    (world_after lib (ToyModel1_init namespace_cell1 self n_agents) w) = Returned st' ->
  exists names,
    names ≡ₚ Py.range1 n_agents /\
    printed (trace_of lib (ToyModel_step self (<[ self := TM ]> st))
               (world_after lib (ToyModel1_init namespace_cell1 self n_agents) w))
    = flat_map (fun i => greeting (ToyAgent1 i i)) names.
Proof.
  intros Hinit Hstep.
  pose proof (ToyModel1_init_run self n_agents w) as Hrun.
  pose proof (fun s => added_after_run _ w s (handler_free_ToyModel1 self n_agents)) as Hadd.
  pose proof (fun s => returned_run_added _ w TM s (handler_free_ToyModel1 self n_agents) Hinit)
    as Hret.
  unfold result_of, world_after, trace_of in *.
  destruct (run lib (ToyModel1_init namespace_cell1 self n_agents) w) as [[o w1] tr].
  cbn [fst snd] in *. subst o. destruct Hrun as (sched & Hnew & Hsched & Htr).
  assert (Hs : schedule (attrs (<[ self := TM ]> st) self) = Some sched).
  { rewrite attrs_insert. destruct (decide (self = self)); [exact Hsched|congruence]. }
  destruct (step_greets_schedule self _ sched w1 st' Hs Hstep) as (current & agents & Hcur & Hp & Hpr).
  rewrite Hadd, (new_schedule_empty lib added Hlib _ _ _ Hnew), Hret in Hcur.
  - rewrite Htr in Hcur. cbn [app] in Hcur. rewrite map_map in Hcur. cbn [snd] in Hcur.
    apply same_object_ToyAgent1 in Hcur. subst current.
    apply Permutation_map_inv in Hp as (names & -> & Hn).
    exists names. split; [symmetry; exact Hn|].
    unfold trace_of in Hpr. rewrite Hpr. apply flat_map_of_map.
  - rewrite Htr. apply Forall_map, Forall_forall. reflexivity.
Qed.


End ToyRunFacts.

(** The example world keeps the promises of the scheduler. *)
Lemma schedules_library_contract : schedule_contract schedules_library schedule_agents.
Proof.
  split.
  - intros c w s. unfold schedule_agents, handle in *.
    destruct c; try (cbn; rewrite app_nil_r; reflexivity).
    + cbn [schedules_library fst snd added_to flat_map app]. rewrite app_nil_r.
      destruct (decide (s < length w)%nat) as [Hs|Hs].
      * rewrite (lookup_app_l w [[]] s Hs). reflexivity.
      * rewrite (lookup_ge_None_2 w s) by lia.
        rewrite (lookup_app_r w [[]] s) by lia.
        destruct (s - length w)%nat as [|n]; reflexivity.
    + cbn [schedules_library]. unfold handle in *.
      destruct (w !! sched) as [l|] eqn:Hl; cbn [fst snd added_to flat_map app].
      * destruct (Nat.eqb_spec sched s) as [->|Hne].
        -- rewrite list_lookup_alter_eq, Hl. reflexivity.
        -- rewrite list_lookup_alter_ne by exact Hne. rewrite app_nil_r. reflexivity.
      * rewrite app_nil_r. reflexivity.
  - intros m w s [= <-]. unfold schedule_agents. rewrite lookup_ge_None_2 by lia. reflexivity.
  - intros s w agents [= <-]. unfold schedule_agents. exists (default [] (w !! s)). split.
    + apply Forall2_same_length_lookup_2; [reflexivity|].
      intros i a b Ha Hb. rewrite Ha in Hb. injection Hb as <-.
      destruct a; cbn [same_object]; auto.
    + apply reverse_Permutation.
Qed.




(** [ToyModel_greets_each_agent] on [ToyModel(3)], the agents greeted last
    first. *)
Lemma ToyModel_greets_each_agent_witness :
  exists names,
    names ≡ₚ Py.range1 3 /\
    printed (trace_of schedules_library
               (ToyModel_step 7%nat (<[ 7%nat := ModelObj (Some 0%nat) None None ]> ∅))
               (world_after schedules_library (ToyModel1_init namespace_cell1 7%nat 3) []))
    = flat_map (fun i => greeting (ToyAgent1 i i)) names.
Proof.
  apply (ToyModel_greets_each_agent schedules_library schedule_agents
           schedules_library_contract 7%nat 3 [] (ModelObj (Some 0%nat) None None) ∅
           (<[ 7%nat := ModelObj (Some 0%nat) None None ]> ∅)); vm_compute; reflexivity.
Defined.


(** In that run the scheduler answers the agent made for (0, 1) first, now at
    (0, 0), and then the agent made for (0, 0), now at (0, 1); each greeting
    shows the cell the grid chose, not the [(x, y)] the constructor passed. *)
Lemma ToyModel_greeting_shows_grid_choice :
  trace_of moving_library
    (ToyModel_step 7%nat (<[ 7%nat := ModelObj (Some 0%nat) (Some 0%nat) None ]> ∅))
    (world_after moving_library (ToyModel2_init namespace_cell2 7%nat 1 2 0.5%float) [])
  = [EvCall (ScheduleAgents 0%nat)
       (Returned [ToyAgent2 (0, 1) (0, 0); ToyAgent2 (0, 0) (0, 1)]);
     EvCall (StdoutWrite "Hi, I'm an agent at (0, 0)!") (Returned tt);
     EvCall (StdoutWrite Py.nl) (Returned tt);
     EvCall (StdoutWrite "Hi, I'm an agent at (0, 1)!") (Returned tt);
     EvCall (StdoutWrite Py.nl) (Returned tt);
     EvCall (ScheduleAdvance 0%nat) (Returned tt)].
Proof. vm_compute. reflexivity. Qed.


Section VizFacts.
Context {W : Type} (lib : library abm_call abm_answer W).

Lemma viz_cell_draws G to_viz i j w :
  forallb draws_only (run lib (viz_cell G to_viz i j tt) w).2 = true.
Proof.
  unfold viz_cell. cbn [abm_lib call_lib bind run].
  destruct (lib (ArrGet G i j) w) as [[[a|]|e] w1]; cbn [run snd]; try reflexivity.
  cbn [bind run].
  destruct (lib (ArrGet G i j) w1) as [[cell|e] w2]; cbn [run snd]; try reflexivity.
  destruct (outcome_bind (getattr "NoneType" "type" cell) agent_type) as [t|e];
    cbn [lift bind run snd]; try reflexivity.
  destruct (String.eqb t "triangle").
  - cbn [abm_lib call_lib run]. destruct (lib (ArrSet to_viz i j 1) w2) as [[u|e] w3]; reflexivity.
  - cbn [abm_lib call_lib bind run].
    destruct (lib (ArrGet G i j) w2) as [[cell'|e] w3]; cbn [run snd]; try reflexivity.
    destruct (outcome_bind (getattr "NoneType" "type" cell') agent_type) as [t'|e];
      cbn [lift bind run snd]; try reflexivity.
    destruct (String.eqb t' "square"); [|reflexivity].
    cbn [abm_lib call_lib run]. destruct (lib (ArrSet to_viz i j 2) w3) as [[u|e] w4]; reflexivity.
Qed.

(** A loop whose turns cause only events of one kind causes only such events. *)
Lemma for_each_events {X S} (P : abm_event -> bool) (xs : list X) (body : X -> S -> abm_prog S)
    (s : S) (w : W) :
  (forall x s', handler_free (body x s')) ->
  (forall x s' w', forallb P (run lib (body x s') w').2 = true) ->
  forallb P (run lib (for_each xs body s) w).2 = true.
Proof.
  intros Hhf Hb. revert s w. induction xs as [|x xs IH]; intros s w; [reflexivity|].
  rewrite run_for_each_cons by apply Hhf.
  pose proof (Hb x s w) as Hx.
  destruct (run lib (body x s) w) as [[[s1|e] w1] tr1]; cbn [snd] in *; [|exact Hx].
  specialize (IH s1 w1).
  destruct (run lib (for_each xs body s1) w1) as [[o w2] tr2]. cbn [snd] in *.
  rewrite List.forallb_app, Hx, IH. reflexivity.
Qed.

Lemma handler_free_viz_cell G to_viz i j u : handler_free (viz_cell G to_viz i j u).
Proof. unfold viz_cell, abm_lib. hf. Qed.

Lemma handler_free_viz_row G to_viz i u : handler_free (viz_row G to_viz i u).
Proof. unfold viz_row, abm_lib. hf. Qed.

Lemma viz_row_draws G to_viz i w :
  forallb draws_only (run lib (viz_row G to_viz i tt) w).2 = true.
Proof.
  unfold viz_row. cbn [abm_lib call_lib bind run].
  destruct (lib (Shape G) w) as [[shape|e] w1]; cbn [snd]; [|reflexivity].
  destruct (Py.getitem "tuple" shape 1) as [cols|e]; cbn [lift bind run]; [|reflexivity].
  pose proof (for_each_events draws_only (Py.range1 cols) (viz_cell G to_viz i) tt w1
                (handler_free_viz_cell G to_viz i)) as Hl.
  destruct (run lib (for_each (Py.range1 cols) (viz_cell G to_viz i) tt) w1) as [[o w2] tr].
  cbn [snd forallb draws_only andb] in *. apply Hl.
  intros j [] w'. apply viz_cell_draws.
Qed.

Lemma viz_state_rows SM ax :
  viz_state SM ax =
  (g <- lift (getattr "SchellingModel" "grid" (grid SM)) ;;
   G <- abm_lib (NpArray g) ;;
   shape <- abm_lib (Shape G) ;;
   to_viz <- abm_lib (NpZeros shape) ;;
   shape <- abm_lib (Shape G) ;;
   rows <- lift (Py.getitem "tuple" shape 0) ;;
   for_each (Py.range1 rows) (viz_row G to_viz) tt ;;;
   abm_lib (Imshow ax to_viz))%prog.
Proof. reflexivity. Qed.

(** [viz_state] only reads and draws: whatever the library answers, it reads
    the grid and its shape, makes one new array, sets cells of it to 1.0 or
    2.0, and draws it; it never schedules, places or moves an agent. *)
Theorem viz_state_draws_only SM ax w :
  forallb draws_only (trace_of lib (viz_state SM ax) w) = true.
Proof.
  unfold trace_of. rewrite viz_state_rows.
  destruct (grid SM) as [g|]; cbn [getattr lift bind]; [|reflexivity].
  cbn [abm_lib call_lib bind run].
  destruct (lib (NpArray g) w) as [[G|e] w1]; cbn [snd]; [|reflexivity].
  destruct (lib (Shape G) w1) as [[shape|e] w2]; cbn [snd]; [|reflexivity].
  destruct (lib (NpZeros shape) w2) as [[to_viz|e] w3]; cbn [snd]; [|reflexivity].
  destruct (lib (Shape G) w3) as [[shape'|e] w4]; cbn [snd]; [|reflexivity].
  destruct (Py.getitem "tuple" shape' 0) as [rows|e]; cbn [lift bind run]; [|reflexivity].
  rewrite run_bind by (apply handler_free_for_each; intros; apply handler_free_viz_row).
  pose proof (for_each_events draws_only (Py.range1 rows) (viz_row G to_viz) tt w4
                (handler_free_viz_row G to_viz)) as Hl.
  destruct (run lib (for_each (Py.range1 rows) (viz_row G to_viz) tt) w4) as [[[u|e] w5] tr];
    cbn [snd forallb draws_only andb] in *.
  - cbn [abm_lib call_lib run].
    destruct (lib (Imshow ax to_viz) w5) as [[u'|e] w6]; cbn [snd forallb draws_only andb];
      rewrite List.forallb_app, Hl by (intros i [] w'; apply viz_row_draws); reflexivity.
  - apply Hl. intros i [] w'. apply viz_row_draws.
Qed.
End VizFacts.

End Abm1Facts.

(* ================================================================= *)
(** ** All functions of the repository *)

Module RepositoryFacts.
Import Abm1Facts.

Lemma call_free_lift {call : Type} {answer : call -> Type} {A : Type} (o : outcome A) :
  call_free (@lift call answer A o).
Proof. destruct o; constructor. Qed.

Lemma handler_free_task (tg : Perf.thread_target) : handler_free (Perf.target_body tg).
Proof.
  destruct tg; unfold Perf.target_body, Perf.task1, Perf.task2, Perf.print, Perf.print_empty,
    Perf.perf_lib; hf.
Qed.

Lemma handler_free_sample preds temp : handler_free (Tf5.sample preds temp).
Proof. unfold Tf5.sample, Tf5.tf_lib. hf. Qed.

Lemma handler_free_generate_string g seed_index temp gen_length model :
  handler_free (Tf5.generate_string g seed_index temp gen_length model).
Proof. unfold Tf5.generate_string, Tf5.tf_lib. hf; apply handler_free_sample. Qed.

Lemma handler_free_prepare_df df : handler_free (Sql1.prepare_df df).
Proof. unfold Sql1.prepare_df, Sql1.pd_lib. hf. Qed.

Lemma handler_free_ToyModel1_init self n_agents :
  handler_free (Abm1.ToyModel1_init Abm1.namespace_cell1 self n_agents).
Proof.
  unfold Abm1.ToyModel1_init, Abm1.abm_lib. hf_abm.
Qed.

Lemma handler_free_ToyModel2_init self width height density :
  handler_free (Abm1.ToyModel2_init Abm1.namespace_cell2 self width height density).
Proof.
  unfold Abm1.ToyModel2_init, Abm1.abm_lib. hf_abm.
Qed.

Lemma handler_free_SchellingModel_init self width height density homophily :
  handler_free (Abm1.SchellingModel_init Abm1.namespace_cell3 self width height density homophily).
Proof.
  unfold Abm1.SchellingModel_init, Abm1.abm_lib. hf_abm.
Qed.

Lemma handler_free_SchellingModel_step self st :
  handler_free (Abm1.SchellingModel_step self st).
Proof.
  unfold Abm1.SchellingModel_step.
  apply handler_free_bind; [apply handler_free_schedule_step|intros st'].
  hf_abm.
Qed.

Lemma handler_free_viz_state SM ax : handler_free (Abm1.viz_state SM ax).
Proof. unfold Abm1.viz_state, Abm1.abm_lib. hf. Qed.

(** The next function of the repository has the property, by [tac]. *)
Ltac entry tac :=
  apply Forall_cons; split;
  [ intros args; unfold builtin_function, raising_function; cbn [rf_body]; solve [tac] |].

(** A body that starts with a call of an imported module has a run with
    that call: the one in which the call raises. *)
Lemma starts_with_import_run {call : Type} {answer : call -> Type} {A : Type}
    (builtin : call -> bool) (p : prog call answer A) :
  starts_with_import builtin p = true ->
  exists (c : call) (r : outcome (answer c)),
    EvCall c r ∈ trace_of failing_library p tt /\ builtin c = false.
Proof.
  destruct p as [A a|A e|A c k|A B body handler k]; try discriminate.
  cbn [starts_with_import]. intros Hc%negb_true_iff.
  exists c, (Raised (Exn "Exception" "")). split; [|exact Hc].
  unfold trace_of. cbn. apply list_elem_of_here.
Qed.

(** The event is one of the listed ones: each case, by computation. *)
Ltac only_members :=
  repeat match goal with
  | H : _ ∈ [] |- _ => inversion H
  | H : EvCall _ _ ∈ _ :: _ |- _ => inversion H; clear H; subst; try reflexivity
  end.

(** [print] calls the output stream only. *)
Lemma print_import_free {W : Type} (lib : library Abm1.abm_call Abm1.abm_answer W) (w : W)
    (s : string) (c : Abm1.abm_call) (r : outcome (Abm1.abm_answer c)) :
  EvCall c r ∈ trace_of lib (Abm1.print s) w -> abm_builtin c = true.
Proof.
  unfold trace_of, Abm1.print, Abm1.abm_lib, call_lib. cbn [bind run].
  destruct (lib (Abm1.StdoutWrite s) w) as [[u|e] w1]; cbn [run fst snd].
  - destruct (lib (Abm1.StdoutWrite Py.nl) w1) as [[u1|e] w2]; cbn [fst snd];
      intros Hin; only_members.
  - intros Hin; only_members.
Qed.

Section RepositoryFacts.
Context (K : Type) `{Countable K}.

Lemma repository_handler_free :
  Forall (fun f => forall args, handler_free (rf_body f args)) (repository K).
Proof.
  unfold repository.
  entry ltac:(apply hf_Ret).
  entry ltac:(apply hf_Ret).
  entry ltac:(apply hf_Ret).
  entry ltac:(apply hf_Ret).
  entry ltac:(unfold Perf.count_list4; hf).
  entry ltac:(apply handler_free_lift).
  entry ltac:(apply hf_Ret).
  entry ltac:(apply (handler_free_task Perf.target_task1)).
  entry ltac:(apply (handler_free_task Perf.target_task2)).
  entry ltac:(apply handler_free_lift).
  entry ltac:(apply handler_free_sample).
  entry ltac:(apply handler_free_generate_string).
  entry ltac:(apply handler_free_prepare_df).
  entry ltac:(apply handler_free_ToyAgent1_init).
  entry ltac:(apply handler_free_print).
  entry ltac:(apply handler_free_ToyModel1_init).
  entry ltac:(apply handler_free_schedule_step).
  entry ltac:(apply handler_free_ToyAgent2_init).
  entry ltac:(apply handler_free_print).
  entry ltac:(apply handler_free_ToyModel2_init).
  entry ltac:(apply handler_free_schedule_step).
  entry ltac:(apply handler_free_SchellingAgent_init).
  entry ltac:(apply handler_free_SchellingAgent_step).
  entry ltac:(apply handler_free_SchellingModel_init).
  entry ltac:(apply handler_free_SchellingModel_step).
  entry ltac:(apply handler_free_viz_state).
  apply Forall_nil. exact I.
Qed.

(** C5.  No failure is handled or transformed by the repository's own code.
    No function or method of the repository has an exception handler in its
    body; so, in every environment, an exception raised while the function
    runs (by a library call, or by an operation of the runtime in the body)
    is the outcome of the function: it reaches the caller as it was raised. *)
Theorem errors_propagate_unchanged :
  Forall (fun f =>
            forall args : rf_args f,
              handler_free (rf_body f args) /\
              forall (W : Type) (lib : library (rf_call f) (rf_answer f) W) (w : W),
                propagated (result_of lib (rf_body f args) w) (trace_of lib (rf_body f args) w))
         (repository K).
Proof.
  eapply Forall_impl; [apply repository_handler_free|].
  intros f Hf args. split; [apply Hf|].
  intros W lib w. apply handler_free_propagated, Hf.
Qed.


(** The next function of the repository is of the kind its name says, by [tac]. *)
Ltac kind tac :=
  apply Forall_cons; split;
  [ unfold builtin_function, raising_function; cbn [rf_name];
    repeat match goal with
    | |- context [bool_decide ?P] =>
        let b := eval vm_compute in (bool_decide P) in change (bool_decide P) with b
    end;
    cbv iota; solve [tac] |].

Ltac no_library := intros args; cbn [rf_body]; first [apply cf_Ret | apply call_free_lift].

Ltac only_prints :=
  intros args W lib w c r; cbn [rf_body rf_builtin rf_call rf_answer];
  apply print_import_free.

Ltac some_import args :=
  exists args, unit, failing_library, tt; cbn [rf_body rf_builtin rf_call rf_answer];
  apply starts_with_import_run; vm_compute; reflexivity.

(** C9, as the code has it.  Seven functions of the repository call no
    operation at all ([all_pairs], the three hand-written [count_list]s,
    [reverse1], [reverse2], [split]) and the two [ToyAgent.step] call
    nothing but [print]; every other one calls an operation of an imported
    module in some run.  The results of the seven are specified on lists and
    strings alone: [all_pairs] is the product of the list with itself; the
    three [count_list]s map each element of the list to its count and
    nothing else; on a string of characters below 256, [reverse1] never
    raises and returns what [reverse2] returns, whose words are the words of
    the string, last word first, with one space between two words and none
    before or after; with a window of at least 0 and a step of at least 1,
    [split] returns the windows of the text that start at the multiples of
    the step, and the character after each. *)
Theorem library_free_functions_specified :
  Forall (fun f => if bool_decide (rf_name f ∈ builtin_names) then library_free f
                   else if bool_decide (rf_name f ∈ printing_names) then import_free f
                   else calls_import f)
         (repository K) /\
  (forall x : list K, Perf.all_pairs x = list_prod x x) /\
  (forall (L : list K) (k : K),
     Perf.count_list L !! k = (if decide (k ∈ L) then Some (Perf.list_count L k) else None) /\
     Perf.count_list2 L !! k = (if decide (k ∈ L) then Some (Perf.list_count L k) else None) /\
     Perf.count_list3 L !! k = (if decide (k ∈ L) then Some (Perf.list_count L k) else None)) /\
  (forall s : string,
     Perf.reverse1 s = Returned (Perf.reverse2 s) /\
     Py.split (Perf.reverse2 s) = rev (Py.split s) /\
     Py.join " " (Py.split (Perf.reverse2 s)) = Perf.reverse2 s) /\
  (forall (text : list K) (raw_text : K) (max_len step_size : nat),
     Tf5.split text raw_text (Z.of_nat max_len) (Z.of_nat (S step_size))
     = Returned
         (map (fun i => Py.slice text i (i + Z.of_nat max_len))
              (Tf5.split_indices text (Z.of_nat max_len) (Z.of_nat (S step_size))),
          map (fun i => Py.slice text (i + Z.of_nat max_len) (i + Z.of_nat max_len + 1))
              (Tf5.split_indices text (Z.of_nat max_len) (Z.of_nat (S step_size))))).
Proof.
  split; [|split; [|split; [|split]]].
  - unfold repository.
    kind no_library. kind no_library. kind no_library. kind no_library.
    kind ltac:(some_import (@nil K)).
    kind no_library. kind no_library.
    kind ltac:(some_import tt).
    kind ltac:(some_import tt).
    kind no_library.
    kind ltac:(some_import (0%nat, 0%float)).
    kind ltac:(some_import (Tf5.TfGlobals 0 [] 0%nat [], 0, 0%float, 0, 0%nat)).
    kind ltac:(some_import 0%nat).
    kind ltac:(some_import [Abm1.VInt 0; Abm1.VModel 0%nat]).
    kind only_prints.
    kind ltac:(some_import (0%nat, 0)).
    kind ltac:(some_import (0%nat, ({[ 0%nat := Abm1.ModelObj (Some 0%nat) None None ]}
                                     : Abm1.store))).
    kind ltac:(some_import [Abm1.VCoord (0, 0); Abm1.VModel 0%nat]).
    kind only_prints.
    kind ltac:(some_import (0%nat, 0, 0, 0%float)).
    kind ltac:(some_import (0%nat, ({[ 0%nat := Abm1.ModelObj (Some 0%nat) None None ]}
                                     : Abm1.store))).
    kind ltac:(some_import [Abm1.VCoord (0, 0); Abm1.VStr ""; Abm1.VFloat 0; Abm1.VModel 0%nat]).
    kind ltac:(some_import (((0, 0) : Abm1.coord), ((0, 0) : Abm1.coord), "", 0%float, 0%nat,
                            ({[ 0%nat := Abm1.ModelObj None (Some 0%nat) None ]} : Abm1.store))).
    kind ltac:(some_import (0%nat, 0, 0, 0%float, 0%float)).
    kind ltac:(some_import (0%nat, ({[ 0%nat := Abm1.ModelObj (Some 0%nat) None None ]}
                                     : Abm1.store))).
    kind ltac:(some_import (Abm1.ModelObj None (Some 0%nat) None, 0%nat)).
    apply Forall_nil. exact I.
  - intros x. apply PerfFacts.all_pairs_product.
  - intros L k. split; [apply PerfFacts.count_list_lookup|].
    split; [apply PerfFacts.count_list2_lookup | apply PerfFacts.count_list3_lookup].
  - intros s. split; [apply PerfFacts.reverse1_reverses|].
    split; [apply PerfFacts.split_reverse2|].
    rewrite PerfFacts.split_reverse2. reflexivity.
  - intros text raw_text max_len step_size. apply Tf5Facts.split_windows; lia.
Qed.

End RepositoryFacts.

(** C9, as stated, fails: [count_list3] and [reverse1], both functions of
    the repository, call no library, and what they compute is specified (and
    checked here on an input) without any. *)
Lemma count_list3_needs_no_library :
  builtin_function "count_list3" (@Perf.count_list3 Z _ _) ∈ repository Z /\
  library_free (builtin_function "count_list3" (@Perf.count_list3 Z _ _)) /\
  (forall (L : list Z) (k : Z),
     Perf.count_list3 L !! k = if decide (k ∈ L) then Some (Perf.list_count L k) else None) /\
  Perf.count_list3 [3; 1; 3] !! 3 = Some 2%nat /\
  raising_function "reverse1" Perf.reverse1 ∈ repository Z /\
  library_free (raising_function "reverse1" Perf.reverse1) /\
  Perf.reverse1 "to boldly go" = Returned "go boldly to".
Proof.
  split; [unfold repository; do 3 apply list_elem_of_further; apply list_elem_of_here|].
  split; [intros L; apply cf_Ret|].
  split; [intros L k; apply PerfFacts.count_list3_lookup|].
  split; [reflexivity|].
  split; [unfold repository; do 5 apply list_elem_of_further; apply list_elem_of_here|].
  split; [intros s; apply call_free_lift|].
  reflexivity.
Qed.

End RepositoryFacts.
